(** * linstor-csi: the LINSTOR client of the CSI driver (pkg/client/linstor.go)

    A shallow embedding of the volume-identity and configuration translation
    code: capacity rounding ([AllocationSizeKiB]), name canonicalisation
    ([validResourceName], [linstorifyResourceName]), the translation of a
    volume into a resource deployment configuration
    ([resDeploymentConfigFromVolumeInfo]), the recovery of a volume from the
    properties of a resource definition ([resDefToVolume]) and the lookups
    built on it ([GetByName], [GetByID], [ListAll]); then the methods that
    act on a deployment or on the file system helper ([Create], [Delete],
    [Attach], [Detach], [GetAssignmentOnNode], [Mount], [Unmount]), the
    choice of a volume name ([CanonicalizeVolumeName]) and [NodeAvailable].

    Go values are embedded as follows: [int64] and [uint64] as [Z] (with the
    wrap-around of a conversion written out where the code converts), Go
    strings as [string] (sequences of bytes), [[]byte] as [list ascii],
    [map[string]string] as [gmap string string], a pointer that may be nil as
    an [option], and a Go result pair [(x, err)] as a Rocq pair whose second
    component is an [option error]. *)

From Stdlib Require Import ZArith Lia Ascii String List Permutation.
From Stdlib Require DecimalPos DecimalZ DecimalFacts.
From stdpp Require Import base option list sorting strings gmap fin_maps.

Local Open Scope Z_scope.

(** ** The unit library *)

Module data.

(** Modelled from the spec: the unit library [github.com/haySwim/data] is
    imported by the client but is not part of its sources.  The spec (4.2)
    describes what the client relies on: a byte count is rounded UP to
    whole KiB ("ceiling division", "1025 bytes -> 2 units of 1024 bytes").
    Sizes are exact integers here.  The client only ever uses the
    composition [NewKibiByte(NewKibiByte(b).InclusiveBytes())], a whole
    number of KiB.  [ByteSize] is a number of bytes. *)
Definition ByteSize := Z.

Definition KiB : ByteSize := 1024.

(** A size held as a whole number of KiB. *)
Record KibiByte := mkKibiByte { kibibytes : Z }.

(** A size held as a number of bytes. *)
Record Byte := mkByte { bytes : Z }.

(** [NewKibiByte b]: the least number of KiB that holds [b] bytes. *)
Definition NewKibiByte (b : ByteSize) : KibiByte :=
  mkKibiByte ((b + (KiB - 1)) / KiB).

Definition NewByte (b : ByteSize) : Byte := mkByte b.

(** [Value]: the count, in the unit of the receiver. *)
Definition KibiByte_Value (k : KibiByte) : Z := kibibytes k.

(** [InclusiveBytes]: the number of bytes the receiver spans. *)
Definition KibiByte_InclusiveBytes (k : KibiByte) : ByteSize := kibibytes k * KiB.

Definition Byte_InclusiveBytes (b : Byte) : ByteSize := bytes b.

End data.

(** ** Errors

    One constructor per place where the client builds an error; the arguments
    are the values the Go code formats into the message. *)
Inductive error : Type :=
  (* AllocationSizeKiB *)
  | ErrMinimumExceedsLimit
  | ErrSizeLimited (requiredBytes : Z) (volumeSize : data.KibiByte) (limit : data.Byte)
  (* validResourceName *)
  | ErrNameIsAll
  | ErrNoAlphabetic
  | ErrNoMatch (re : string)
  (* linstorifyResourceName *)
  | ErrLinstorify (name : string)
  (* resDeploymentConfigFromVolumeInfo *)
  | ErrParseInteger (v : string)
  (* resDefToVolume *)
  | ErrUnmarshalAnnotations
  | ErrNoResourceName
  (* an error reported by the LINSTOR controller *)
  | ErrController (msg : string).

(** ** Capacity rounding *)

(** [AllocationSizeKiB requiredBytes limitBytes]: the Go result pair
    [(int64, error)].  The receiver is not used by the method. *)
Definition AllocationSizeKiB (requiredBytes limitBytes : Z) : Z * option error :=
  let requestedSize : data.ByteSize := requiredBytes in
  let minVolumeSize : data.ByteSize := 4096 in
  let maxVolumeSize : data.ByteSize := limitBytes in
  let unlimited := maxVolumeSize =? 0 in
  if (minVolumeSize >? maxVolumeSize) && negb unlimited then
    (0, Some ErrMinimumExceedsLimit)
  else
    let requestedSize :=
      if requestedSize <? minVolumeSize then minVolumeSize else requestedSize in
    let volumeSize :=
      data.NewKibiByte
        (data.KibiByte_InclusiveBytes (data.NewKibiByte requestedSize)) in
    let limit := data.NewByte maxVolumeSize in
    if (data.KibiByte_InclusiveBytes volumeSize >? data.Byte_InclusiveBytes limit)
       && negb unlimited
    then (data.KibiByte_Value volumeSize,
          Some (ErrSizeLimited requiredBytes volumeSize limit))
    else (data.KibiByte_Value volumeSize, None).

(** ** Bytes, runes and the two Go libraries the names code relies on *)

(** The value of a byte, 0..255. *)
Definition byte_val (c : ascii) : Z := Z.of_N (N_of_ascii c).

Definition byte_of (z : Z) : ascii := ascii_of_N (Z.to_N z).

Definition between (lo hi z : Z) : bool := (lo <=? z) && (z <=? hi).

(** [[]byte(s)] and [string(b)]. *)
Definition bytes_of_string (s : string) : list ascii := list_ascii_of_string s.
Definition string_of_bytes (b : list ascii) : string := string_of_list_ascii b.

Module utf8.

(** Go's [unicode/utf8]: a string is a sequence of bytes, read as runes.
    An ill-formed or truncated encoding is read as [RuneError] of width 1. *)
Definition RuneError : Z := 0xFFFD.
Definition RuneSelf : Z := 0x80.

Definition cont (c : ascii) : bool := between 0x80 0xBF (byte_val c).

(** The range accepted for the second byte after the lead byte [x0]. *)
Definition second_lo (x0 : Z) : Z :=
  if x0 =? 0xE0 then 0xA0 else if x0 =? 0xF0 then 0x90 else 0x80.
Definition second_hi (x0 : Z) : Z :=
  if x0 =? 0xED then 0x9F else if x0 =? 0xF4 then 0x8F else 0xBF.

(** [DecodeRune p]: the first rune of [p] and its width in bytes. *)
Definition DecodeRune (p : list ascii) : Z * nat :=
  match p with
  | [] => (RuneError, 0%nat)
  | b0 :: p1 =>
    let x0 := byte_val b0 in
    if x0 <? RuneSelf then (x0, 1%nat)
    else if between 0xC2 0xDF x0 then
      match p1 with
      | b1 :: _ =>
        if cont b1
        then ((x0 - 0xC0) * 64 + (byte_val b1 - 0x80), 2%nat)
        else (RuneError, 1%nat)
      | _ => (RuneError, 1%nat)
      end
    else if between 0xE0 0xEF x0 then
      match p1 with
      | b1 :: b2 :: _ =>
        if between (second_lo x0) (second_hi x0) (byte_val b1) && cont b2
        then ((x0 - 0xE0) * 4096 + (byte_val b1 - 0x80) * 64
              + (byte_val b2 - 0x80), 3%nat)
        else (RuneError, 1%nat)
      | _ => (RuneError, 1%nat)
      end
    else if between 0xF0 0xF4 x0 then
      match p1 with
      | b1 :: b2 :: b3 :: _ =>
        if between (second_lo x0) (second_hi x0) (byte_val b1)
           && cont b2 && cont b3
        then ((x0 - 0xF0) * 262144 + (byte_val b1 - 0x80) * 4096
              + (byte_val b2 - 0x80) * 64 + (byte_val b3 - 0x80), 4%nat)
        else (RuneError, 1%nat)
      | _ => (RuneError, 1%nat)
      end
    else (RuneError, 1%nat)
  end.

(** The runes of a byte sequence, as [for _, r := range s] yields them. *)
Fixpoint runes_go (fuel : nat) (p : list ascii) : list Z :=
  match fuel, p with
  | S fuel, _ :: _ =>
    let '(r, size) := DecodeRune p in r :: runes_go fuel (drop size p)
  | _, _ => []
  end.

Definition runes (s : string) : list Z :=
  let p := bytes_of_string s in runes_go (length p) p.

(** [valid p]: [p] is well-formed UTF-8 ([utf8.Valid]): no position reads
    as an ill-formed encoding. *)
Fixpoint valid_go (fuel : nat) (p : list ascii) : bool :=
  match fuel, p with
  | _, [] => true
  | S fuel, b0 :: _ =>
    let '(r, size) := DecodeRune p in
    if (byte_val b0 <? RuneSelf) || negb (size =? 1)%nat
    then valid_go fuel (drop size p)
    else false
  | O, _ :: _ => false
  end.

Definition Valid (p : list ascii) : bool := valid_go (length p) p.
Definition ValidString (s : string) : bool := Valid (bytes_of_string s).

End utf8.

Module regexp.

(** Go's [regexp] matches runes.  The client uses three fixed patterns;
    each is embedded as the predicate or function on runes it denotes. *)

(** [[:alpha:]]: an ASCII letter. *)
Definition alpha (r : Z) : bool := between 65 90 r || between 97 122 r.

(** [[A-Za-z_]]. *)
Definition name_start (r : Z) : bool := alpha r || (r =? 95).

(** [[A-Za-z0-9\-_]]. *)
Definition name_char (r : Z) : bool :=
  alpha r || between 48 57 r || (r =? 45) || (r =? 95).

(** [regexp.MatchString("[[:alpha:]]", s)]: some rune of [s] is a letter. *)
Definition MatchString_alpha (s : string) : bool :=
  existsb alpha (utf8.runes s).

(** [regexp.MatchString("^[A-Za-z_][A-Za-z0-9\\-_]{1,47}$", s)]; without
    the multi-line flag [$] matches at the end of the text only. *)
Definition MatchString_name (s : string) : bool :=
  match utf8.runes s with
  | [] => false
  | r :: rs =>
    name_start r && forallb name_char rs
    && (1 <=? length rs)%nat && (length rs <=? 47)%nat
  end.

(** [regexp.MustCompile("[^A-Za-z0-9\\-_]").ReplaceAllLiteralString(s, "_")]:
    every rune outside the class becomes one underscore. *)
Definition ReplaceAllLiteralString_nonname (s : string) : string :=
  string_of_bytes
    (map (fun r => if name_char r then byte_of r else "_"%char)
         (utf8.runes s)).

End regexp.

(** ** Name canonicalisation *)

(** [validResourceName] returns an error if the input string is not a valid
    LINSTOR name.  Both patterns are constants that compile, so the error
    results of [regexp.MatchString] do not arise. *)
Definition validResourceName (resName : string) : option error :=
  if String.eqb resName "all" then Some ErrNameIsAll
  else
    if negb (regexp.MatchString_alpha resName) then Some ErrNoAlphabetic
    else
      let re := "^[A-Za-z_][A-Za-z0-9\-_]{1,47}$" in
      if negb (regexp.MatchString_name resName) then Some (ErrNoMatch re)
      else None.

(** [linstorifyResourceName] tries to generate a valid LINSTOR name if the
    input currently is not.  The Go result pair [(string, error)]. *)
Definition linstorifyResourceName (name : string) : string * option error :=
  match validResourceName name with
  | None => (name, None)
  | Some _ =>
    let newName := regexp.ReplaceAllLiteralString_nonname name in
    match validResourceName newName with
    | None => (newName, None)
    | Some _ =>
      (* fulfill at least the minimal requirement *)
      let newName := "LS_" +:+ newName in
      match validResourceName newName with
      | None => (newName, None)
      | Some _ => ("", Some (ErrLinstorify name))
      end
    end
  end.

(** ** The data model *)

Module volume.

(** Modelled from the spec: the record type [volume.Info] (package
    pkg/volume of the repository) is used by the client but declared
    outside its sources.  The spec (3, "Volume") gives its fields: [ID],
    [Name], [SizeBytes] and [Parameters].  [Parameters] is a Go map, which
    may be nil ([None]). *)
Record Info : Type := mkInfo {
  ID : string;
  Name : string;
  SizeBytes : Z;
  Parameters : option (gmap string string)
}.

Definition set_ID (x : string) (v : Info) : Info :=
  mkInfo x (Name v) (SizeBytes v) (Parameters v).
Definition set_Name (x : string) (v : Info) : Info :=
  mkInfo (ID v) x (SizeBytes v) (Parameters v).
Definition set_SizeBytes (x : Z) (v : Info) : Info :=
  mkInfo (ID v) (Name v) x (Parameters v).
Definition set_Parameters (x : option (gmap string string)) (v : Info) : Info :=
  mkInfo (ID v) (Name v) (SizeBytes v) x.

End volume.

Module lc.

(** The types of the LINSTOR client library (golinstor) that the code
    reads and writes; only the fields the client touches are kept. *)

(** One property of a resource definition. *)
Record RscDfnProp : Type := mkProp { Key : string; Value : string }.

Record ResDef : Type := mkResDef {
  RscName : string;
  RscDfnProps : list RscDfnProp
}.

(** [ResourceDeploymentConfig]; the log writer [LogOut] is left out. *)
Record ResourceDeploymentConfig : Type := mkConfig {
  Name : string;
  NodeList : list string;
  LayerList : list string;
  ClientList : list string;
  ReplicasOnSame : list string;
  ReplicasOnDifferent : list string;
  AutoPlace : Z;
  DoNotPlaceWithRegex : string;
  SizeKiB : Z;
  StoragePool : string;
  DisklessStoragePool : string;
  Encryption : bool;
  Controllers : string;
  Annotations : option (gmap string string)
}.

(** The zero value, [&lc.ResourceDeploymentConfig{}]. *)
Definition zeroConfig : ResourceDeploymentConfig :=
  mkConfig "" [] [] [] [] [] 0 "" 0 "" "" false "" None.

Definition set_Name (x : string) (c : ResourceDeploymentConfig) :=
  mkConfig x (NodeList c) (LayerList c) (ClientList c) (ReplicasOnSame c)
    (ReplicasOnDifferent c) (AutoPlace c) (DoNotPlaceWithRegex c) (SizeKiB c)
    (StoragePool c) (DisklessStoragePool c) (Encryption c) (Controllers c)
    (Annotations c).
Definition set_NodeList (x : list string) (c : ResourceDeploymentConfig) :=
  mkConfig (Name c) x (LayerList c) (ClientList c) (ReplicasOnSame c)
    (ReplicasOnDifferent c) (AutoPlace c) (DoNotPlaceWithRegex c) (SizeKiB c)
    (StoragePool c) (DisklessStoragePool c) (Encryption c) (Controllers c)
    (Annotations c).
Definition set_LayerList (x : list string) (c : ResourceDeploymentConfig) :=
  mkConfig (Name c) (NodeList c) x (ClientList c) (ReplicasOnSame c)
    (ReplicasOnDifferent c) (AutoPlace c) (DoNotPlaceWithRegex c) (SizeKiB c)
    (StoragePool c) (DisklessStoragePool c) (Encryption c) (Controllers c)
    (Annotations c).
Definition set_ReplicasOnSame (x : list string) (c : ResourceDeploymentConfig) :=
  mkConfig (Name c) (NodeList c) (LayerList c) (ClientList c) x
    (ReplicasOnDifferent c) (AutoPlace c) (DoNotPlaceWithRegex c) (SizeKiB c)
    (StoragePool c) (DisklessStoragePool c) (Encryption c) (Controllers c)
    (Annotations c).
Definition set_ReplicasOnDifferent (x : list string) (c : ResourceDeploymentConfig) :=
  mkConfig (Name c) (NodeList c) (LayerList c) (ClientList c) (ReplicasOnSame c)
    x (AutoPlace c) (DoNotPlaceWithRegex c) (SizeKiB c)
    (StoragePool c) (DisklessStoragePool c) (Encryption c) (Controllers c)
    (Annotations c).
Definition set_AutoPlace (x : Z) (c : ResourceDeploymentConfig) :=
  mkConfig (Name c) (NodeList c) (LayerList c) (ClientList c) (ReplicasOnSame c)
    (ReplicasOnDifferent c) x (DoNotPlaceWithRegex c) (SizeKiB c)
    (StoragePool c) (DisklessStoragePool c) (Encryption c) (Controllers c)
    (Annotations c).
Definition set_DoNotPlaceWithRegex (x : string) (c : ResourceDeploymentConfig) :=
  mkConfig (Name c) (NodeList c) (LayerList c) (ClientList c) (ReplicasOnSame c)
    (ReplicasOnDifferent c) (AutoPlace c) x (SizeKiB c)
    (StoragePool c) (DisklessStoragePool c) (Encryption c) (Controllers c)
    (Annotations c).
Definition set_SizeKiB (x : Z) (c : ResourceDeploymentConfig) :=
  mkConfig (Name c) (NodeList c) (LayerList c) (ClientList c) (ReplicasOnSame c)
    (ReplicasOnDifferent c) (AutoPlace c) (DoNotPlaceWithRegex c) x
    (StoragePool c) (DisklessStoragePool c) (Encryption c) (Controllers c)
    (Annotations c).
Definition set_StoragePool (x : string) (c : ResourceDeploymentConfig) :=
  mkConfig (Name c) (NodeList c) (LayerList c) (ClientList c) (ReplicasOnSame c)
    (ReplicasOnDifferent c) (AutoPlace c) (DoNotPlaceWithRegex c) (SizeKiB c)
    x (DisklessStoragePool c) (Encryption c) (Controllers c)
    (Annotations c).
Definition set_DisklessStoragePool (x : string) (c : ResourceDeploymentConfig) :=
  mkConfig (Name c) (NodeList c) (LayerList c) (ClientList c) (ReplicasOnSame c)
    (ReplicasOnDifferent c) (AutoPlace c) (DoNotPlaceWithRegex c) (SizeKiB c)
    (StoragePool c) x (Encryption c) (Controllers c)
    (Annotations c).
Definition set_Encryption (x : bool) (c : ResourceDeploymentConfig) :=
  mkConfig (Name c) (NodeList c) (LayerList c) (ClientList c) (ReplicasOnSame c)
    (ReplicasOnDifferent c) (AutoPlace c) (DoNotPlaceWithRegex c) (SizeKiB c)
    (StoragePool c) (DisklessStoragePool c) x (Controllers c)
    (Annotations c).
Definition set_Controllers (x : string) (c : ResourceDeploymentConfig) :=
  mkConfig (Name c) (NodeList c) (LayerList c) (ClientList c) (ReplicasOnSame c)
    (ReplicasOnDifferent c) (AutoPlace c) (DoNotPlaceWithRegex c) (SizeKiB c)
    (StoragePool c) (DisklessStoragePool c) (Encryption c) x
    (Annotations c).
Definition set_Annotations (x : option (gmap string string))
    (c : ResourceDeploymentConfig) :=
  mkConfig (Name c) (NodeList c) (LayerList c) (ClientList c) (ReplicasOnSame c)
    (ReplicasOnDifferent c) (AutoPlace c) (DoNotPlaceWithRegex c) (SizeKiB c)
    (StoragePool c) (DisklessStoragePool c) (Encryption c) (Controllers c) x.

End lc.

(** The parameter keys the client recognises. *)
Definition NodeListKey : string := "nodelist".
Definition LayerListKey : string := "layerlist".
Definition ClientListKey : string := "clientlist".
Definition ReplicasOnSameKey : string := "replicasonsame".
Definition ReplicasOnDifferentKey : string := "replicasondifferent".
Definition AutoPlaceKey : string := "autoplace".
Definition DoNotPlaceWithRegexKey : string := "donotplacewithregex".
Definition SizeKiBKey : string := "sizekib".
Definition StoragePoolKey : string := "storagepool".
Definition DisklessStoragePoolKey : string := "disklessstoragepool".
Definition EncryptionKey : string := "encryption".
Definition BlockSizeKey : string := "blocksize".
Definition ForceKey : string := "force".
Definition FSKey : string := "filesystem".
Definition MountOptsKey : string := "mountOpts".
Definition FSOptsKey : string := "fsOpts".

(** [LinstorConfig] and [Linstor], without the log writer and formatter. *)
Record LinstorConfig : Type := mkLinstorConfig {
  Debug : bool;
  Controllers : string
}.

Record Linstor : Type := mkLinstor {
  config : LinstorConfig;
  annotationsKey : string;
  fallbackPrefix : string
}.

Definition NewLinstor (cfg : LinstorConfig) : Linstor :=
  mkLinstor cfg "csi-volume-annotations" "csi-".

(** ** The Go standard library functions the client calls *)

(** [utf8.EncodeRune]: the UTF-8 encoding of a rune; a surrogate or a value
    out of range is encoded as [RuneError]. *)
Definition EncodeRune (r : Z) : list ascii :=
  if (0 <=? r) && (r <? 0x80) then [byte_of r]
  else if (0 <=? r) && (r <? 0x800) then
    [byte_of (0xC0 + r / 64); byte_of (0x80 + r mod 64)]
  else if (r <? 0) || (0x10FFFF <? r) || between 0xD800 0xDFFF r then
    [byte_of 0xEF; byte_of 0xBF; byte_of 0xBD]
  else if r <? 0x10000 then
    [byte_of (0xE0 + r / 4096); byte_of (0x80 + (r / 64) mod 64);
     byte_of (0x80 + r mod 64)]
  else
    [byte_of (0xF0 + r / 262144); byte_of (0x80 + (r / 4096) mod 64);
     byte_of (0x80 + (r / 64) mod 64); byte_of (0x80 + r mod 64)].

Module unicode.

(** Go's [unicode.ToLower].  Above ASCII the mapping is read from
    [unicode.CaseRanges], the simple lower-case mappings of the Unicode
    Character Database (here as of Unicode 14.0; the Go release decides the
    version, and later versions add letters).  The lower-case column of the
    table is kept as entries [(lo, hi, stride, delta)]: the runes [lo],
    [lo + stride], ... up to [hi] are mapped to themselves plus [delta], and
    every other rune to itself.  Two runes outside ASCII have an ASCII
    letter as their lower case: U+0130 gives [i] and U+212A gives [k]. *)
Definition MaxASCII : Z := 0x7F.

Definition lowerRanges : list (Z * Z * Z * Z) :=
  [(0x0041, 0x005A, 1, 32); (0x00C0, 0x00D6, 1, 32); (0x00D8, 0x00DE, 1, 32);
   (0x0100, 0x012E, 2, 1); (0x0130, 0x0130, 1, (-199));
   (0x0132, 0x0136, 2, 1); (0x0139, 0x0147, 2, 1); (0x014A, 0x0176, 2, 1);
   (0x0178, 0x0178, 1, (-121)); (0x0179, 0x017D, 2, 1);
   (0x0181, 0x0181, 1, 210); (0x0182, 0x0184, 2, 1); (0x0186, 0x0186, 1, 206);
   (0x0187, 0x0187, 1, 1); (0x0189, 0x018A, 1, 205); (0x018B, 0x018B, 1, 1);
   (0x018E, 0x018E, 1, 79); (0x018F, 0x018F, 1, 202);
   (0x0190, 0x0190, 1, 203); (0x0191, 0x0191, 1, 1); (0x0193, 0x0193, 1, 205);
   (0x0194, 0x0194, 1, 207); (0x0196, 0x0196, 1, 211);
   (0x0197, 0x0197, 1, 209); (0x0198, 0x0198, 1, 1); (0x019C, 0x019C, 1, 211);
   (0x019D, 0x019D, 1, 213); (0x019F, 0x019F, 1, 214); (0x01A0, 0x01A4, 2, 1);
   (0x01A6, 0x01A6, 1, 218); (0x01A7, 0x01A7, 1, 1); (0x01A9, 0x01A9, 1, 218);
   (0x01AC, 0x01AC, 1, 1); (0x01AE, 0x01AE, 1, 218); (0x01AF, 0x01AF, 1, 1);
   (0x01B1, 0x01B2, 1, 217); (0x01B3, 0x01B5, 2, 1); (0x01B7, 0x01B7, 1, 219);
   (0x01B8, 0x01B8, 1, 1); (0x01BC, 0x01BC, 1, 1); (0x01C4, 0x01C4, 1, 2);
   (0x01C5, 0x01C5, 1, 1); (0x01C7, 0x01C7, 1, 2); (0x01C8, 0x01C8, 1, 1);
   (0x01CA, 0x01CA, 1, 2); (0x01CB, 0x01DB, 2, 1); (0x01DE, 0x01EE, 2, 1);
   (0x01F1, 0x01F1, 1, 2); (0x01F2, 0x01F4, 2, 1); (0x01F6, 0x01F6, 1, (-97));
   (0x01F7, 0x01F7, 1, (-56)); (0x01F8, 0x021E, 2, 1);
   (0x0220, 0x0220, 1, (-130)); (0x0222, 0x0232, 2, 1);
   (0x023A, 0x023A, 1, 10795); (0x023B, 0x023B, 1, 1);
   (0x023D, 0x023D, 1, (-163)); (0x023E, 0x023E, 1, 10792);
   (0x0241, 0x0241, 1, 1); (0x0243, 0x0243, 1, (-195));
   (0x0244, 0x0244, 1, 69); (0x0245, 0x0245, 1, 71); (0x0246, 0x024E, 2, 1);
   (0x0370, 0x0372, 2, 1); (0x0376, 0x0376, 1, 1); (0x037F, 0x037F, 1, 116);
   (0x0386, 0x0386, 1, 38); (0x0388, 0x038A, 1, 37); (0x038C, 0x038C, 1, 64);
   (0x038E, 0x038F, 1, 63); (0x0391, 0x03A1, 1, 32); (0x03A3, 0x03AB, 1, 32);
   (0x03CF, 0x03CF, 1, 8); (0x03D8, 0x03EE, 2, 1); (0x03F4, 0x03F4, 1, (-60));
   (0x03F7, 0x03F7, 1, 1); (0x03F9, 0x03F9, 1, (-7)); (0x03FA, 0x03FA, 1, 1);
   (0x03FD, 0x03FF, 1, (-130)); (0x0400, 0x040F, 1, 80);
   (0x0410, 0x042F, 1, 32); (0x0460, 0x0480, 2, 1); (0x048A, 0x04BE, 2, 1);
   (0x04C0, 0x04C0, 1, 15); (0x04C1, 0x04CD, 2, 1); (0x04D0, 0x052E, 2, 1);
   (0x0531, 0x0556, 1, 48); (0x10A0, 0x10C5, 1, 7264);
   (0x10C7, 0x10C7, 1, 7264); (0x10CD, 0x10CD, 1, 7264);
   (0x13A0, 0x13EF, 1, 38864); (0x13F0, 0x13F5, 1, 8);
   (0x1C90, 0x1CBA, 1, (-3008)); (0x1CBD, 0x1CBF, 1, (-3008));
   (0x1E00, 0x1E94, 2, 1); (0x1E9E, 0x1E9E, 1, (-7615));
   (0x1EA0, 0x1EFE, 2, 1); (0x1F08, 0x1F0F, 1, (-8));
   (0x1F18, 0x1F1D, 1, (-8)); (0x1F28, 0x1F2F, 1, (-8));
   (0x1F38, 0x1F3F, 1, (-8)); (0x1F48, 0x1F4D, 1, (-8));
   (0x1F59, 0x1F5F, 2, (-8)); (0x1F68, 0x1F6F, 1, (-8));
   (0x1F88, 0x1F8F, 1, (-8)); (0x1F98, 0x1F9F, 1, (-8));
   (0x1FA8, 0x1FAF, 1, (-8)); (0x1FB8, 0x1FB9, 1, (-8));
   (0x1FBA, 0x1FBB, 1, (-74)); (0x1FBC, 0x1FBC, 1, (-9));
   (0x1FC8, 0x1FCB, 1, (-86)); (0x1FCC, 0x1FCC, 1, (-9));
   (0x1FD8, 0x1FD9, 1, (-8)); (0x1FDA, 0x1FDB, 1, (-100));
   (0x1FE8, 0x1FE9, 1, (-8)); (0x1FEA, 0x1FEB, 1, (-112));
   (0x1FEC, 0x1FEC, 1, (-7)); (0x1FF8, 0x1FF9, 1, (-128));
   (0x1FFA, 0x1FFB, 1, (-126)); (0x1FFC, 0x1FFC, 1, (-9));
   (0x2126, 0x2126, 1, (-7517)); (0x212A, 0x212A, 1, (-8383));
   (0x212B, 0x212B, 1, (-8262)); (0x2132, 0x2132, 1, 28);
   (0x2160, 0x216F, 1, 16); (0x2183, 0x2183, 1, 1); (0x24B6, 0x24CF, 1, 26);
   (0x2C00, 0x2C2F, 1, 48); (0x2C60, 0x2C60, 1, 1);
   (0x2C62, 0x2C62, 1, (-10743)); (0x2C63, 0x2C63, 1, (-3814));
   (0x2C64, 0x2C64, 1, (-10727)); (0x2C67, 0x2C6B, 2, 1);
   (0x2C6D, 0x2C6D, 1, (-10780)); (0x2C6E, 0x2C6E, 1, (-10749));
   (0x2C6F, 0x2C6F, 1, (-10783)); (0x2C70, 0x2C70, 1, (-10782));
   (0x2C72, 0x2C72, 1, 1); (0x2C75, 0x2C75, 1, 1);
   (0x2C7E, 0x2C7F, 1, (-10815)); (0x2C80, 0x2CE2, 2, 1);
   (0x2CEB, 0x2CED, 2, 1); (0x2CF2, 0x2CF2, 1, 1); (0xA640, 0xA66C, 2, 1);
   (0xA680, 0xA69A, 2, 1); (0xA722, 0xA72E, 2, 1); (0xA732, 0xA76E, 2, 1);
   (0xA779, 0xA77B, 2, 1); (0xA77D, 0xA77D, 1, (-35332));
   (0xA77E, 0xA786, 2, 1); (0xA78B, 0xA78B, 1, 1);
   (0xA78D, 0xA78D, 1, (-42280)); (0xA790, 0xA792, 2, 1);
   (0xA796, 0xA7A8, 2, 1); (0xA7AA, 0xA7AA, 1, (-42308));
   (0xA7AB, 0xA7AB, 1, (-42319)); (0xA7AC, 0xA7AC, 1, (-42315));
   (0xA7AD, 0xA7AD, 1, (-42305)); (0xA7AE, 0xA7AE, 1, (-42308));
   (0xA7B0, 0xA7B0, 1, (-42258)); (0xA7B1, 0xA7B1, 1, (-42282));
   (0xA7B2, 0xA7B2, 1, (-42261)); (0xA7B3, 0xA7B3, 1, 928);
   (0xA7B4, 0xA7C2, 2, 1); (0xA7C4, 0xA7C4, 1, (-48));
   (0xA7C5, 0xA7C5, 1, (-42307)); (0xA7C6, 0xA7C6, 1, (-35384));
   (0xA7C7, 0xA7C9, 2, 1); (0xA7D0, 0xA7D0, 1, 1); (0xA7D6, 0xA7D8, 2, 1);
   (0xA7F5, 0xA7F5, 1, 1); (0xFF21, 0xFF3A, 1, 32); (0x10400, 0x10427, 1, 40);
   (0x104B0, 0x104D3, 1, 40); (0x10570, 0x1057A, 1, 39);
   (0x1057C, 0x1058A, 1, 39); (0x1058C, 0x10592, 1, 39);
   (0x10594, 0x10595, 1, 39); (0x10C80, 0x10CB2, 1, 64);
   (0x118A0, 0x118BF, 1, 32); (0x16E40, 0x16E5F, 1, 32);
   (0x1E900, 0x1E921, 1, 34)].

Fixpoint to_lower (ranges : list (Z * Z * Z * Z)) (r : Z) : Z :=
  match ranges with
  | [] => r
  | (lo, hi, stride, delta) :: ranges' =>
    if (lo <=? r) && (r <=? hi) && ((r - lo) mod stride =? 0) then r + delta
    else to_lower ranges' r
  end.

Definition ToLower (r : Z) : Z :=
  if r <=? MaxASCII then
    if between 65 90 r then r + 32 else r
  else to_lower lowerRanges r.

End unicode.

Module strings.

Definition lower_byte (c : ascii) : ascii :=
  if between 65 90 (byte_val c) then byte_of (byte_val c + 32) else c.

Definition isASCII (s : string) : bool :=
  forallb (fun c => byte_val c <? utf8.RuneSelf) (bytes_of_string s).

(** [strings.Map(mapping, s)]: the runes of [s], each one mapped and encoded
    again; a negative result drops the rune.  A byte that is not part of a
    well-formed encoding is read as [RuneError], so it is written as the
    three bytes of U+FFFD (unless the mapping changes it). *)
Definition Map (mapping : Z -> Z) (s : string) : string :=
  string_of_bytes
    (flat_map (fun r => if 0 <=? mapping r then EncodeRune (mapping r) else [])
              (utf8.runes s)).

(** [strings.ToLower]: a string of ASCII bytes is lowered byte by byte
    (A..Z to a..z); any other string is mapped rune by rune with
    [unicode.ToLower]. *)
Definition ToLower (s : string) : string :=
  if isASCII s then string_of_bytes (map lower_byte (bytes_of_string s))
  else Map unicode.ToLower s.

(** [strings.Split(s, " ")]: the pieces of [s] between single spaces; the
    result is never empty. *)
Fixpoint Split_space (s : string) : list string :=
  match s with
  | EmptyString => [EmptyString]
  | String c s' =>
    match Split_space s' with
    | w :: ws =>
      if Ascii.eqb c " " then EmptyString :: w :: ws else String c w :: ws
    | [] => [String c EmptyString]
    end
  end.

End strings.

Module strconv.

Definition digit_of_byte (c : ascii) : option Z :=
  if between 48 57 (byte_val c) then Some (byte_val c - 48) else None.

(** The value of a sequence of decimal digits, most significant first;
    [None] if some byte is not a digit. *)
Fixpoint digits_value (acc : Z) (p : list ascii) : option Z :=
  match p with
  | [] => Some acc
  | c :: p' =>
    match digit_of_byte c with
    | Some d => digits_value (10 * acc + d) p'
    | None => None
    end
  end.

(** [strconv.ParseUint(s, 10, 64)]: a non-empty run of decimal digits with
    a value below 2^64; no sign, no underscores. *)
Definition ParseUint (s : string) : option Z :=
  match bytes_of_string s with
  | [] => None
  | p =>
    match digits_value 0 p with
    | Some n => if n <? 2 ^ 64 then Some n else None
    | None => None
    end
  end.

(** [strconv.ParseInt(s, 10, 64)]: an optional sign, then digits; the
    value must fit an int64. *)
Definition ParseInt (p : list ascii) : option Z :=
  let '(neg, digits) :=
    match p with
    | c :: p' =>
      if Ascii.eqb c "-" then (true, p')
      else if Ascii.eqb c "+" then (false, p')
      else (false, p)
    | [] => (false, p)
    end in
  match digits with
  | [] => None
  | _ =>
    match digits_value 0 digits with
    | Some n =>
      let z := if neg then - n else n in
      if (- 2 ^ 63 <=? z) && (z <? 2 ^ 63) then Some z else None
    | None => None
    end
  end.

Fixpoint bytes_of_uint (u : Decimal.uint) : list ascii :=
  match u with
  | Decimal.Nil => []
  | Decimal.D0 u => "0"%char :: bytes_of_uint u
  | Decimal.D1 u => "1"%char :: bytes_of_uint u
  | Decimal.D2 u => "2"%char :: bytes_of_uint u
  | Decimal.D3 u => "3"%char :: bytes_of_uint u
  | Decimal.D4 u => "4"%char :: bytes_of_uint u
  | Decimal.D5 u => "5"%char :: bytes_of_uint u
  | Decimal.D6 u => "6"%char :: bytes_of_uint u
  | Decimal.D7 u => "7"%char :: bytes_of_uint u
  | Decimal.D8 u => "8"%char :: bytes_of_uint u
  | Decimal.D9 u => "9"%char :: bytes_of_uint u
  end.

(** [strconv.FormatInt(z, 10)]: the decimal digits of [z], with a leading
    [-] when negative. *)
Definition FormatInt (z : Z) : list ascii :=
  match Z.to_int z with
  | Decimal.Pos u => bytes_of_uint u
  | Decimal.Neg u => "-"%char :: bytes_of_uint u
  end.

End strconv.

Module utf16.

(** Go's [unicode/utf16], used by the JSON decoder for [\u] escapes. *)
Definition IsSurrogate (r : Z) : bool := (0xD800 <=? r) && (r <? 0xE000).

Definition DecodeRune (r1 r2 : Z) : Z :=
  if (0xD800 <=? r1) && (r1 <? 0xDC00) && (0xDC00 <=? r2) && (r2 <? 0xE000)
  then (r1 - 0xD800) * 1024 + (r2 - 0xDC00) + 0x10000
  else utf8.RuneError.

End utf16.

Module json.

(** Go's [encoding/json], as far as the client uses it: [Marshal] of a
    [volume.Info] and [Unmarshal] into one.  The type declares no field
    tags in the spec, so the members carry the field names. *)

Definition dquote : ascii := "034"%char.
Definition backslash : ascii := "092"%char.

Definition lit (s : string) : list ascii := bytes_of_string s.

Definition hex_digit (n : Z) : ascii :=
  if n <? 10 then byte_of (48 + n) else byte_of (87 + n).

(** *** Encoding *)

(** The bytes the encoder copies unchanged ([htmlSafeSet]): printable
    ASCII except the quote, the backslash and [<], [>], [&]. *)
Definition htmlSafe (x : Z) : bool :=
  (0x20 <=? x) && (x <? 0x80)
  && negb ((x =? 34) || (x =? 92) || (x =? 60) || (x =? 62) || (x =? 38)).

Definition escape_byte (c : ascii) : list ascii :=
  let x := byte_val c in
  if (x =? 92) || (x =? 34) then [backslash; c]
  else if x =? 10 then [backslash; "n"%char]
  else if x =? 13 then [backslash; "r"%char]
  else if x =? 9 then [backslash; "t"%char]
  else [backslash; "u"%char; "0"%char; "0"%char;
        hex_digit (x / 16); hex_digit (x mod 16)].

(** One turn of the encoder's loop over a string: the bytes written for
    the rune at the head of [p], and the number of bytes of [p] consumed. *)
Definition quote_step (p : list ascii) : list ascii * nat :=
  match p with
  | [] => ([], 0%nat)
  | b :: _ =>
    if byte_val b <? utf8.RuneSelf then
      (if htmlSafe (byte_val b) then [b] else escape_byte b, 1%nat)
    else
      let '(c, size) := utf8.DecodeRune p in
      if (c =? utf8.RuneError) && (size =? 1)%nat then
        (backslash :: lit "ufffd", size)
      else if (c =? 0x2028) || (c =? 0x2029) then
        (backslash :: lit "u202" ++ [hex_digit (c mod 16)], size)
      else (take size p, size)
  end.

Fixpoint quote_go (fuel : nat) (p : list ascii) : list ascii :=
  match fuel, p with
  | S fuel, _ :: _ =>
    let '(out, size) := quote_step p in
    out ++ quote_go fuel (drop size p)
  | _, _ => []
  end.

(** The JSON string literal for a Go string. *)
Definition quote (s : string) : list ascii :=
  let p := bytes_of_string s in
  dquote :: quote_go (length p) p ++ [dquote].

(** Map keys are written in increasing (byte-wise) order. *)
Definition key_le (x y : string * string) : Prop := String.le x.1 y.1.

#[global] Instance key_le_dec : RelDecision key_le.
Proof. intros x y. unfold key_le. apply _. Defined.

Definition sorted_entries (m : gmap string string) : list (string * string) :=
  merge_sort key_le (map_to_list m).

Fixpoint members_text (kvs : list (string * string)) : list ascii :=
  match kvs with
  | [] => []
  | [(k, v)] => quote k ++ lit ":" ++ quote v
  | (k, v) :: kvs' => quote k ++ lit ":" ++ quote v ++ lit "," ++ members_text kvs'
  end.

Definition Marshal_map (m : option (gmap string string)) : list ascii :=
  match m with
  | None => lit "null"
  | Some m => lit "{" ++ members_text (sorted_entries m) ++ lit "}"
  end.

(** [json.Marshal(vol)] for [vol : *volume.Info].  Strings, integers and
    maps of strings always encode, so the error of the result pair is nil. *)
Definition Marshal (vol : volume.Info) : list ascii * option error :=
  (lit "{"
     ++ quote "ID" ++ lit ":" ++ quote (volume.ID vol) ++ lit ","
     ++ quote "Name" ++ lit ":" ++ quote (volume.Name vol) ++ lit ","
     ++ quote "SizeBytes" ++ lit ":" ++ strconv.FormatInt (volume.SizeBytes vol)
     ++ lit ","
     ++ quote "Parameters" ++ lit ":" ++ Marshal_map (volume.Parameters vol)
     ++ lit "}",
   None).

(** *** Decoding *)

#[local] Unset Elimination Schemes.
Inductive value : Type :=
  | JNull
  | JBool (b : bool)
  | JNumber (literal : list ascii)
  | JString (s : string)
  | JArray (vs : list value)
  | JObject (ms : list (string * value)).
#[local] Set Elimination Schemes.

Definition is_space (c : ascii) : bool :=
  let x := byte_val c in (x =? 32) || (x =? 9) || (x =? 10) || (x =? 13).

Fixpoint skip_space (p : list ascii) : list ascii :=
  match p with
  | c :: p' => if is_space c then skip_space p' else p
  | [] => []
  end.

Definition is_digit (c : ascii) : bool := between 48 57 (byte_val c).

Fixpoint span_digits (p : list ascii) : list ascii * list ascii :=
  match p with
  | c :: p' =>
    if is_digit c then let '(ds, r) := span_digits p' in (c :: ds, r)
    else ([], p)
  | [] => ([], [])
  end.

(** The exponent part of a number, if any. *)
Definition scan_exp (acc p : list ascii) : option (list ascii * list ascii) :=
  match p with
  | c :: p1 =>
    if Ascii.eqb c "e" || Ascii.eqb c "E" then
      let '(sign, p2) :=
        match p1 with
        | s :: p2 =>
          if Ascii.eqb s "+" || Ascii.eqb s "-" then ([s], p2) else ([], p1)
        | [] => ([], p1)
        end in
      match span_digits p2 with
      | ([], _) => None
      | (ds, r) => Some (acc ++ c :: sign ++ ds, r)
      end
    else Some (acc, p)
  | [] => Some (acc, p)
  end.

(** The fraction part of a number, if any, then the exponent. *)
Definition scan_frac (acc p : list ascii) : option (list ascii * list ascii) :=
  match p with
  | c :: p1 =>
    if Ascii.eqb c "." then
      match span_digits p1 with
      | ([], _) => None
      | (ds, r) => scan_exp (acc ++ c :: ds) r
      end
    else scan_exp acc p
  | [] => Some (acc, p)
  end.

(** A JSON number at the head of [p]: its literal and the rest. *)
Definition scan_number (p : list ascii) : option (list ascii * list ascii) :=
  let '(sign, p1) :=
    match p with
    | c :: p' => if Ascii.eqb c "-" then ([c], p') else ([], p)
    | [] => ([], p)
    end in
  match p1 with
  | c :: p2 =>
    if Ascii.eqb c "0" then scan_frac (sign ++ [c]) p2
    else if is_digit c then
      let '(ds, r) := span_digits p2 in scan_frac (sign ++ c :: ds) r
    else None
  | [] => None
  end.

Definition hex_value (c : ascii) : option Z :=
  let x := byte_val c in
  if between 48 57 x then Some (x - 48)
  else if between 97 102 x then Some (x - 87)
  else if between 65 70 x then Some (x - 55)
  else None.

(** [getu4]: the value of a [\uXXXX] escape at the head of [p], if there
    is one; [-1] in Go is [None] here. *)
Definition getu4 (p : list ascii) : option Z :=
  match p with
  | b :: u :: h1 :: h2 :: h3 :: h4 :: _ =>
    if Ascii.eqb b backslash && Ascii.eqb u "u" then
      match hex_value h1, hex_value h2, hex_value h3, hex_value h4 with
      | Some d1, Some d2, Some d3, Some d4 =>
        Some (((d1 * 16 + d2) * 16 + d3) * 16 + d4)
      | _, _, _, _ => None
      end
    else None
  | _ => None
  end.

Inductive unquote_result : Type :=
  | Closed (rest : list ascii)
  | Emit (out : list ascii) (rest : list ascii)
  | Bad.

(** One turn of the decoder's loop inside a string literal. *)
Definition unquote_step (p : list ascii) : unquote_result :=
  match p with
  | [] => Bad
  | c :: p1 =>
    let x := byte_val c in
    if x =? 34 then Closed p1
    else if x =? 92 then
      match p1 with
      | e :: p2 =>
        let y := byte_val e in
        if (y =? 34) || (y =? 92) || (y =? 47) then Emit [e] p2
        else if y =? 98 then Emit [byte_of 8] p2
        else if y =? 102 then Emit [byte_of 12] p2
        else if y =? 110 then Emit [byte_of 10] p2
        else if y =? 114 then Emit [byte_of 13] p2
        else if y =? 116 then Emit [byte_of 9] p2
        else if y =? 117 then
          match getu4 p with
          | Some rr =>
            let p3 := drop 6 p in
            if utf16.IsSurrogate rr then
              match getu4 p3 with
              | Some rr1 =>
                let dec := utf16.DecodeRune rr rr1 in
                if negb (dec =? utf8.RuneError)
                then Emit (EncodeRune dec) (drop 6 p3)
                else Emit (EncodeRune utf8.RuneError) p3
              | None => Emit (EncodeRune utf8.RuneError) p3
              end
            else Emit (EncodeRune rr) p3
          | None => Bad
          end
        else Bad
      | [] => Bad
      end
    else if x <? 0x20 then Bad
    else if x <? utf8.RuneSelf then Emit [c] p1
    else
      let '(rr, size) := utf8.DecodeRune p in
      Emit (EncodeRune rr) (drop size p)
  end.

(** The string literal whose opening quote has been read: the decoded
    bytes and the input after the closing quote. *)
Fixpoint unquote_go (fuel : nat) (p : list ascii) : option (list ascii * list ascii) :=
  match fuel with
  | O => None
  | S fuel =>
    match unquote_step p with
    | Closed rest => Some ([], rest)
    | Emit out p' =>
      match unquote_go fuel p' with
      | Some (s, rest) => Some (out ++ s, rest)
      | None => None
      end
    | Bad => None
    end
  end.

Definition unquote (p : list ascii) : option (string * list ascii) :=
  match unquote_go (S (length p)) p with
  | Some (s, rest) => Some (string_of_bytes s, rest)
  | None => None
  end.

(** [strip_prefix w p]: [p] without its prefix [w], if it starts with [w]. *)
Fixpoint strip_prefix (w p : list ascii) : option (list ascii) :=
  match w with
  | [] => Some p
  | c :: w' =>
    match p with
    | d :: p' => if Ascii.eqb c d then strip_prefix w' p' else None
    | [] => None
    end
  end.

Definition expect (word : string) (p : list ascii) : option (list ascii) :=
  strip_prefix (lit word) p.

(** A JSON value at the head of [p] (after optional white space), and the
    input that follows it. *)
Fixpoint parse_value (fuel : nat) (p : list ascii) : option (value * list ascii) :=
  match fuel with
  | O => None
  | S fuel =>
    match skip_space p with
    | [] => None
    | c :: p1 =>
      let x := byte_val c in
      if x =? 123 then                                   (* { *)
        match skip_space p1 with
        | c2 :: p2 =>
          if byte_val c2 =? 125 then Some (JObject [], p2)
          else
            match parse_members fuel p1 with
            | Some (ms, r) => Some (JObject ms, r)
            | None => None
            end
        | [] => None
        end
      else if x =? 91 then                               (* [ *)
        match skip_space p1 with
        | c2 :: p2 =>
          if byte_val c2 =? 93 then Some (JArray [], p2)
          else
            match parse_elements fuel p1 with
            | Some (vs, r) => Some (JArray vs, r)
            | None => None
            end
        | [] => None
        end
      else if x =? 34 then
        match unquote p1 with
        | Some (s, r) => Some (JString s, r)
        | None => None
        end
      else if x =? 116 then
        match expect "true" (c :: p1) with
        | Some r => Some (JBool true, r) | None => None end
      else if x =? 102 then
        match expect "false" (c :: p1) with
        | Some r => Some (JBool false, r) | None => None end
      else if x =? 110 then
        match expect "null" (c :: p1) with
        | Some r => Some (JNull, r) | None => None end
      else
        match scan_number (c :: p1) with
        | Some (n, r) => Some (JNumber n, r)
        | None => None
        end
    end
  end
with parse_members (fuel : nat) (p : list ascii)
    : option (list (string * value) * list ascii) :=
  match fuel with
  | O => None
  | S fuel =>
    match skip_space p with
    | c :: p1 =>
      if byte_val c =? 34 then
        match unquote p1 with
        | Some (k, p2) =>
          match skip_space p2 with
          | c3 :: p3 =>
            if byte_val c3 =? 58 then                    (* : *)
              match parse_value fuel p3 with
              | Some (v, p4) =>
                match skip_space p4 with
                | c5 :: p5 =>
                  if byte_val c5 =? 44 then              (* , *)
                    match parse_members fuel p5 with
                    | Some (ms, r) => Some ((k, v) :: ms, r)
                    | None => None
                    end
                  else if byte_val c5 =? 125 then Some ([(k, v)], p5)
                  else None
                | [] => None
                end
              | None => None
              end
            else None
          | [] => None
          end
        | None => None
        end
      else None
    | [] => None
    end
  end
with parse_elements (fuel : nat) (p : list ascii)
    : option (list value * list ascii) :=
  match fuel with
  | O => None
  | S fuel =>
    match parse_value fuel p with
    | Some (v, p1) =>
      match skip_space p1 with
      | c2 :: p2 =>
        if byte_val c2 =? 44 then
          match parse_elements fuel p2 with
          | Some (vs, r) => Some (v :: vs, r)
          | None => None
          end
        else if byte_val c2 =? 93 then Some ([v], p2)
        else None
      | [] => None
      end
    | None => None
    end
  end.

(** A whole document: one value, then white space only. *)
Definition parse (data : list ascii) : option value :=
  match parse_value (S (length data)) data with
  | Some (v, rest) =>
    match skip_space rest with
    | [] => Some v
    | _ :: _ => None
    end
  | None => None
  end.

(** Storing a decoded value into a Go variable of the given type; [None]
    is an [UnmarshalTypeError].  [null] leaves strings and integers as
    they are and makes a map nil. *)
Definition store_string (v : value) (old : string) : option string :=
  match v with
  | JString s => Some s
  | JNull => Some old
  | _ => None
  end.

Definition store_int64 (v : value) (old : Z) : option Z :=
  match v with
  | JNumber n => strconv.ParseInt n
  | JNull => Some old
  | _ => None
  end.

Definition store_entry (acc : option (gmap string string)) (kv : string * value)
    : option (gmap string string) :=
  match acc with
  | Some m =>
    match store_string kv.2 "" with
    | Some s => Some (<[kv.1 := s]> m)
    | None => None
    end
  | None => None
  end.

(** An object is merged into the map already there (a fresh one if nil). *)
Definition store_map (v : value) (old : option (gmap string string))
    : option (option (gmap string string)) :=
  match v with
  | JObject ms =>
    match fold_left store_entry ms (Some (default ∅ old)) with
    | Some m => Some (Some m)
    | None => None
    end
  | JNull => Some None
  | _ => None
  end.

Inductive field : Type := FID | FName | FSizeBytes | FParameters.

(** The decoder matches a member key against a field name exactly, or else
    with the folding function [foldFunc] picks for the name.  For a name of
    ASCII letters without [K] or [S] that is [asciiEqualFold]: equal length
    and equal bytes up to the case bit.  For a name with [K] or [S] it is
    [equalFoldRight], which also takes U+212A (the Kelvin sign) for [k] and
    U+017F (the long s) for [s].  (From Go 1.21 on the decoder folds both
    names rune by rune instead, with the same result for these names.) *)
Definition caseMask (x : Z) : Z := Z.land x 0xDF.

Fixpoint asciiEqualFold (s t : list ascii) : bool :=
  match s, t with
  | [], [] => true
  | sb :: s', tb :: t' =>
    (caseMask (byte_val sb) =? caseMask (byte_val tb)) && asciiEqualFold s' t'
  | _, _ => false
  end.

Definition kelvin : Z := 0x212A.
Definition smallLongEss : Z := 0x17F.

Fixpoint equalFoldRight (s t : list ascii) : bool :=
  match s with
  | [] => match t with [] => true | _ :: _ => false end
  | sb :: s' =>
    match t with
    | [] => false
    | tb :: t' =>
      if byte_val tb <? utf8.RuneSelf then
        (Ascii.eqb sb tb
         || (between 65 90 (caseMask (byte_val sb))
             && (caseMask (byte_val sb) =? caseMask (byte_val tb))))
        && equalFoldRight s' t'
      else
        (* sb is ASCII and t is not: t must be the Kelvin sign or the long
           s, and sb must be s, S, k or K *)
        let '(tr, size) := utf8.DecodeRune t in
        (if Ascii.eqb sb "s" || Ascii.eqb sb "S" then tr =? smallLongEss
         else if Ascii.eqb sb "k" || Ascii.eqb sb "K" then tr =? kelvin
         else false)
        && equalFoldRight s' (drop size t)
    end
  end.

Definition special_letter (c : ascii) : bool :=
  (caseMask (byte_val c) =? 75) || (caseMask (byte_val c) =? 83).

(** [foldFunc], for a name of ASCII letters. *)
Definition foldFunc (name : list ascii) : list ascii -> list ascii -> bool :=
  if existsb special_letter name then equalFoldRight else asciiEqualFold.

Definition equalFold (name key : string) : bool :=
  foldFunc (bytes_of_string name) (bytes_of_string name) (bytes_of_string key).

Definition fields : list (string * field) :=
  [("ID", FID); ("Name", FName); ("SizeBytes", FSizeBytes);
   ("Parameters", FParameters)].

(** The field a member key denotes: an exact match is preferred, else the
    first field whose name the key equals up to folding. *)
Definition find_field (k : string) : option field :=
  match List.find (fun f => String.eqb f.1 k) fields with
  | Some f => Some f.2
  | None =>
    match List.find (fun f => equalFold f.1 k) fields with
    | Some f => Some f.2
    | None => None
    end
  end.

Definition store_member (acc : option volume.Info) (kv : string * value)
    : option volume.Info :=
  match acc with
  | Some vol =>
    match find_field kv.1 with
    | Some FID =>
      match store_string kv.2 (volume.ID vol) with
      | Some s => Some (volume.set_ID s vol) | None => None end
    | Some FName =>
      match store_string kv.2 (volume.Name vol) with
      | Some s => Some (volume.set_Name s vol) | None => None end
    | Some FSizeBytes =>
      match store_int64 kv.2 (volume.SizeBytes vol) with
      | Some z => Some (volume.set_SizeBytes z vol) | None => None end
    | Some FParameters =>
      match store_map kv.2 (volume.Parameters vol) with
      | Some m => Some (volume.set_Parameters m vol) | None => None end
    | None => Some vol                       (* unknown members are skipped *)
    end
  | None => None
  end.

(** The value that the text [Marshal_map m] denotes. *)
Definition value_of_map (m : option (gmap string string)) : value :=
  match m with
  | None => JNull
  | Some m => JObject (map (fun kv => (kv.1, JString kv.2)) (sorted_entries m))
  end.

(** [json.Unmarshal(data, vol)]: the updated record, or [None] for an
    error (a syntax error or a value of the wrong type). *)
Definition Unmarshal (data : list ascii) (vol : volume.Info) : option volume.Info :=
  match parse data with
  | Some (JObject ms) => fold_left store_member ms (Some vol)
  | Some JNull => Some vol
  | Some _ => None
  | None => None
  end.

End json.

(** ** The client and the LINSTOR controller

    A method that talks to the controller is a computation over the
    controller's answers that records the calls it issues; it either returns
    or stops with a run-time panic (a nil pointer dereference). *)

Inductive call : Type :=
  | CallListResourceDefinitions (deployment : string).

(** What the controller answers: the resource definitions it holds, or an
    error. *)
Record Controller : Type := mkController {
  resourceDefinitions : list lc.ResDef * option error
}.

Inductive outcome (A : Type) : Type :=
  | Returned (a : A)
  | Panicked.
Arguments Returned {A} a.
Arguments Panicked {A}.

Definition Client (A : Type) : Type :=
  Controller -> list call -> outcome A * list call.

Definition ret {A : Type} (a : A) : Client A :=
  fun _ log => (Returned a, log).

Definition bind {A B : Type} (m : Client A) (k : A -> Client B) : Client B :=
  fun ctl log =>
    match m ctl log with
    | (Returned a, log') => k a ctl log'
    | (Panicked, log') => (Panicked, log')
    end.

Definition of_outcome {A : Type} (o : outcome A) : Client A :=
  fun _ log => (o, log).

Notation "x <- m ;; k" := (bind m (fun x => k))
  (at level 100, m at next level, right associativity).

(** [lc.NewResourceDeployment(cfg).ListResourceDefinitions()]. *)
Definition ListResourceDefinitions (deployment : string)
    : Client (list lc.ResDef * option error) :=
  fun ctl log =>
    (Returned (resourceDefinitions ctl),
     log ++ [CallListResourceDefinitions deployment]).

(** Running a method against a controller, from an empty record of calls. *)
Definition run {A : Type} (m : Client A) (ctl : Controller) : outcome A * list call :=
  m ctl [].

(** [ListAll]: the Go result pair of a slice of volumes and an error; a nil
    slice is [None]. *)
Definition ListAll (s : Linstor) (parameters : option (gmap string string))
    : Client (option (list volume.Info) * option error) :=
  ret (None, None).

(** ** Recovering a volume from a resource definition *)

(** The loop of [resDefToVolume] over the properties. *)
Fixpoint resDefToVolume_props (s : Linstor) (props : list lc.RscDfnProp)
    : option volume.Info * option error :=
  match props with
  | [] => (None, None)
  | p :: props' =>
    if String.eqb (lc.Key p) ("Aux/" +:+ annotationsKey s) then
      let vol := volume.mkInfo "" "" 0 (Some ∅) in
      match json.Unmarshal (bytes_of_string (lc.Value p)) vol with
      | None => (None, Some ErrUnmarshalAnnotations)
      | Some vol =>
        if String.eqb (volume.Name vol) "" then (None, Some ErrNoResourceName)
        else (Some vol, None)
      end
    else resDefToVolume_props s props'
  end.

Definition resDefToVolume (s : Linstor) (resDef : lc.ResDef)
    : option volume.Info * option error :=
  resDefToVolume_props s (lc.RscDfnProps resDef).

(** ** Translating a volume into a deployment configuration *)

(** The body of the loop over [vol.Parameters]: one key and value, applied
    to the configuration built so far; an error ends the translation. *)
Definition applyParameter (k v : string) (cfg : lc.ResourceDeploymentConfig)
    : lc.ResourceDeploymentConfig * option error :=
  let key := strings.ToLower k in
  if String.eqb key NodeListKey then
    (lc.set_NodeList (strings.Split_space v) cfg, None)
  else if String.eqb key LayerListKey then
    (lc.set_LayerList (strings.Split_space v) cfg, None)
  else if String.eqb key ReplicasOnSameKey then
    (lc.set_ReplicasOnSame (strings.Split_space v) cfg, None)
  else if String.eqb key ReplicasOnDifferentKey then
    (lc.set_ReplicasOnDifferent (strings.Split_space v) cfg, None)
  else if String.eqb key StoragePoolKey then
    (lc.set_StoragePool v cfg, None)
  else if String.eqb key DisklessStoragePoolKey then
    (lc.set_DisklessStoragePool v cfg, None)
  else if String.eqb key AutoPlaceKey then
    let v := if String.eqb v "" then "0" else v in
    match strconv.ParseUint v with
    | None => (cfg, Some (ErrParseInteger v))
    | Some autoplace => (lc.set_AutoPlace autoplace cfg, None)
    end
  else if String.eqb key DoNotPlaceWithRegexKey then
    (lc.set_DoNotPlaceWithRegex v cfg, None)
  else if String.eqb key EncryptionKey then
    if String.eqb (strings.ToLower v) "true"
    then (lc.set_Encryption true cfg, None)
    else (cfg, None)
  else (cfg, None).

Fixpoint applyParameters (kvs : list (string * string))
    (cfg : lc.ResourceDeploymentConfig)
    : lc.ResourceDeploymentConfig * option error :=
  match kvs with
  | [] => (cfg, None)
  | (k, v) :: kvs' =>
    match applyParameter k v cfg with
    | (cfg', None) => applyParameters kvs' cfg'
    | (cfg', Some err) => (cfg', Some err)
    end
  end.

(** Go leaves the order in which [range] visits a map open.  [ranges m kvs]:
    [kvs] is one order in which the entries of [m] can be visited (none for
    a nil map). *)
Definition ranges (m : option (gmap string string)) (kvs : list (string * string))
    : Prop :=
  kvs ≡ₚ map_to_list (default ∅ m).

(** [uint64(x)] for an int64 [x]. *)
Definition uint64_of_int64 (x : Z) : Z := x mod 2 ^ 64.

(** [resDeploymentConfigFromVolumeInfo]: the Go result pair of a pointer to
    the configuration and an error.  [kvs] is the order in which the loop
    visits [vol.Parameters]. *)
Definition resDeploymentConfigFromVolumeInfo (s : Linstor) (vol : volume.Info)
    (kvs : list (string * string))
    : option lc.ResourceDeploymentConfig * option error :=
  let cfg := lc.zeroConfig in
  let cfg := lc.set_Controllers (Controllers (config s)) cfg in
  (* At this time vol.ID has to be a valid LINSTOR Name *)
  let cfg := lc.set_Name (volume.ID vol) cfg in
  let cfg :=
    lc.set_SizeKiB (uint64_of_int64 (Z.quot (volume.SizeBytes vol) 1024 + 1)) cfg in
  match applyParameters kvs cfg with
  | (_, Some err) => (None, Some err)
  | (cfg, None) =>
    match json.Marshal vol with
    | (_, Some err) => (None, Some err)
    | (serializedVol, None) =>
      let annotations : gmap string string :=
        <[annotationsKey s := string_of_bytes serializedVol]> ∅ in
      (Some (lc.set_Annotations (Some annotations) cfg), None)
    end
  end.

(** ** Lookups *)

(** The loop of [GetByName] over the listed resource definitions. *)
Fixpoint GetByName_scan (s : Linstor) (name : string) (list : list lc.ResDef)
    : option volume.Info * option error :=
  match list with
  | [] => (None, None)
  | rd :: list' =>
    match resDefToVolume s rd with
    | (_, Some err) => (None, Some err)
    | (None, None) => GetByName_scan s name list'   (* a resource we didn't create *)
    | (Some vol, None) =>
      if String.eqb (volume.Name vol) name then (Some vol, None)
      else if String.eqb (volume.Name vol) (fallbackPrefix s +:+ name)
      then (Some vol, None)
      else GetByName_scan s name list'
    end
  end.

Definition GetByName (s : Linstor) (name : string)
    : Client (option volume.Info * option error) :=
  r <- ListResourceDefinitions "CSIGetByName" ;;
  match r with
  | (_, Some err) => ret (None, Some err)
  | (list, None) => ret (GetByName_scan s name list)
  end.

(** The loop of [GetByID]; [vol.ID] on a nil [vol] panics. *)
Fixpoint GetByID_scan (s : Linstor) (ID : string) (list : list lc.ResDef)
    : outcome (option volume.Info * option error) :=
  match list with
  | [] => Returned (None, None)
  | rd :: list' =>
    match resDefToVolume s rd with
    | (_, Some err) => Returned (None, Some err)
    | (vol, None) =>
      if String.eqb (lc.RscName rd) ID then Returned (vol, None)
      else
        match vol with
        | None => Panicked
        | Some v =>
          if String.eqb (volume.ID v) ID then Returned (vol, None)
          else GetByID_scan s ID list'
        end
    end
  end.

Definition GetByID (s : Linstor) (ID : string)
    : Client (option volume.Info * option error) :=
  r <- ListResourceDefinitions "CSIGetByID" ;;
  match r with
  | (_, Some err) => ret (None, Some err)
  | (list, None) => of_outcome (GetByID_scan s ID list)
  end.

(** ** Notions the statements below use *)

(** The rounded allocation of the capacity planner, in KiB, as the spec
    words it: the request raised to the 4096-byte minimum, then rounded up
    to whole KiB. *)
Definition rounded_allocation_KiB (requiredBytes : Z) : Z :=
  let requested := Z.max requiredBytes 4096 in
  (requested + 1023) / 1024.

(** The ceiling of [n / 1024]. *)
Definition ceil_KiB (n : Z) : Z := - ((- n) / 1024).

(** [name_matches s name vol]: the decoded name is the query, or the query
    behind the fallback prefix. *)
Definition name_matches (s : Linstor) (name : string) (vol : volume.Info) : bool :=
  String.eqb (volume.Name vol) name
  || String.eqb (volume.Name vol) (fallbackPrefix s +:+ name).

(** The key under which the properties of a resource definition carry the
    annotation. *)
Definition auxKey (s : Linstor) : string := "Aux/" +:+ annotationsKey s.

(** [foreign s rd]: no property of [rd] has the annotation key. *)
Definition foreign (s : Linstor) (rd : lc.ResDef) : Prop :=
  Forall (fun p => lc.Key p <> auxKey s) (lc.RscDfnProps rd).

(** [annotated s rd value]: the first property of [rd] with the annotation
    key holds [value]. *)
Definition annotated (s : Linstor) (rd : lc.ResDef) (value : string) : Prop :=
  exists pre post,
    lc.RscDfnProps rd = pre ++ lc.mkProp (auxKey s) value :: post
    /\ Forall (fun p => lc.Key p <> auxKey s) pre.

(** [passed_by_name s name rd]: the loop of [GetByName] goes past [rd]: it
    decodes without an error, to nil or to a volume that does not match. *)
Definition passed_by_name (s : Linstor) (name : string) (rd : lc.ResDef) : Prop :=
  resDefToVolume s rd = (None, None)
  \/ exists v, resDefToVolume s rd = (Some v, None) /\ name_matches s name v = false.

(** [passed_by_ID s ID rd]: the loop of [GetByID] goes past [rd]: neither
    its resource name nor the ID of the volume it decodes to is [ID]. *)
Definition passed_by_ID (s : Linstor) (ID : string) (rd : lc.ResDef) : Prop :=
  lc.RscName rd <> ID
  /\ exists v, resDefToVolume s rd = (Some v, None) /\ volume.ID v <> ID.

(** A volume named ["csi-myname"], and the resource definition that stores
    it: under the resource name ["csi-myname"], with the annotation the
    translation writes, next to a property of the controller's own. *)
Definition vol_csi_myname : volume.Info :=
  volume.mkInfo "csi-myname" "csi-myname" 1048576 (Some {[ "autoplace" := "2" ]}).

Definition rd_csi_myname : lc.ResDef :=
  lc.mkResDef "csi-myname"
    [lc.mkProp "DrbdPrimarySetOn" "NODE-A";
     lc.mkProp "Aux/csi-volume-annotations"
       (string_of_bytes (json.Marshal vol_csi_myname).1)].

(** A resource definition that carries no annotation. *)
Definition rd_foreign : lc.ResDef :=
  lc.mkResDef "backups" [lc.mkProp "DrbdPrimarySetOn" "NODE-A"].

(** [int64 z]: [z] is a value of Go's [int64]. *)
Definition int64 (z : Z) : Prop := - 2 ^ 63 <= z < 2 ^ 63.

Definition valid_entry (kv : string * string) : Prop :=
  utf8.ValidString kv.1 = true /\ utf8.ValidString kv.2 = true.

(** [utf8_text vol]: the strings of [vol] are well-formed UTF-8.  (The JSON
    encoder writes U+FFFD for every byte that is not.) *)
Definition utf8_text (vol : volume.Info) : Prop :=
  utf8.ValidString (volume.ID vol) = true
  /\ utf8.ValidString (volume.Name vol) = true
  /\ Forall valid_entry (map_to_list (default ∅ (volume.Parameters vol))).

(** The annotation entry of a configuration, under the client's key. *)
Definition annotation (s : Linstor) (cfg : lc.ResourceDeploymentConfig)
    : option string :=
  match lc.Annotations cfg with
  | Some annotations => annotations !! annotationsKey s
  | None => None
  end.

(** The client the examples run. *)
Definition client : Linstor := NewLinstor (mkLinstorConfig false "").

(** A volume of exactly 2 KiB. *)
Definition vol_2KiB : volume.Info := volume.mkInfo "pvc-2" "scratch" 2048 None.

(** A volume without a name, and the resource definition that stores it. *)
Definition vol_nameless : volume.Info := volume.mkInfo "pvc-1" "" 1024 None.

Definition rd_nameless : lc.ResDef :=
  lc.mkResDef "pvc-1"
    [lc.mkProp "Aux/csi-volume-annotations"
       (string_of_bytes (json.Marshal vol_nameless).1)].

(** A volume whose name is the single byte 0xFF, which is not UTF-8. *)
Definition vol_latin1 : volume.Info :=
  volume.mkInfo "pvc-3" (String (byte_of 255) EmptyString) 1024 None.

(** A volume whose [autoplace] parameter is not a number. *)
Definition vol_autoplace_many : volume.Info :=
  volume.mkInfo "pvc-4" "data" 1024 (Some {[ "AutoPlace" := "many" ]}).

(** ** Legal names *)

(** [ascii_bytes p]: every byte of [p] is below [utf8.RuneSelf]. *)
Definition ascii_bytes (p : list ascii) : Prop :=
  Forall (fun c => byte_val c < utf8.RuneSelf) p.

(** [legal_name s]: [s] is not [all]; it has 2 to 48 bytes, the first a
    letter or an underscore, the others letters, digits, hyphens or
    underscores; and one of them is a letter. *)
Definition legal_name (s : string) : Prop :=
  s <> "all"
  /\ exists c rest,
       bytes_of_string s = c :: rest
       /\ regexp.name_start (byte_val c) = true
       /\ Forall (fun b => regexp.name_char (byte_val b) = true) rest
       /\ (1 <= length rest <= 47)%nat
       /\ Exists (fun b => regexp.alpha (byte_val b) = true) (c :: rest).

(** ** Scalar values and the case table *)

(** [scalar r]: [r] is a Unicode scalar value, a code point that is no
    surrogate. *)
Definition scalar (r : Z) : Prop := 0 <= r < 0xD800 \/ 0xDFFF < r <= 0x10FFFF.

Definition is_scalar (r : Z) : bool :=
  ((0 <=? r) && (r <? 0xD800)) || ((0xDFFF <? r) && (r <=? 0x10FFFF)).

(** The runes an entry of the case table maps, and those of a table. *)
Definition expand_range (e : Z * Z * Z * Z) : list Z :=
  let '(lo, hi, stride, _) := e in
  map (fun k => lo + Z.of_nat k * stride) (seq 0 (S (Z.to_nat ((hi - lo) / stride)))).

Definition cased (ranges : list (Z * Z * Z * Z)) : list Z :=
  flat_map expand_range ranges.

(** ** The remaining methods of the client *)

(** [strings.Join(elems, sep)]. *)
Fixpoint Join (elems : list string) (sep : string) : string :=
  match elems with
  | [] => ""
  | [a] => a
  | a :: rest => a +:+ sep +:+ Join rest sep
  end.

(** [m[k]] on a Go map that may be nil: the value, or the empty string. *)
Definition index (m : option (gmap string string)) (k : string) : string :=
  default "" (default ∅ m !! k).

(** [v, ok := m[k]]. *)
Definition index_ok (m : option (gmap string string)) (k : string) : string * bool :=
  match default ∅ m !! k with
  | Some v => (v, true)
  | None => ("", false)
  end.

Definition set_ClientList (x : list string) (c : lc.ResourceDeploymentConfig)
    : lc.ResourceDeploymentConfig :=
  lc.mkConfig (lc.Name c) (lc.NodeList c) (lc.LayerList c) x (lc.ReplicasOnSame c)
    (lc.ReplicasOnDifferent c) (lc.AutoPlace c) (lc.DoNotPlaceWithRegex c)
    (lc.SizeKiB c) (lc.StoragePool c) (lc.DisklessStoragePool c) (lc.Encryption c)
    (lc.Controllers c) (lc.Annotations c).

(** [lc.FSUtil]: a resource deployment (given by the configuration it is
    built from) with the file system settings. *)
Record FSUtil : Type := mkFSUtil {
  ResourceDeployment : lc.ResourceDeploymentConfig;
  FSType : string;
  MountOpts : string;
  FSOpts : string
}.

(** Modelled from the spec: [volume.Assignment] (package pkg/volume) is
    declared outside the sources; the spec (3, "Assignment") describes it as
    the binding of a volume to a node with the device path the backend
    reports, and [GetAssignmentOnNode] sets the three fields below. *)
Record Assignment : Type := mkAssignment {
  Vol : volume.Info;
  Node : string;
  Path : string
}.

(** What the client asks of a resource deployment or of the file system
    helper.  A deployment is named by the configuration that
    [lc.NewResourceDeployment] is given. *)
Inductive request : Type :=
  | CreateAndAssign (cfg : lc.ResourceDeploymentConfig)
  | DeleteDeployment (cfg : lc.ResourceDeploymentConfig)
  | Assign (cfg : lc.ResourceDeploymentConfig)
  | Unassign (cfg : lc.ResourceDeploymentConfig) (node : string)
  | GetDevPath (cfg : lc.ResourceDeploymentConfig) (node : string) (diskful : bool)
  | SafeFormat (mounter : FSUtil) (source : string)
  | MountFS (mounter : FSUtil) (source target : string)
  | UnMountFS (mounter : FSUtil) (target : string).

(** The answers of the backend: the error (or nil) of a request, and the
    device path of a [GetDevPath]; both may depend on the requests made so
    far. *)
Record Backend : Type := mkBackend {
  respond : list request -> request -> option error;
  devicePath : list request -> request -> string * option error
}.

(** A method that issues requests: it reads the backend's answers, appends
    to the record of requests, and returns or panics. *)
Definition Op (A : Type) : Type :=
  Backend -> list request -> outcome A * list request.

Definition op_ret {A : Type} (a : A) : Op A :=
  fun _ log => (Returned a, log).

Definition op_panic {A : Type} : Op A :=
  fun _ log => (Panicked, log).

Definition op_bind {A B : Type} (m : Op A) (k : A -> Op B) : Op B :=
  fun b log =>
    match m b log with
    | (Returned a, log') => k a b log'
    | (Panicked, log') => (Panicked, log')
    end.

(** Issuing one request. *)
Definition perform (rq : request) : Op (option error) :=
  fun b log => (Returned (respond b log rq), log ++ [rq]).

Definition performGetDevPath (cfg : lc.ResourceDeploymentConfig) (node : string)
    (diskful : bool) : Op (string * option error) :=
  fun b log =>
    (Returned (devicePath b log (GetDevPath cfg node diskful)),
     log ++ [GetDevPath cfg node diskful]).

Definition run_op {A : Type} (m : Op A) (b : Backend) : outcome A * list request :=
  m b [].

(** [resDeploymentFromVolumeInfo]: the deployment built from the translated
    configuration. *)
Definition resDeploymentFromVolumeInfo (s : Linstor) (vol : volume.Info)
    (kvs : list (string * string))
    : option lc.ResourceDeploymentConfig * option error :=
  match resDeploymentConfigFromVolumeInfo s vol kvs with
  | (_, Some err) => (None, Some err)
  | (Some cfg, None) => (Some cfg, None)
  | (None, None) => (None, None)
  end.

(** A method call on the deployment pointer [r]; a nil [r] panics. *)
Definition on_deployment {A : Type} (r : option lc.ResourceDeploymentConfig)
    (k : lc.ResourceDeploymentConfig -> Op A) : Op A :=
  match r with
  | Some cfg => k cfg
  | None => op_panic
  end.

Definition Create (s : Linstor) (vol : volume.Info) (kvs : list (string * string))
    : Op (option error) :=
  match resDeploymentFromVolumeInfo s vol kvs with
  | (_, Some err) => op_ret (Some err)
  | (r, None) => on_deployment r (fun cfg => perform (CreateAndAssign cfg))
  end.

Definition Delete (s : Linstor) (vol : volume.Info) (kvs : list (string * string))
    : Op (option error) :=
  match resDeploymentFromVolumeInfo s vol kvs with
  | (_, Some err) => op_ret (Some err)
  | (r, None) => on_deployment r (fun cfg => perform (DeleteDeployment cfg))
  end.

(** [Attach]: a copy of the configuration that only makes a new diskless
    assignment. *)
Definition Attach (s : Linstor) (vol : volume.Info) (kvs : list (string * string))
    (node : string) : Op (option error) :=
  match resDeploymentConfigFromVolumeInfo s vol kvs with
  | (_, Some err) => op_ret (Some err)
  | (cfg, None) =>
    on_deployment cfg (fun cfg =>
      let cfg := lc.set_NodeList [] cfg in
      let cfg := lc.set_AutoPlace 0 cfg in
      let cfg := set_ClientList [node] cfg in
      perform (Assign cfg))
  end.

Definition Detach (s : Linstor) (vol : volume.Info) (kvs : list (string * string))
    (node : string) : Op (option error) :=
  match resDeploymentFromVolumeInfo s vol kvs with
  | (_, Some err) => op_ret (Some err)
  | (r, None) => on_deployment r (fun cfg => perform (Unassign cfg node))
  end.

(** [CanonicalizeVolumeName]; [newUUID] is what [uuid.New()] returns when it
    is called. *)
Definition CanonicalizeVolumeName (s : Linstor) (suggestedName newUUID : string)
    : Client string :=
  match linstorifyResourceName suggestedName with
  | (_, Some _) => ret (fallbackPrefix s +:+ newUUID)
  | (name, None) =>
    (* We already handled the idempotency/existing case.  This is to make
       sure that nobody else created a resource with that name. *)
    r <- GetByID s name ;;
    match r with
    | (None, None) => ret name
    | (_, _) => ret (fallbackPrefix s +:+ newUUID)
    end
  end.

(** [NodeAvailable]: the Go result pair [(bool, error)]. *)
Definition NodeAvailable (s : Linstor) (node : string) : bool * option error :=
  (* Hard coding magic string to pass csi-test. *)
  if String.eqb node "some-fake-node-id" then (false, None)
  else (true, None).

Definition GetAssignmentOnNode (s : Linstor) (vol : volume.Info)
    (kvs : list (string * string)) (node : string)
    : Op (option Assignment * option error) :=
  match resDeploymentFromVolumeInfo s vol kvs with
  | (_, Some err) => op_ret (None, Some err)
  | (r, None) =>
    on_deployment r (fun cfg =>
      op_bind (performGetDevPath cfg node false) (fun reply =>
        match reply with
        | (_, Some err) => op_ret (None, Some err)
        | (devPath, None) => op_ret (Some (mkAssignment vol node devPath), None)
        end))
  end.

Definition Mount (s : Linstor) (vol : volume.Info) (kvs : list (string * string))
    (source target fsType : string) (options : list string) : Op (option error) :=
  match resDeploymentFromVolumeInfo s vol kvs with
  | (_, Some err) => op_ret (Some err)
  | (r, None) =>
    (* Merge mount options from Storage Classes and CSI calls. *)
    let options := options ++ [index (volume.Parameters vol) MountOptsKey] in
    let mntOpts := Join options "," in
    (* If an FSType is supplied by the parameters, override the one passed
       to the Mount call. *)
    let '(parameterFsType, ok) := index_ok (volume.Parameters vol) FSKey in
    let fsType := if ok then parameterFsType else fsType in
    on_deployment r (fun cfg =>
      let mounter :=
        mkFSUtil cfg fsType mntOpts (index (volume.Parameters vol) FSOptsKey) in
      op_bind (perform (SafeFormat mounter source)) (fun err =>
        match err with
        | Some err => op_ret (Some err)
        | None => perform (MountFS mounter source target)
        end))
  end.

Definition Unmount (s : Linstor) (target : string) : Op (option error) :=
  let r := lc.set_Name "CSI Unmount" lc.zeroConfig in
  let mounter := mkFSUtil r "" "" "" in
  perform (UnMountFS mounter target).

(** The text form of a UUID, as [uuid.New()] returns it: lower-case
    hexadecimal digits in groups of 8, 4, 4, 4 and 12, with hyphens between. *)
Definition is_hex_lower (c : ascii) : bool :=
  between 48 57 (byte_val c) || between 97 102 (byte_val c).

Fixpoint fits_template (template p : list ascii) : bool :=
  match template, p with
  | [], [] => true
  | t :: template', c :: p' =>
    (if Ascii.eqb t "-" then Ascii.eqb c "-" else is_hex_lower c)
    && fits_template template' p'
  | _, _ => false
  end.

Definition is_uuid (u : string) : bool :=
  fits_template (bytes_of_string "xxxxxxxx-xxxx-xxxx-xxxx-xxxxxxxxxxxx")
    (bytes_of_string u).

(** The parameter a (lower-cased) key denotes for the translation. *)
Inductive parameter : Type :=
  | PNodeList | PLayerList | PReplicasOnSame | PReplicasOnDifferent
  | PStoragePool | PDisklessStoragePool | PAutoPlace | PDoNotPlaceWithRegex
  | PEncryption | PIgnored.

Definition parameter_of (key : string) : parameter :=
  if String.eqb key NodeListKey then PNodeList
  else if String.eqb key LayerListKey then PLayerList
  else if String.eqb key ReplicasOnSameKey then PReplicasOnSame
  else if String.eqb key ReplicasOnDifferentKey then PReplicasOnDifferent
  else if String.eqb key StoragePoolKey then PStoragePool
  else if String.eqb key DisklessStoragePoolKey then PDisklessStoragePool
  else if String.eqb key AutoPlaceKey then PAutoPlace
  else if String.eqb key DoNotPlaceWithRegexKey then PDoNotPlaceWithRegex
  else if String.eqb key EncryptionKey then PEncryption
  else PIgnored.

(** The keys the translation acts on. *)
Definition recognised : list string :=
  [NodeListKey; LayerListKey; ReplicasOnSameKey; ReplicasOnDifferentKey;
   StoragePoolKey; DisklessStoragePoolKey; AutoPlaceKey; DoNotPlaceWithRegexKey;
   EncryptionKey].

(** An [autoplace] entry whose value is neither empty nor an unsigned
    integer. *)
Definition bad_autoplace (kv : string * string) : Prop :=
  strings.ToLower kv.1 = AutoPlaceKey
  /\ kv.2 <> ""
  /\ strconv.ParseUint kv.2 = None.

(** No two keys differ in letter case only. *)
Definition case_distinct (kvs : list (string * string)) : Prop :=
  NoDup (map (fun kv => strings.ToLower kv.1) kvs).

(** What the translation keeps of the loop over the parameters: the
    configuration, or the error. *)
Definition loop_result (r : lc.ResourceDeploymentConfig * option error)
    : option lc.ResourceDeploymentConfig * option error :=
  match r with
  | (cfg, None) => (Some cfg, None)
  | (_, Some err) => (None, Some err)
  end.

(** A volume with two parameters. *)
Definition vol_two_parameters : volume.Info :=
  volume.mkInfo "pvc-5" "db" 4096
    (Some {[ "NodeList" := "node-a node-b"; "storagepool" := "ssd" ]}).

(** Examples the statements below are run on. *)

(** A name of 49 letters. *)
Definition name_49 : string :=
  "aaaaaaaaaaaaaaaaaaaaaaaaaaaaaaaaaaaaaaaaaaaaaaaaa".

Definition uuid_example : string := "123e4567-e89b-12d3-a456-426614174000".

Definition listing_volume : Controller :=
  mkController ([rd_csi_myname], None).

Definition listing_foreign_first : Controller :=
  mkController ([rd_foreign; rd_csi_myname], None).

Definition listing_nameless_first : Controller :=
  mkController ([rd_nameless; rd_csi_myname], None).

(** A backend that accepts every request, and one whose formatting fails. *)
Definition backend_ok : Backend :=
  mkBackend (fun _ _ => None) (fun _ _ => ("/dev/drbd1000", None)).

Definition backend_unformatted : Backend :=
  mkBackend
    (fun _ rq =>
       match rq with
       | SafeFormat _ _ => Some (ErrController "mkfs failed")
       | _ => None
       end)
    (fun _ _ => ("", Some (ErrController "no such resource"))).

(** A volume of negative size, and one that names its file system. *)
Definition vol_negative : volume.Info := volume.mkInfo "pvc-6" "neg" (-4096) None.

Definition vol_xfs : volume.Info :=
  volume.mkInfo "pvc-7" "fs" 4096 (Some {[ "filesystem" := "xfs" ]}).

(** A volume named ["data"] that is stored under the resource name
    ["csi-myname"]. *)
Definition vol_data : volume.Info := volume.mkInfo "csi-myname" "data" 1048576 None.

Definition rd_data : lc.ResDef :=
  lc.mkResDef "csi-myname"
    [lc.mkProp "Aux/csi-volume-annotations"
       (string_of_bytes (json.Marshal vol_data).1)].

(** The key [NODELIST] written with U+0130, the dotted capital I, and the
    member name [SizeBytes] written with U+017F, the long s. *)
Definition key_dotted_I : string :=
  string_of_bytes (json.lit "NODEL" ++ EncodeRune 0x130 ++ json.lit "ST").

Definition member_long_s : string :=
  string_of_bytes (EncodeRune 0x17F ++ json.lit "izeBytes").

(** The configuration a volume translates to (the zero configuration if it
    does not translate). *)
Definition translated (vol : volume.Info) (kvs : list (string * string))
    : lc.ResourceDeploymentConfig :=
  default lc.zeroConfig (resDeploymentConfigFromVolumeInfo client vol kvs).1.

(** * Properties *)

(** ** Capacity rounding *)

Lemma AllocationSizeKiB_rounds_twice (b : Z) :
  data.NewKibiByte (data.KibiByte_InclusiveBytes (data.NewKibiByte b))
  = data.NewKibiByte b.
Proof.
  unfold data.NewKibiByte, data.KibiByte_InclusiveBytes, data.KiB. simpl.
  f_equal. Z.div_mod_to_equations. lia.
Qed.

Lemma AllocationSizeKiB_unfold (requiredBytes limitBytes : Z) :
  AllocationSizeKiB requiredBytes limitBytes =
  let rounded := rounded_allocation_KiB requiredBytes in
  if (4096 >? limitBytes) && negb (limitBytes =? 0) then
    (0, Some ErrMinimumExceedsLimit)
  else if (rounded * 1024 >? limitBytes) && negb (limitBytes =? 0) then
    (rounded,
     Some (ErrSizeLimited requiredBytes (data.mkKibiByte rounded)
             (data.mkByte limitBytes)))
  else (rounded, None).
Proof.
  unfold AllocationSizeKiB. cbv zeta.
  destruct ((4096 >? limitBytes) && negb (limitBytes =? 0)); [reflexivity|].
  rewrite AllocationSizeKiB_rounds_twice.
  assert (Hr : data.NewKibiByte
                 (if requiredBytes <? 4096 then 4096 else requiredBytes)
               = data.mkKibiByte (rounded_allocation_KiB requiredBytes)).
  { unfold data.NewKibiByte, rounded_allocation_KiB, data.KiB. f_equal.
    destruct (Z.ltb_spec requiredBytes 4096); f_equal; lia. }
  rewrite Hr. reflexivity.
Qed.

(** C2, as the code has it: [AllocationSizeKiB(1025, 0)] succeeds with 4 KiB,
    because the request is first raised to the 4096-byte minimum (ceiling
    rounding shows above the minimum: 4097 bytes take 5 KiB);
    [AllocationSizeKiB(100, 4096)] succeeds with 4 KiB, the 4096-byte
    minimum; [AllocationSizeKiB(5000, 4096)] fails with a capacity error,
    the rounded 5 KiB exceeding the limit. *)
Theorem AllocationSizeKiB_examples :
  AllocationSizeKiB 1025 0 = (4, None)
  /\ AllocationSizeKiB 4097 0 = (5, None)
  /\ AllocationSizeKiB 100 4096 = (4, None)
  /\ 4 * data.KiB = 4096
  /\ AllocationSizeKiB 5000 4096
     = (5, Some (ErrSizeLimited 5000 (data.mkKibiByte 5) (data.mkByte 4096))).
Proof. repeat split; vm_compute; reflexivity. Qed.

(** C2 as stated fails: [AllocationSizeKiB(1025, 0)] does not allocate
    2 KiB. *)
Lemma AllocationSizeKiB_1025_is_not_2 :
  ~ (exists err, AllocationSizeKiB 1025 0 = (2, err)).
Proof. intros [err H]. vm_compute in H. discriminate H. Qed.

(** C7, amended: [AllocationSizeKiB] returns an error exactly when the limit
    is not unlimited and either the 4096-byte minimum or the rounded
    allocation exceeds it; when the minimum exceeds the limit, 0 is returned
    with the error, whatever the rounded allocation is; when the minimum
    fits and the rounded allocation exceeds the limit, the rounded size is
    returned with the error; without an error the rounded allocation is
    returned. *)
Theorem AllocationSizeKiB_error_cases (requiredBytes limitBytes : Z) :
  let rounded := rounded_allocation_KiB requiredBytes in
  let result := AllocationSizeKiB requiredBytes limitBytes in
  (result.2 <> None
   <-> limitBytes <> 0 /\ (4096 > limitBytes \/ rounded * 1024 > limitBytes))
  /\ (limitBytes <> 0 /\ 4096 > limitBytes ->
      result = (0, Some ErrMinimumExceedsLimit))
  /\ (limitBytes <> 0 /\ 4096 <= limitBytes /\ rounded * 1024 > limitBytes ->
      result.1 = rounded /\ result.2 <> None)
  /\ (result.2 = None -> result = (rounded, None)).
Proof.
  cbv zeta. rewrite AllocationSizeKiB_unfold. cbv zeta.
  destruct (Z.gtb_spec 4096 limitBytes) as [Hmin|Hmin];
    destruct (Z.eqb_spec limitBytes 0) as [Hz|Hz];
    destruct (Z.gtb_spec (rounded_allocation_KiB requiredBytes * 1024) limitBytes)
      as [Hr|Hr];
    simpl; repeat split; try congruence; try lia;
    try (intros [? [? ?]]; lia); try (intros [? ?]; lia);
    try (intros _; split; [assumption | lia]).
Qed.

(** The rounded size comes back with the error at [(5000, 4096)]. *)
Lemma AllocationSizeKiB_error_cases_witness :
  (AllocationSizeKiB 5000 4096).1 = rounded_allocation_KiB 5000
  /\ (AllocationSizeKiB 5000 4096).2 <> None.
Proof.
  apply (proj1 (proj2 (proj2 (AllocationSizeKiB_error_cases 5000 4096)))).
  vm_compute. repeat split; discriminate.
Defined.

(** C7 as stated fails: at [(5000, 100)] the limit is set and the rounded
    allocation, 5 KiB, exceeds it, but the minimum exceeds it too, and the
    size returned with the error is 0, not the rounded size. *)
Lemma AllocationSizeKiB_minimum_guard_returns_0 :
  100 <> 0
  /\ rounded_allocation_KiB 5000 = 5
  /\ rounded_allocation_KiB 5000 * 1024 > 100
  /\ AllocationSizeKiB 5000 100 = (0, Some ErrMinimumExceedsLimit).
Proof. repeat split; try discriminate; vm_compute; reflexivity. Qed.

(** ** Name canonicalisation *)

Lemma linstorifyResourceName_valid (x y : string) :
  linstorifyResourceName x = (y, None) -> validResourceName y = None.
Proof.
  unfold linstorifyResourceName.
  destruct (validResourceName x) eqn:Hx.
  - destruct (validResourceName (regexp.ReplaceAllLiteralString_nonname x)) eqn:H1.
    + destruct (validResourceName
                  ("LS_" +:+ regexp.ReplaceAllLiteralString_nonname x)) eqn:H2.
      * intros H. discriminate H.
      * intros H. injection H as <-. exact H2.
    + intros H. injection H as <-. exact H1.
  - intros H. injection H as <-. exact Hx.
Qed.

(** C3, as the code has it: validation rejects the reserved name and the
    empty name, and canonicalisation repairs both with the [LS_] prefix:
    ["all"] becomes ["LS_all"] and [""] becomes ["LS_"], without an error. *)
Theorem linstorifyResourceName_reserved_and_empty :
  validResourceName "all" = Some ErrNameIsAll
  /\ validResourceName "" = Some ErrNoAlphabetic
  /\ linstorifyResourceName "all" = ("LS_all", None)
  /\ linstorifyResourceName "" = ("LS_", None).
Proof. repeat split; vm_compute; reflexivity. Qed.

(** C3 as stated fails: canonicalising ["all"] returns no error (and
    neither does canonicalising [""]). *)
Lemma linstorifyResourceName_all_succeeds :
  (linstorifyResourceName "all").2 = None
  /\ (linstorifyResourceName "").2 = None.
Proof. split; vm_compute; reflexivity. Qed.

(** C5: canonicalisation is idempotent: where [linstorifyResourceName]
    succeeds, applying it to its result succeeds and returns that result
    unchanged. *)
Theorem linstorifyResourceName_idempotent (x y : string) :
  linstorifyResourceName x = (y, None) ->
  linstorifyResourceName y = (y, None).
Proof.
  intros H. apply linstorifyResourceName_valid in H.
  unfold linstorifyResourceName. rewrite H. reflexivity.
Qed.

Lemma linstorifyResourceName_idempotent_witness :
  linstorifyResourceName "my.volume!name" = ("my_volume_name", None)
  /\ linstorifyResourceName "my_volume_name" = ("my_volume_name", None).
Proof.
  assert (H : linstorifyResourceName "my.volume!name" = ("my_volume_name", None))
    by (vm_compute; reflexivity).
  split; [exact H | exact (linstorifyResourceName_idempotent _ _ H)].
Defined.

(** ** Listing *)

(** C10: [ListAll] returns nil and no error for every parameters map, and
    issues no call to the controller. *)
Theorem ListAll_returns_nil (s : Linstor) (parameters : option (gmap string string))
    (ctl : Controller) (log : list call) :
  ListAll s parameters ctl log = (Returned (None, None), log).
Proof. reflexivity. Qed.

(** ** Decoding resource definitions *)

Lemma resDefToVolume_props_foreign (s : Linstor) (props : list lc.RscDfnProp) :
  Forall (fun p => lc.Key p <> auxKey s) props ->
  resDefToVolume_props s props = (None, None).
Proof.
  induction 1 as [|p props Hp _ IH]; simpl; [reflexivity|].
  fold (auxKey s). destruct (String.eqb_spec (lc.Key p) (auxKey s)) as [E|_].
  - contradiction.
  - exact IH.
Qed.

Lemma resDefToVolume_props_first (s : Linstor) (pre post : list lc.RscDfnProp)
    (value : string) :
  Forall (fun p => lc.Key p <> auxKey s) pre ->
  resDefToVolume_props s (pre ++ lc.mkProp (auxKey s) value :: post)
  = match json.Unmarshal (bytes_of_string value) (volume.mkInfo "" "" 0 (Some ∅)) with
    | None => (None, Some ErrUnmarshalAnnotations)
    | Some vol =>
      if String.eqb (volume.Name vol) "" then (None, Some ErrNoResourceName)
      else (Some vol, None)
    end.
Proof.
  induction 1 as [|p pre Hp _ IH]; simpl; fold (auxKey s).
  - rewrite String.eqb_refl. reflexivity.
  - destruct (String.eqb_spec (lc.Key p) (auxKey s)) as [E|_]; [contradiction|].
    exact IH.
Qed.

Lemma resDefToVolume_annotated (s : Linstor) (rd : lc.ResDef) (value : string) :
  annotated s rd value ->
  resDefToVolume s rd
  = match json.Unmarshal (bytes_of_string value) (volume.mkInfo "" "" 0 (Some ∅)) with
    | None => (None, Some ErrUnmarshalAnnotations)
    | Some vol =>
      if String.eqb (volume.Name vol) "" then (None, Some ErrNoResourceName)
      else (Some vol, None)
    end.
Proof.
  intros (pre & post & Hprops & Hpre). unfold resDefToVolume. rewrite Hprops.
  apply resDefToVolume_props_first. exact Hpre.
Qed.

(** C8: decoding a resource definition whose properties lack the annotation
    key returns nil and no error; when the key is present and the value
    deserialises to a volume with an empty [Name], the result is an error. *)
Theorem resDefToVolume_absent_or_nameless (s : Linstor) (resDef : lc.ResDef) :
  (foreign s resDef -> resDefToVolume s resDef = (None, None))
  /\ (forall value vol,
        annotated s resDef value ->
        json.Unmarshal (bytes_of_string value) (volume.mkInfo "" "" 0 (Some ∅))
        = Some vol ->
        volume.Name vol = "" ->
        resDefToVolume s resDef = (None, Some ErrNoResourceName)).
Proof.
  split.
  - intros H. apply resDefToVolume_props_foreign. exact H.
  - intros value vol Hann Hdec Hname.
    rewrite (resDefToVolume_annotated _ _ _ Hann), Hdec, Hname. reflexivity.
Qed.

Lemma resDefToVolume_absent_or_nameless_witness :
  resDefToVolume client rd_foreign = (None, None)
  /\ resDefToVolume client rd_nameless
     = (None, Some ErrNoResourceName).
Proof.
  pose (s := client).
  destruct (resDefToVolume_absent_or_nameless s rd_foreign) as [Hf _].
  destruct (resDefToVolume_absent_or_nameless s rd_nameless) as [_ Hn].
  split.
  - apply Hf. repeat constructor; discriminate.
  - apply (Hn (string_of_bytes (json.Marshal vol_nameless).1) vol_nameless).
    + exists [], []. split; [reflexivity | constructor].
    + vm_compute. reflexivity.
    + reflexivity.
Defined.

(** ** Lookups *)

Lemma GetByName_listed (s : Linstor) (name : string) (ctl : Controller)
    (log : list call) (list : list lc.ResDef) :
  resourceDefinitions ctl = (list, None) ->
  GetByName s name ctl log
  = (Returned (GetByName_scan s name list),
     log ++ [CallListResourceDefinitions "CSIGetByName"]).
Proof.
  intros H. unfold GetByName, bind, ListResourceDefinitions. rewrite H.
  reflexivity.
Qed.

Lemma GetByID_listed (s : Linstor) (ID : string) (ctl : Controller)
    (log : list call) (list : list lc.ResDef) :
  resourceDefinitions ctl = (list, None) ->
  GetByID s ID ctl log
  = (GetByID_scan s ID list, log ++ [CallListResourceDefinitions "CSIGetByID"]).
Proof.
  intros H. unfold GetByID, bind, ListResourceDefinitions. rewrite H.
  reflexivity.
Qed.

Lemma GetByName_scan_passed (s : Linstor) (name : string)
    (pre rest : list lc.ResDef) :
  Forall (passed_by_name s name) pre ->
  GetByName_scan s name (pre ++ rest) = GetByName_scan s name rest.
Proof.
  induction 1 as [|rd pre Hrd _ IH]; [reflexivity|]. simpl.
  destruct Hrd as [Hnil | (v & Hv & Hno)].
  - rewrite Hnil. exact IH.
  - rewrite Hv. unfold name_matches in Hno.
    apply orb_false_iff in Hno as [H1 H2]. rewrite H1, H2. exact IH.
Qed.

Lemma GetByID_scan_passed (s : Linstor) (ID : string)
    (pre rest : list lc.ResDef) :
  Forall (passed_by_ID s ID) pre ->
  GetByID_scan s ID (pre ++ rest) = GetByID_scan s ID rest.
Proof.
  induction 1 as [|rd pre Hrd _ IH]; [reflexivity|]. simpl.
  destruct Hrd as (Hname & v & Hv & Hid). rewrite Hv.
  destruct (String.eqb_spec (lc.RscName rd) ID) as [E|_]; [contradiction|].
  destruct (String.eqb_spec (volume.ID v) ID) as [E|_]; [contradiction|].
  exact IH.
Qed.

(** The scan of [GetByName] reads the properties of the entries, never
    their resource names. *)
Lemma GetByName_scan_props (s : Linstor) (name : string) (list : list lc.ResDef) :
  forall list',
  map lc.RscDfnProps list' = map lc.RscDfnProps list ->
  GetByName_scan s name list' = GetByName_scan s name list.
Proof.
  induction list as [|rd list IH]; intros [|rd' list'] H; try discriminate H;
    [reflexivity|].
  injection H as Hrd H. simpl. unfold resDefToVolume. rewrite Hrd.
  rewrite (IH _ H). reflexivity.
Qed.

(** C6, amended: [GetByName] returns the first decoded volume whose [Name]
    is the query or the query behind the fallback prefix ["csi-"], when
    every entry before it decodes without an error and does not match; an
    entry that fails to decode ends the lookup with its error; nil and no
    error are returned when the listing succeeds, every entry decodes and
    none matches.  The resource name of an entry is never read: only the
    decoded [Name] decides, so the volume whose [Name] is ["csi-myname"] is
    found by [GetByName("myname")]. *)
Theorem GetByName_first_match (cfg : LinstorConfig) (name : string)
    (ctl : Controller) (list : list lc.ResDef) :
  let s := NewLinstor cfg in
  resourceDefinitions ctl = (list, None) ->
  (forall pre rd post vol,
     list = pre ++ rd :: post ->
     Forall (passed_by_name s name) pre ->
     resDefToVolume s rd = (Some vol, None) ->
     volume.Name vol = name \/ volume.Name vol = "csi-" +:+ name ->
     (run (GetByName s name) ctl).1 = Returned (Some vol, None))
  /\ (forall pre rd post vol err,
      list = pre ++ rd :: post ->
      Forall (passed_by_name s name) pre ->
      resDefToVolume s rd = (vol, Some err) ->
      (run (GetByName s name) ctl).1 = Returned (None, Some err))
  /\ (Forall (passed_by_name s name) list ->
      (run (GetByName s name) ctl).1 = Returned (None, None))
  /\ (forall ctl' list',
      resourceDefinitions ctl' = (list', None) ->
      map lc.RscDfnProps list' = map lc.RscDfnProps list ->
      (run (GetByName s name) ctl').1 = (run (GetByName s name) ctl).1).
Proof.
  intros s Hlist. unfold run. rewrite (GetByName_listed _ _ _ _ _ Hlist). simpl.
  repeat split.
  - intros pre rd post vol -> Hpre Hrd Hname. f_equal.
    rewrite (GetByName_scan_passed _ _ _ _ Hpre). simpl. rewrite Hrd.
    destruct Hname as [-> | ->].
    + rewrite String.eqb_refl. reflexivity.
    + destruct (String.eqb ("csi-" +:+ name) name); [reflexivity|].
      change (fallbackPrefix s) with "csi-". rewrite String.eqb_refl. reflexivity.
  - intros pre rd post vol err -> Hpre Hrd. f_equal.
    rewrite (GetByName_scan_passed _ _ _ _ Hpre). simpl. rewrite Hrd.
    destruct vol; reflexivity.
  - intros Hall. f_equal.
    rewrite <- (app_nil_r list), (GetByName_scan_passed _ _ _ _ Hall).
    reflexivity.
  - intros ctl' list' Hlist' Hprops.
    rewrite (GetByName_listed _ _ _ _ _ Hlist'). simpl. f_equal.
    apply GetByName_scan_props, Hprops.
Qed.

Lemma GetByName_first_match_witness :
  (run (GetByName client "myname")
       (mkController ([rd_foreign; rd_csi_myname], None))).1
  = Returned (Some vol_csi_myname, None).
Proof.
  pose (cfg := mkLinstorConfig false "").
  pose (ctl := mkController ([rd_foreign; rd_csi_myname], None)).
  destruct (GetByName_first_match cfg "myname" ctl [rd_foreign; rd_csi_myname]
              eq_refl) as (Hfirst & _ & _ & _).
  apply (Hfirst [rd_foreign] rd_csi_myname [] vol_csi_myname).
  - reflexivity.
  - constructor; [|constructor]. left. vm_compute. reflexivity.
  - vm_compute. reflexivity.
  - right. reflexivity.
Defined.

(** C6 as stated fails twice.  A volume stored under the resource name
    ["csi-myname"] whose [Name] is ["data"] is not found by
    [GetByName("myname")]: the resource name is not what is compared.  And
    in a listing whose first entry fails to decode, the lookup returns that
    error although a matching volume follows. *)
Lemma GetByName_backend_name_not_read :
  lc.RscName rd_data = "csi-myname"
  /\ resDefToVolume client rd_data = (Some vol_data, None)
  /\ (run (GetByName client "myname") (mkController ([rd_data], None))).1
     = Returned (None, None)
  /\ resourceDefinitions listing_nameless_first
     = ([rd_nameless; rd_csi_myname], None)
  /\ resDefToVolume client rd_csi_myname = (Some vol_csi_myname, None)
  /\ name_matches client "myname" vol_csi_myname = true
  /\ (run (GetByName client "myname") listing_nameless_first).1
     = Returned (None, Some ErrNoResourceName).
Proof. repeat split; vm_compute; reflexivity. Qed.

(** C9: when the loop of [GetByID] reaches a resource definition that has no
    annotation key and whose resource name differs from the queried ID, it
    dereferences the nil volume and panics, where the loop of [GetByName]
    goes on to the next entry; a listing that starts with such an entry
    reaches the dereference. *)
Theorem GetByID_nil_dereference (s : Linstor) (ID name : string)
    (ctl : Controller) (pre post : list lc.ResDef) (rd : lc.ResDef) :
  resourceDefinitions ctl = (pre ++ rd :: post, None) ->
  Forall (passed_by_ID s ID) pre ->
  foreign s rd ->
  lc.RscName rd <> ID ->
  (run (GetByID s ID) ctl).1 = Panicked
  /\ GetByName_scan s name (rd :: post) = GetByName_scan s name post.
Proof.
  intros Hlist Hpre Hforeign Hname. unfold run.
  assert (Hnil : resDefToVolume s rd = (None, None))
    by (apply resDefToVolume_props_foreign; exact Hforeign).
  rewrite (GetByID_listed _ _ _ _ _ Hlist). simpl. split.
  - rewrite (GetByID_scan_passed _ _ _ _ Hpre). simpl. rewrite Hnil.
    destruct (String.eqb_spec (lc.RscName rd) ID) as [E|_]; [contradiction|].
    reflexivity.
  - rewrite Hnil. reflexivity.
Qed.

Lemma GetByID_nil_dereference_witness :
  (run (GetByID client "csi-myname")
       (mkController ([rd_foreign; rd_csi_myname], None))).1 = Panicked
  /\ GetByName_scan client "myname"
       [rd_foreign; rd_csi_myname]
     = GetByName_scan client "myname"
         [rd_csi_myname].
Proof.
  apply (GetByID_nil_dereference client
           "csi-myname" "myname"
           (mkController ([rd_foreign; rd_csi_myname], None))
           [] [rd_csi_myname] rd_foreign).
  - reflexivity.
  - constructor.
  - repeat constructor; discriminate.
  - discriminate.
Defined.

(** ** Translation: the allocation size *)

Lemma applyParameter_SizeKiB (k v : string) (cfg : lc.ResourceDeploymentConfig) :
  lc.SizeKiB (applyParameter k v cfg).1 = lc.SizeKiB cfg.
Proof.
  unfold applyParameter. cbv zeta.
  repeat match goal with
         | |- context [if ?c then _ else _] => destruct c
         | |- context [match ?c with Some _ => _ | None => _ end] => destruct c
         end; reflexivity.
Qed.

Lemma applyParameters_SizeKiB (kvs : list (string * string)) :
  forall cfg, lc.SizeKiB (applyParameters kvs cfg).1 = lc.SizeKiB cfg.
Proof.
  induction kvs as [|[k v] kvs IH]; intros cfg; [reflexivity|]. simpl.
  pose proof (applyParameter_SizeKiB k v cfg) as H.
  destruct (applyParameter k v cfg) as [cfg' [err|]]; simpl in *.
  - exact H.
  - rewrite IH. exact H.
Qed.

(** What the translation computes: one KiB more than the whole KiB of the
    size, whether or not a remainder is dropped. *)
Lemma resDeploymentConfig_SizeKiB (s : Linstor) (vol : volume.Info)
    (kvs : list (string * string)) (cfg : lc.ResourceDeploymentConfig) :
  0 <= volume.SizeBytes vol < 2 ^ 63 ->
  resDeploymentConfigFromVolumeInfo s vol kvs = (Some cfg, None) ->
  lc.SizeKiB cfg = volume.SizeBytes vol / 1024 + 1
  /\ (volume.SizeBytes vol mod 1024 = 0 ->
      lc.SizeKiB cfg = ceil_KiB (volume.SizeBytes vol) + 1)
  /\ (volume.SizeBytes vol mod 1024 <> 0 ->
      lc.SizeKiB cfg = ceil_KiB (volume.SizeBytes vol)).
Proof.
  intros Hsize. unfold resDeploymentConfigFromVolumeInfo. cbv zeta.
  match goal with
  | |- context [applyParameters kvs ?c] =>
    pose proof (applyParameters_SizeKiB kvs c) as H;
    destruct (applyParameters kvs c) as [cfg' [err|]]
  end; [discriminate|].
  simpl in H. unfold json.Marshal. intros Hcfg. injection Hcfg as <-.
  assert (Hk : lc.SizeKiB cfg' = volume.SizeBytes vol / 1024 + 1).
  { rewrite H. unfold uint64_of_int64.
    rewrite Z.quot_div_nonneg by lia.
    apply Z.mod_small. split; [Z.div_mod_to_equations; lia|].
    assert (volume.SizeBytes vol / 1024 < 2 ^ 63)
      by (apply Z.div_lt_upper_bound; lia).
    lia. }
  change (lc.SizeKiB (lc.set_Annotations _ cfg')) with (lc.SizeKiB cfg').
  rewrite Hk. unfold ceil_KiB.
  repeat split; [intros Hmod | intros Hmod]; Z.div_mod_to_equations; lia.
Qed.

(** C4 fails on the code: for a volume of exactly 2048 bytes the translation
    asks for 3 KiB, where the ceiling of 2048/1024 is 2; the extra KiB is
    added although no remainder is dropped. *)
Theorem resDeploymentConfig_SizeKiB_2048 :
  exists cfg,
    resDeploymentConfigFromVolumeInfo client vol_2KiB [] = (Some cfg, None)
    /\ volume.SizeBytes vol_2KiB mod 1024 = 0
    /\ lc.SizeKiB cfg = 3
    /\ ceil_KiB (volume.SizeBytes vol_2KiB) = 2.
Proof.
  eexists. split; [reflexivity|]. repeat split.
Qed.

(** ** The JSON codec: decoding undoes encoding *)

(** *** Integers *)

Lemma digits_value_bytes_of_uint_acc (u : Decimal.uint) (acc : positive) :
  strconv.digits_value (Z.pos acc) (strconv.bytes_of_uint u)
  = Some (Z.pos (Pos.of_uint_acc u acc)).
Proof.
  revert acc. induction u; intros acc; simpl; try reflexivity;
    rewrite <- IHu; f_equal; unfold byte_val; simpl (N_of_ascii _); lia.
Qed.

Lemma digits_value_bytes_of_uint (u : Decimal.uint) :
  strconv.digits_value 0 (strconv.bytes_of_uint u) = Some (Z.of_N (Pos.of_uint u)).
Proof.
  induction u; simpl; try reflexivity; try exact IHu;
    apply (digits_value_bytes_of_uint_acc u).
Qed.

Lemma to_uint_head (p : positive) :
  match Pos.to_uint p with
  | Decimal.Nil | Decimal.D0 _ => False
  | _ => True
  end.
Proof.
  pose proof (DecimalPos.Unsigned.to_of (Pos.to_uint p)) as H.
  rewrite DecimalPos.Unsigned.of_to in H. simpl in H.
  pose proof (DecimalPos.Unsigned.to_uint_nonzero p) as Hzero.
  pose proof (DecimalFacts.nzhead_nonzero (Pos.to_uint p)) as Hnz.
  revert H Hzero Hnz. generalize (Pos.to_uint p) as u. intros u H Hzero Hnz.
  unfold Decimal.unorm in H.
  destruct (Decimal.nzhead u) as [|d|d|d|d|d|d|d|d|d|d] eqn:E;
    try (rewrite H; exact I).
  - destruct (Hzero H).
  - destruct (Hnz d eq_refl).
Qed.

Lemma span_digits_bytes_of_uint (u : Decimal.uint) (r : list ascii) :
  json.span_digits (strconv.bytes_of_uint u ++ ","%char :: r)
  = (strconv.bytes_of_uint u, ","%char :: r).
Proof.
  induction u; simpl; try reflexivity; rewrite IHu; reflexivity.
Qed.

Lemma scan_number_FormatInt (z : Z) (r : list ascii) :
  json.scan_number (strconv.FormatInt z ++ ","%char :: r)
  = Some (strconv.FormatInt z, ","%char :: r).
Proof.
  unfold strconv.FormatInt.
  destruct z as [|p|p]; simpl Z.to_int; cbv iota.
  - reflexivity.
  - pose proof (to_uint_head p) as Hh.
    destruct (Pos.to_uint p) as [|u|u|u|u|u|u|u|u|u|u]; try contradiction;
      unfold json.scan_number; simpl; rewrite span_digits_bytes_of_uint;
      reflexivity.
  - pose proof (to_uint_head p) as Hh.
    destruct (Pos.to_uint p) as [|u|u|u|u|u|u|u|u|u|u]; try contradiction;
      unfold json.scan_number; simpl; rewrite span_digits_bytes_of_uint;
      reflexivity.
Qed.

Lemma ParseInt_FormatInt (z : Z) :
  - 2 ^ 63 <= z < 2 ^ 63 ->
  strconv.ParseInt (strconv.FormatInt z) = Some z.
Proof.
  intros Hz. pose proof (DecimalZ.of_to z) as Hof.
  unfold strconv.FormatInt, strconv.ParseInt.
  destruct z as [|p|p]; simpl Z.to_int in *; cbv iota.
  - reflexivity.
  - pose proof (to_uint_head p) as Hh.
    pose proof (digits_value_bytes_of_uint (Pos.to_uint p)) as Hd.
    simpl in Hof. unfold Z.of_uint in Hof. rewrite Hof in Hd.
    destruct (Pos.to_uint p) as [|u|u|u|u|u|u|u|u|u|u]; try contradiction;
      cbn [strconv.bytes_of_uint Ascii.eqb Bool.eqb] in *; rewrite Hd;
      destruct (Z.leb_spec (- 2 ^ 63) (Z.pos p)); try lia;
      destruct (Z.ltb_spec (Z.pos p) (2 ^ 63)); try lia; reflexivity.
  - pose proof (to_uint_head p) as Hh.
    pose proof (digits_value_bytes_of_uint (Pos.to_uint p)) as Hd.
    simpl in Hof. unfold Z.of_uint in Hof.
    assert (Hn : Z.of_N (Pos.of_uint (Pos.to_uint p)) = Z.pos p) by lia.
    rewrite Hn in Hd.
    cbn [Ascii.eqb Bool.eqb].
    destruct (Pos.to_uint p) as [|u|u|u|u|u|u|u|u|u|u]; try contradiction;
      cbn [strconv.bytes_of_uint] in *; rewrite Hd;
      change (- Z.pos p) with (Z.neg p);
      destruct (Z.leb_spec (- 2 ^ 63) (Z.neg p)); try lia;
      destruct (Z.ltb_spec (Z.neg p) (2 ^ 63)); try lia; reflexivity.
Qed.

(** *** Runes *)


Lemma byte_of_val (c : ascii) : byte_of (byte_val c) = c.
Proof.
  unfold byte_of, byte_val. rewrite N2Z.id. apply ascii_N_embedding.
Qed.


Ltac split_between :=
  repeat match goal with
  | H : between _ _ _ = true |- _ =>
    unfold between in H; apply andb_true_iff in H; destruct H
  | H : utf8.cont _ = true |- _ => unfold utf8.cont in H
  | H : (_ && _) = true |- _ => apply andb_true_iff in H; destruct H
  | H : (_ <=? _) = true |- _ => apply Z.leb_le in H
  | H : (_ <? _) = true |- _ => apply Z.ltb_lt in H
  | H : (_ <? _) = false |- _ => apply Z.ltb_ge in H
  | H : (_ <=? _) = false |- _ => apply Z.leb_gt in H
  end.

Lemma EncodeRune_2 (x0 x1 : Z) :
  0xC2 <= x0 <= 0xDF -> 0x80 <= x1 <= 0xBF ->
  EncodeRune ((x0 - 0xC0) * 64 + (x1 - 0x80)) = [byte_of x0; byte_of x1].
Proof.
  intros H0 H1. unfold EncodeRune.
  destruct (Z.leb_spec 0 ((x0 - 192) * 64 + (x1 - 128))); [|lia].
  destruct (Z.ltb_spec ((x0 - 192) * 64 + (x1 - 128)) 128); [lia|].
  destruct (Z.ltb_spec ((x0 - 192) * 64 + (x1 - 128)) 2048); [|lia].
  simpl. repeat f_equal; Z.div_mod_to_equations; lia.
Qed.

Lemma EncodeRune_3 (x0 x1 x2 : Z) :
  0xE0 <= x0 <= 0xEF -> utf8.second_lo x0 <= x1 <= utf8.second_hi x0 ->
  0x80 <= x2 <= 0xBF ->
  EncodeRune ((x0 - 0xE0) * 4096 + (x1 - 0x80) * 64 + (x2 - 0x80))
  = [byte_of x0; byte_of x1; byte_of x2].
Proof.
  intros H0 H1 H2. unfold EncodeRune, utf8.second_lo, utf8.second_hi, between in *.
  set (r := (x0 - 224) * 4096 + (x1 - 128) * 64 + (x2 - 128)).
  assert (Hr : 0x800 <= r < 0x10000 /\ ~ (0xD800 <= r <= 0xDFFF)
               /\ 0x80 <= x1 <= 0xBF).
  { subst r. revert H1.
    destruct (Z.eqb_spec x0 224); destruct (Z.eqb_spec x0 240);
      destruct (Z.eqb_spec x0 237); destruct (Z.eqb_spec x0 244); lia. }
  destruct (Z.leb_spec 0 r); [|lia].
  destruct (Z.ltb_spec r 128); [lia|].
  destruct (Z.ltb_spec r 2048); [lia|].
  destruct (Z.ltb_spec r 0); [lia|].
  destruct (Z.ltb_spec 1114111 r); [lia|].
  destruct (Z.leb_spec 55296 r); destruct (Z.leb_spec r 57343); try lia;
    destruct (Z.ltb_spec r 65536); try lia; simpl;
    clear H1; subst r; repeat f_equal; Z.div_mod_to_equations; lia.
Qed.

Lemma EncodeRune_4 (x0 x1 x2 x3 : Z) :
  0xF0 <= x0 <= 0xF4 -> utf8.second_lo x0 <= x1 <= utf8.second_hi x0 ->
  0x80 <= x2 <= 0xBF -> 0x80 <= x3 <= 0xBF ->
  EncodeRune ((x0 - 0xF0) * 262144 + (x1 - 0x80) * 4096 + (x2 - 0x80) * 64
              + (x3 - 0x80))
  = [byte_of x0; byte_of x1; byte_of x2; byte_of x3].
Proof.
  intros H0 H1 H2 H3.
  unfold EncodeRune, utf8.second_lo, utf8.second_hi, between in *.
  set (r := (x0 - 240) * 262144 + (x1 - 128) * 4096 + (x2 - 128) * 64 + (x3 - 128)).
  assert (Hr : 0x10000 <= r <= 0x10FFFF /\ 0x80 <= x1 <= 0xBF).
  { subst r. revert H1.
    destruct (Z.eqb_spec x0 224); destruct (Z.eqb_spec x0 240);
      destruct (Z.eqb_spec x0 237); destruct (Z.eqb_spec x0 244); lia. }
  destruct (Z.leb_spec 0 r); [|lia].
  destruct (Z.ltb_spec r 128); [lia|].
  destruct (Z.ltb_spec r 2048); [lia|].
  destruct (Z.ltb_spec r 0); [lia|].
  destruct (Z.ltb_spec 1114111 r); [lia|].
  destruct (Z.leb_spec 55296 r); destruct (Z.leb_spec r 57343); try lia;
    destruct (Z.ltb_spec r 65536); try lia; simpl;
    clear H1; subst r; repeat f_equal; Z.div_mod_to_equations; lia.
Qed.

Lemma DecodeRune_multibyte (b0 : ascii) (p1 : list ascii) (r : Z) (size : nat) :
  utf8.DecodeRune (b0 :: p1) = (r, size) ->
  size <> 1%nat ->
  (byte_val b0 <? utf8.RuneSelf) = false
  /\ (2 <= size)%nat
  /\ EncodeRune r = take size (b0 :: p1)
  /\ length (take size (b0 :: p1)) = size
  /\ forall tail, utf8.DecodeRune (take size (b0 :: p1) ++ tail) = (r, size).
Proof.
  intros H Hsize. unfold utf8.DecodeRune in H.
  destruct (byte_val b0 <? utf8.RuneSelf) eqn:E0;
    [injection H as <- <-; contradiction|].
  split; [reflexivity|].
  destruct (between 194 223 (byte_val b0)) eqn:E1.
  { destruct p1 as [|b1 p2]; [injection H as <- <-; contradiction|].
    destruct (utf8.cont b1) eqn:E2; [|injection H as <- <-; contradiction].
    injection H as <- <-. split; [lia|]. split; [|split; [reflexivity|]].
    - split_between. rewrite EncodeRune_2 by lia. rewrite !byte_of_val. reflexivity.
    - intros tail. simpl. unfold utf8.DecodeRune. rewrite E0, E1, E2. reflexivity. }
  destruct (between 224 239 (byte_val b0)) eqn:E2.
  { destruct p1 as [|b1 [|b2 p3]]; try (injection H as <- <-; contradiction).
    destruct (between (utf8.second_lo (byte_val b0)) (utf8.second_hi (byte_val b0))
                (byte_val b1) && utf8.cont b2) eqn:E3;
      [|injection H as <- <-; contradiction].
    injection H as <- <-. split; [lia|]. split; [|split; [reflexivity|]].
    - split_between. rewrite EncodeRune_3 by lia. rewrite !byte_of_val. reflexivity.
    - intros tail. simpl. unfold utf8.DecodeRune. rewrite E0, E1, E2, E3.
      reflexivity. }
  destruct (between 240 244 (byte_val b0)) eqn:E3.
  { destruct p1 as [|b1 [|b2 [|b3 p4]]]; try (injection H as <- <-; contradiction).
    destruct (between (utf8.second_lo (byte_val b0)) (utf8.second_hi (byte_val b0))
                (byte_val b1) && utf8.cont b2 && utf8.cont b3) eqn:E4;
      [|injection H as <- <-; contradiction].
    injection H as <- <-. split; [lia|]. split; [|split; [reflexivity|]].
    - split_between. rewrite EncodeRune_4 by lia. rewrite !byte_of_val. reflexivity.
    - intros tail. simpl. unfold utf8.DecodeRune. rewrite E0, E1, E2, E3, E4.
      reflexivity. }
  injection H as <- <-. contradiction.
Qed.

Lemma DecodeRune_ascii (b0 : ascii) (p1 : list ascii) :
  (byte_val b0 <? utf8.RuneSelf) = true ->
  utf8.DecodeRune (b0 :: p1) = (byte_val b0, 1%nat).
Proof. intros H. unfold utf8.DecodeRune. rewrite H. reflexivity. Qed.

Lemma unquote_quote_ascii (b0 : ascii) (tail : list ascii) :
  (byte_val b0 <? utf8.RuneSelf) = true ->
  json.unquote_step
    ((if json.htmlSafe (byte_val b0) then [b0] else json.escape_byte b0) ++ tail)
  = json.Emit [b0] tail.
Proof.
  destruct b0 as [[] [] [] [] [] [] [] []]; intros H;
    try (vm_compute in H; discriminate H); vm_compute; reflexivity.
Qed.

(** *** String literals *)

Lemma unquote_step_multibyte (b0 : ascii) (p1 tail : list ascii) (r : Z) (size : nat) :
  (byte_val b0 <? utf8.RuneSelf) = false ->
  utf8.DecodeRune (b0 :: p1 ++ tail) = (r, size) ->
  json.unquote_step (b0 :: p1 ++ tail)
  = json.Emit (EncodeRune r) (drop size (b0 :: p1 ++ tail)).
Proof.
  intros E0 H. unfold json.unquote_step. rewrite H, E0.
  apply Z.ltb_ge in E0. unfold utf8.RuneSelf in E0.
  destruct (Z.eqb_spec (byte_val b0) 34); [lia|].
  destruct (Z.eqb_spec (byte_val b0) 92); [lia|].
  destruct (Z.ltb_spec (byte_val b0) 32); [lia|].
  reflexivity.
Qed.

(** One turn of the encoder is undone by one turn of the decoder. *)
Lemma unquote_quote_step (b0 : ascii) (p1 tail : list ascii) (r : Z) (size : nat) :
  utf8.DecodeRune (b0 :: p1) = (r, size) ->
  (byte_val b0 <? utf8.RuneSelf) || negb (size =? 1)%nat = true ->
  exists out,
    json.quote_step (b0 :: p1) = (out, size)
    /\ (1 <= size)%nat
    /\ (1 <= length out)%nat
    /\ json.unquote_step (out ++ tail) = json.Emit (take size (b0 :: p1)) tail.
Proof.
  intros Hdec Hvalid. unfold json.quote_step.
  destruct (byte_val b0 <? utf8.RuneSelf) eqn:E0.
  - rewrite (DecodeRune_ascii _ _ E0) in Hdec. injection Hdec as <- <-.
    eexists. split; [reflexivity|]. split; [lia|]. split.
    + destruct (json.htmlSafe (byte_val b0)); [simpl; lia|].
      unfold json.escape_byte. cbv zeta.
      repeat match goal with
             | |- context [if ?c then _ else _] => destruct c
             end; simpl; lia.
    + apply unquote_quote_ascii. exact E0.
  - simpl in Hvalid. apply negb_true_iff, Nat.eqb_neq in Hvalid.
    destruct (DecodeRune_multibyte _ _ _ _ Hdec Hvalid)
      as (_ & Hsize & Henc & Hlen & Htail).
    rewrite Hdec.
    assert (Hne : (size =? 1)%nat = false) by (apply Nat.eqb_neq; exact Hvalid).
    rewrite Hne, andb_false_r.
    assert (Hhead : exists q, take size (b0 :: p1) = b0 :: q).
    { destruct size as [|k]; [lia|]. simpl. eexists. reflexivity. }
    destruct Hhead as (q & Hq).
    destruct ((r =? 8232) || (r =? 8233)) eqn:Els.
    + eexists. split; [reflexivity|]. split; [lia|]. split; [simpl; lia|].
      rewrite <- Henc.
      apply orb_true_iff in Els as [E|E]; apply Z.eqb_eq in E; subst r;
        vm_compute; reflexivity.
    + exists (take size (b0 :: p1)). split; [reflexivity|]. split; [lia|].
      split; [rewrite Hlen; lia|].
      specialize (Htail tail). rewrite Hq in Htail |- *. simpl app in *.
      rewrite (unquote_step_multibyte _ _ _ _ _ E0 Htail).
      rewrite Henc, Hq. f_equal.
      change (b0 :: q ++ tail) with ((b0 :: q) ++ tail). rewrite <- Hq.
      rewrite drop_app_length'; [reflexivity | symmetry; exact Hlen].
Qed.


Lemma quote_go_cons (n : nat) (b0 : ascii) (p1 : list ascii) :
  json.quote_go (S n) (b0 :: p1)
  = (json.quote_step (b0 :: p1)).1
      ++ json.quote_go n (drop (json.quote_step (b0 :: p1)).2 (b0 :: p1)).
Proof.
  change (json.quote_go (S n) (b0 :: p1))
    with (let '(out, size) := json.quote_step (b0 :: p1) in
          out ++ json.quote_go n (drop size (b0 :: p1))).
  destruct (json.quote_step (b0 :: p1)). reflexivity.
Qed.

Lemma valid_go_cons (n : nat) (b0 : ascii) (p1 : list ascii) :
  utf8.valid_go (S n) (b0 :: p1)
  = if (byte_val b0 <? utf8.RuneSelf)
       || negb ((utf8.DecodeRune (b0 :: p1)).2 =? 1)%nat
    then utf8.valid_go n (drop (utf8.DecodeRune (b0 :: p1)).2 (b0 :: p1))
    else false.
Proof.
  change (utf8.valid_go (S n) (b0 :: p1))
    with (let '(r, size) := utf8.DecodeRune (b0 :: p1) in
          if (byte_val b0 <? utf8.RuneSelf) || negb (size =? 1)%nat
          then utf8.valid_go n (drop size (b0 :: p1))
          else false).
  destruct (utf8.DecodeRune (b0 :: p1)). reflexivity.
Qed.

(** Reading back the literal of a well-formed string gives the string. *)
Lemma unquote_go_quote_go (n : nat) :
  forall p : list ascii,
    (length p <= n)%nat ->
    utf8.valid_go n p = true ->
    forall (fuel : nat) (tail : list ascii),
      (length (json.quote_go n p) < fuel)%nat ->
      json.unquote_go fuel (json.quote_go n p ++ json.dquote :: tail)
      = Some (p, tail).
Proof.
  induction n as [|n IH]; intros p Hlen Hvalid fuel tail Hfuel.
  - destruct p; [|simpl in Hlen; lia].
    destruct fuel; [simpl in Hfuel; lia|]. reflexivity.
  - destruct p as [|b0 p1].
    + destruct fuel; [simpl in Hfuel; lia|]. reflexivity.
    + rewrite valid_go_cons in Hvalid. rewrite quote_go_cons in *.
      destruct (utf8.DecodeRune (b0 :: p1)) as [r size] eqn:Hdec.
      cbn [fst snd] in Hvalid.
      destruct ((byte_val b0 <? utf8.RuneSelf) || negb (size =? 1)%nat) eqn:Hok;
        [|discriminate Hvalid].
      destruct (unquote_quote_step b0 p1
                  (json.quote_go n (drop size (b0 :: p1)) ++ json.dquote :: tail)
                  r size Hdec Hok)
        as (out & Hq & Hsize & Hout & Hstep).
      rewrite Hq in *. cbn [fst snd] in *. rewrite length_app in Hfuel.
      destruct fuel as [|fuel]; [lia|].
      rewrite <- app_assoc. simpl json.unquote_go. rewrite Hstep.
      rewrite IH.
      * rewrite take_drop. reflexivity.
      * rewrite length_drop. simpl in Hlen |- *. lia.
      * exact Hvalid.
      * lia.
Qed.

Lemma quote_app (s : string) (tail : list ascii) :
  json.quote s ++ tail
  = json.dquote
      :: json.quote_go (length (bytes_of_string s)) (bytes_of_string s)
      ++ json.dquote :: tail.
Proof.
  unfold json.quote. cbv zeta. simpl. rewrite <- app_assoc. reflexivity.
Qed.

Lemma unquote_quote (s : string) (tail : list ascii) :
  utf8.ValidString s = true ->
  json.unquote
    (json.quote_go (length (bytes_of_string s)) (bytes_of_string s)
       ++ json.dquote :: tail)
  = Some (s, tail).
Proof.
  intros Hvalid. unfold json.unquote.
  rewrite unquote_go_quote_go.
  - unfold string_of_bytes, bytes_of_string.
    rewrite string_of_list_ascii_of_string. reflexivity.
  - lia.
  - exact Hvalid.
  - rewrite length_app. simpl. lia.
Qed.

(** *** Values, members and the volume record *)

Lemma parse_value_quoted (fuel : nat) (p r : list ascii) (s : string) :
  json.unquote p = Some (s, r) ->
  json.parse_value (S fuel) (json.dquote :: p) = Some (json.JString s, r).
Proof. intros H. simpl. rewrite H. reflexivity. Qed.

Lemma parse_value_braces (fuel : nat) (p r : list ascii)
    (ms : list (string * json.value)) :
  json.parse_members fuel (json.dquote :: p) = Some (ms, r) ->
  json.parse_value (S fuel) ("{"%char :: json.dquote :: p) = Some (json.JObject ms, r).
Proof. intros H. simpl. simpl in H. rewrite H. reflexivity. Qed.

Lemma parse_members_comma (fuel : nat) (p p3 p5 : list ascii) (k : string)
    (v : json.value) :
  json.unquote p = Some (k, ":"%char :: p3) ->
  json.parse_value fuel p3 = Some (v, ","%char :: p5) ->
  json.parse_members (S fuel) (json.dquote :: p)
  = match json.parse_members fuel p5 with
    | Some (ms, r) => Some ((k, v) :: ms, r)
    | None => None
    end.
Proof. intros Hk Hv. simpl. rewrite Hk. simpl. rewrite Hv. reflexivity. Qed.

Lemma parse_members_last (fuel : nat) (p p3 p5 : list ascii) (k : string)
    (v : json.value) :
  json.unquote p = Some (k, ":"%char :: p3) ->
  json.parse_value fuel p3 = Some (v, "}"%char :: p5) ->
  json.parse_members (S fuel) (json.dquote :: p) = Some ([(k, v)], p5).
Proof. intros Hk Hv. simpl. rewrite Hk. simpl. rewrite Hv. reflexivity. Qed.

Lemma parse_value_string (s : string) (tail : list ascii) (fuel : nat) :
  utf8.ValidString s = true ->
  json.parse_value (S fuel) (json.quote s ++ tail) = Some (json.JString s, tail).
Proof.
  intros Hs. rewrite quote_app. apply parse_value_quoted, unquote_quote, Hs.
Qed.

Lemma parse_value_number (z : Z) (tail : list ascii) (fuel : nat) :
  json.parse_value (S fuel) (strconv.FormatInt z ++ ","%char :: tail)
  = Some (json.JNumber (strconv.FormatInt z), ","%char :: tail).
Proof.
  pose proof (scan_number_FormatInt z tail) as Hscan. revert Hscan.
  unfold strconv.FormatInt.
  destruct z as [|p|p]; simpl Z.to_int; cbv iota.
  - intros _. reflexivity.
  - pose proof (to_uint_head p) as Hh.
    destruct (Pos.to_uint p) as [|u|u|u|u|u|u|u|u|u|u]; try contradiction;
      intros Hscan;
      cbn [strconv.bytes_of_uint app] in *;
      match goal with
      | |- json.parse_value _ ?t = _ =>
        change (json.parse_value (S fuel) t)
          with (match json.scan_number t with
                | Some (n, r) => Some (json.JNumber n, r)
                | None => None
                end)
      end; rewrite Hscan; reflexivity.
  - intros Hscan. cbn [app] in *.
    match goal with
    | |- json.parse_value _ ?t = _ =>
      change (json.parse_value (S fuel) t)
        with (match json.scan_number t with
              | Some (n, r) => Some (json.JNumber n, r)
              | None => None
              end)
    end. rewrite Hscan. reflexivity.
Qed.

Lemma member_text (k : string) (rest : list ascii) :
  json.quote k ++ json.lit ":" ++ rest
  = json.dquote
      :: json.quote_go (length (bytes_of_string k)) (bytes_of_string k)
      ++ json.dquote :: ":"%char :: rest.
Proof. rewrite quote_app. reflexivity. Qed.

Lemma members_text_cons (k v : string) (kv : string * string)
    (kvs : list (string * string)) :
  json.members_text ((k, v) :: kv :: kvs)
  = json.quote k ++ json.lit ":" ++ json.quote v ++ json.lit ","
      ++ json.members_text (kv :: kvs).
Proof. reflexivity. Qed.

Lemma members_text_head (kvs : list (string * string)) (tail : list ascii) :
  kvs <> [] ->
  exists p, json.members_text kvs ++ tail = json.dquote :: p.
Proof.
  destruct kvs as [|[k v] [|kv kvs]]; intros H; [contradiction| |].
  - cbn [json.members_text]. rewrite <- !app_assoc, member_text. eauto.
  - rewrite members_text_cons. rewrite <- !app_assoc, member_text. eauto.
Qed.

Lemma parse_members_text (kvs : list (string * string)) :
  forall (fuel : nat) (tail : list ascii),
    kvs <> [] ->
    Forall valid_entry kvs ->
    (length kvs < fuel)%nat ->
    json.parse_members fuel (json.members_text kvs ++ "}"%char :: tail)
    = Some (map (fun kv => (kv.1, json.JString kv.2)) kvs, tail).
Proof.
  induction kvs as [|[k v] kvs IH]; intros fuel tail Hne Hvalid Hfuel;
    [contradiction|].
  apply Forall_cons in Hvalid as [[Hk Hv] Hvalid]. simpl in Hk, Hv.
  destruct fuel as [|[|fuel]]; [simpl in Hfuel; lia .. |].
  destruct kvs as [|kv kvs].
  - cbn [json.members_text]. rewrite <- !app_assoc, member_text.
    apply parse_members_last with (p3 := json.quote v ++ "}"%char :: tail).
    + apply unquote_quote, Hk.
    + apply parse_value_string, Hv.
  - rewrite members_text_cons. rewrite <- !app_assoc, member_text.
    rewrite parse_members_comma
      with (k := k) (v := json.JString v)
           (p3 := json.quote v ++ json.lit ","
                    ++ json.members_text (kv :: kvs) ++ "}"%char :: tail)
           (p5 := json.members_text (kv :: kvs) ++ "}"%char :: tail).
    + rewrite IH; [reflexivity | discriminate | exact Hvalid | simpl in *; lia].
    + apply unquote_quote, Hk.
    + apply (parse_value_string v _ fuel Hv).
Qed.

Lemma parse_value_Marshal_map (m : option (gmap string string))
    (fuel : nat) (tail : list ascii) :
  Forall valid_entry (json.sorted_entries (default ∅ m)) ->
  (length (json.sorted_entries (default ∅ m)) + 1 < fuel)%nat ->
  json.parse_value fuel (json.Marshal_map m ++ tail)
  = Some (json.value_of_map m, tail).
Proof.
  intros Hvalid Hfuel. destruct fuel as [|fuel]; [lia|].
  destruct m as [m|]; [|reflexivity].
  unfold json.Marshal_map, json.value_of_map. simpl default in *.
  destruct (json.sorted_entries m) as [|kv kvs] eqn:E.
  - reflexivity.
  - rewrite <- !app_assoc.
    destruct (members_text_head (kv :: kvs) (json.lit "}" ++ tail)) as [p Hp];
      [discriminate|].
    change (json.lit "{" ++ json.members_text (kv :: kvs) ++ json.lit "}" ++ tail)
      with ("{"%char :: (json.members_text (kv :: kvs) ++ json.lit "}" ++ tail)).
    rewrite Hp. apply parse_value_braces. rewrite <- Hp.
    apply parse_members_text; [discriminate | exact Hvalid | simpl in *; lia].
Qed.

Lemma members_text_length (kvs : list (string * string)) :
  (length kvs <= length (json.members_text kvs))%nat.
Proof.
  induction kvs as [|[k v] [|kv kvs] IH].
  - simpl. lia.
  - cbn [json.members_text]. rewrite !length_app. simpl. lia.
  - rewrite members_text_cons, !length_app. simpl length at 1.
    change (length (json.lit ":")) with 1%nat.
    change (length (json.lit ",")) with 1%nat.
    simpl length in IH at 1. lia.
Qed.

Lemma Marshal_map_length (m : option (gmap string string)) :
  (length (json.sorted_entries (default ∅ m)) + 2 <= length (json.Marshal_map m))%nat.
Proof.
  destruct m as [m|].
  - unfold json.Marshal_map. rewrite !length_app.
    pose proof (members_text_length (json.sorted_entries m)). simpl. lia.
  - simpl default. unfold json.sorted_entries. rewrite map_to_list_empty.
    simpl. lia.
Qed.

Lemma sorted_entries_valid (m : gmap string string) :
  Forall valid_entry (map_to_list m) ->
  Forall valid_entry (json.sorted_entries m).
Proof.
  intros H. unfold json.sorted_entries. rewrite merge_sort_Permutation. exact H.
Qed.

Lemma parse_members_Info (vol : volume.Info) (fuel : nat) (tail : list ascii) :
  utf8_text vol ->
  (length (json.sorted_entries (default ∅ (volume.Parameters vol))) + 5 < fuel)%nat ->
  json.parse_members fuel
    (json.quote "ID" ++ json.lit ":" ++ json.quote (volume.ID vol) ++ json.lit ","
       ++ json.quote "Name" ++ json.lit ":" ++ json.quote (volume.Name vol)
       ++ json.lit ","
       ++ json.quote "SizeBytes" ++ json.lit ":"
       ++ strconv.FormatInt (volume.SizeBytes vol) ++ json.lit ","
       ++ json.quote "Parameters" ++ json.lit ":"
       ++ json.Marshal_map (volume.Parameters vol) ++ "}"%char :: tail)
  = Some ([("ID", json.JString (volume.ID vol));
           ("Name", json.JString (volume.Name vol));
           ("SizeBytes", json.JNumber (strconv.FormatInt (volume.SizeBytes vol)));
           ("Parameters", json.value_of_map (volume.Parameters vol))],
          tail).
Proof.
  intros (Hid & Hname & Hparams) Hfuel.
  destruct fuel as [|[|[|[|fuel]]]]; try lia.
  rewrite member_text.
  erewrite parse_members_comma;
    [| apply unquote_quote; reflexivity | apply parse_value_string, Hid ].
  rewrite member_text.
  erewrite parse_members_comma;
    [| apply unquote_quote; reflexivity | apply parse_value_string, Hname ].
  rewrite member_text.
  erewrite parse_members_comma;
    [| apply unquote_quote; reflexivity | apply parse_value_number ].
  rewrite member_text.
  erewrite parse_members_last;
    [ reflexivity | apply unquote_quote; reflexivity | ].
  apply parse_value_Marshal_map; [|lia].
  destruct (volume.Parameters vol) as [m|]; simpl default in *.
  - apply sorted_entries_valid, Hparams.
  - unfold json.sorted_entries. rewrite map_to_list_empty. constructor.
Qed.

Lemma parse_Marshal (vol : volume.Info) :
  utf8_text vol ->
  json.parse (json.Marshal vol).1
  = Some (json.JObject
            [("ID", json.JString (volume.ID vol));
             ("Name", json.JString (volume.Name vol));
             ("SizeBytes", json.JNumber (strconv.FormatInt (volume.SizeBytes vol)));
             ("Parameters", json.value_of_map (volume.Parameters vol))]).
Proof.
  intros Hvol. unfold json.parse.
  pose proof (Marshal_map_length (volume.Parameters vol)) as Hlen.
  assert (Hfuel : (length (json.sorted_entries (default ∅ (volume.Parameters vol)))
                   + 5 < length (json.Marshal vol).1)%nat).
  { unfold json.Marshal. cbn [fst]. rewrite !length_app. simpl. lia. }
  revert Hfuel. generalize (length (json.Marshal vol).1) as fuel. intros fuel Hfuel.
  pose proof (parse_members_Info vol fuel [] Hvol Hfuel) as Hm.
  rewrite member_text in Hm.
  unfold json.Marshal. cbn [fst].
  change (json.lit "}") with ["}"%char].
  rewrite member_text.
  change (json.lit "{" ++ ?x) with ("{"%char :: x).
  rewrite (parse_value_braces _ _ _ _ Hm). reflexivity.
Qed.

Lemma store_entries (kvs : list (string * string)) (acc : gmap string string) :
  fold_left json.store_entry (map (fun kv => (kv.1, json.JString kv.2)) kvs) (Some acc)
  = Some (fold_left (fun a kv => <[kv.1 := kv.2]> a) kvs acc).
Proof.
  revert acc. induction kvs as [|kv kvs IH]; intros acc; [reflexivity|].
  simpl. apply IH.
Qed.

Lemma insert_all_entries (m : gmap string string) (kvs : list (string * string)) :
  kvs ≡ₚ map_to_list m ->
  fold_left (fun a kv => <[kv.1 := kv.2]> a) kvs ∅ = m.
Proof.
  intros Hperm.
  assert (Hrev : rev kvs ≡ₚ map_to_list m)
    by (rewrite <- Hperm; symmetry; apply Permutation_rev).
  rewrite <- (fold_left_rev_right (fun kv a => <[kv.1 := kv.2]> a)).
  change (fold_right (fun kv a => <[kv.1 := kv.2]> a) ∅ (rev kvs))
    with (list_to_map (M := gmap string string) (rev kvs)).
  rewrite (list_to_map_proper (rev kvs) (map_to_list m)).
  - apply list_to_map_to_list.
  - rewrite Hrev. apply NoDup_fst_map_to_list.
  - exact Hrev.
Qed.

Lemma store_map_value_of_map (m : option (gmap string string)) :
  json.store_map (json.value_of_map m) (Some ∅) = Some m.
Proof.
  destruct m as [m|]; [|reflexivity].
  unfold json.store_map, json.value_of_map. simpl default.
  rewrite store_entries, (insert_all_entries m); [reflexivity|].
  apply merge_sort_Permutation.
Qed.

(** Decoding the encoding of a volume gives the volume back. *)
Lemma Unmarshal_Marshal (vol : volume.Info) :
  utf8_text vol ->
  int64 (volume.SizeBytes vol) ->
  json.Unmarshal (json.Marshal vol).1 (volume.mkInfo "" "" 0 (Some ∅)) = Some vol.
Proof.
  intros Hvol Hsize. unfold json.Unmarshal. rewrite (parse_Marshal _ Hvol).
  cbn [fold_left]. unfold json.store_member. cbn [fst snd].
  change (json.find_field "ID") with (Some json.FID).
  change (json.find_field "Name") with (Some json.FName).
  change (json.find_field "SizeBytes") with (Some json.FSizeBytes).
  change (json.find_field "Parameters") with (Some json.FParameters).
  cbn [json.store_string json.store_int64 volume.set_ID volume.set_Name
       volume.ID volume.Name volume.SizeBytes volume.Parameters].
  rewrite (ParseInt_FormatInt _ Hsize).
  cbn [volume.set_SizeBytes volume.ID volume.Name volume.SizeBytes
       volume.Parameters].
  rewrite store_map_value_of_map.
  destruct vol. reflexivity.
Qed.

(** ** The annotation round trip *)

Lemma resDeploymentConfig_annotation (s : Linstor) (vol : volume.Info)
    (kvs : list (string * string)) (cfg : lc.ResourceDeploymentConfig) :
  resDeploymentConfigFromVolumeInfo s vol kvs = (Some cfg, None) ->
  annotation s cfg = Some (string_of_bytes (json.Marshal vol).1).
Proof.
  unfold resDeploymentConfigFromVolumeInfo. cbv zeta.
  match goal with
  | |- context [applyParameters kvs ?c] =>
    destruct (applyParameters kvs c) as [cfg' [err|]]
  end; [discriminate|].
  unfold json.Marshal. intros H. injection H as <-.
  unfold annotation. cbn [lc.Annotations lc.set_Annotations].
  apply lookup_insert_eq.
Qed.

(** C1, as the code has it: for a volume with a non-empty [Name] and
    well-formed UTF-8 strings, for which the translation succeeds, decoding a
    resource definition whose properties carry the annotation entry written
    by the translation yields the volume, field for field. *)
Theorem annotation_round_trip (s : Linstor) (vol : volume.Info)
    (kvs : list (string * string)) (cfg : lc.ResourceDeploymentConfig)
    (value : string) (rd : lc.ResDef) :
  int64 (volume.SizeBytes vol) ->
  utf8_text vol ->
  volume.Name vol <> "" ->
  ranges (volume.Parameters vol) kvs ->
  resDeploymentConfigFromVolumeInfo s vol kvs = (Some cfg, None) ->
  annotation s cfg = Some value ->
  annotated s rd value ->
  resDefToVolume s rd = (Some vol, None).
Proof.
  intros Hsize Htext Hname _ Hcfg Hann Hrd.
  rewrite (resDeploymentConfig_annotation _ _ _ _ Hcfg) in Hann.
  assert (Hvalue : value = string_of_bytes (json.Marshal vol).1) by congruence.
  subst value. clear Hann.
  rewrite (resDefToVolume_annotated _ _ _ Hrd).
  unfold bytes_of_string, string_of_bytes.
  rewrite list_ascii_of_string_of_list_ascii.
  rewrite (Unmarshal_Marshal _ Htext Hsize).
  destruct (String.eqb_spec (volume.Name vol) ""); [contradiction|reflexivity].
Qed.

Lemma annotation_round_trip_witness :
  resDefToVolume client rd_csi_myname = (Some vol_csi_myname, None).
Proof.
  assert (Hcfg : exists cfg,
            resDeploymentConfigFromVolumeInfo client vol_csi_myname
              [("autoplace", "2")] = (Some cfg, None)).
  { eexists. vm_compute. reflexivity. }
  destruct Hcfg as [cfg Hcfg].
  apply (annotation_round_trip client vol_csi_myname [("autoplace", "2")] cfg
           (string_of_bytes (json.Marshal vol_csi_myname).1)).
  - unfold int64. simpl. lia.
  - split; [vm_compute; reflexivity|]. split; [vm_compute; reflexivity|].
    assert (E : map_to_list (default ∅ (volume.Parameters vol_csi_myname))
                = [("autoplace", "2")]) by (vm_compute; reflexivity).
    rewrite E. constructor; [split; vm_compute; reflexivity | constructor].
  - discriminate.
  - unfold ranges. vm_compute. reflexivity.
  - exact Hcfg.
  - exact (resDeploymentConfig_annotation _ _ _ _ Hcfg).
  - exists [lc.mkProp "DrbdPrimarySetOn" "NODE-A"], []. split; [reflexivity|].
    repeat constructor. discriminate.
Defined.

(** C1 as stated fails: a volume with an empty [Name] is translated and
    annotated, and decoding the annotated resource definition returns an
    error instead of the volume. *)
Lemma annotation_round_trip_nameless :
  exists cfg value,
    resDeploymentConfigFromVolumeInfo client vol_nameless [] = (Some cfg, None)
    /\ annotation client cfg = Some value
    /\ annotated client rd_nameless value
    /\ resDefToVolume client rd_nameless = (None, Some ErrNoResourceName)
    /\ resDefToVolume client rd_nameless <> (Some vol_nameless, None).
Proof.
  eexists. eexists. split; [reflexivity|]. split; [reflexivity|]. split.
  - exists [], []. split; [reflexivity | constructor].
  - split; [vm_compute; reflexivity | vm_compute; discriminate].
Qed.

(** The two other conditions are needed as well: a name that is not UTF-8
    comes back as U+FFFD, and a volume whose [autoplace] parameter is not a
    number gets no annotation at all. *)
Lemma annotation_round_trip_not_utf8 :
  json.Unmarshal (json.Marshal vol_latin1).1 (volume.mkInfo "" "" 0 (Some ∅))
  = Some (volume.set_Name
            (String (byte_of 239) (String (byte_of 191)
               (String (byte_of 189) EmptyString)))
            vol_latin1).
Proof. vm_compute. reflexivity. Qed.

Lemma resDeploymentConfig_autoplace_many :
  resDeploymentConfigFromVolumeInfo client vol_autoplace_many
    [("AutoPlace", "many")]
  = (None, Some (ErrParseInteger "many")).
Proof. vm_compute. reflexivity. Qed.

(** * Further properties *)

(** ** Names, byte by byte *)

Lemma byte_val_bounds (c : ascii) : 0 <= byte_val c < 256.
Proof. unfold byte_val. pose proof (N_ascii_bounded c). lia. Qed.

Lemma byte_val_byte_of (z : Z) : 0 <= z < 256 -> byte_val (byte_of z) = z.
Proof.
  intros H. unfold byte_of, byte_val. rewrite N_ascii_embedding by lia. lia.
Qed.

Lemma DecodeRune_rune_of_lead (b0 : ascii) (p1 : list ascii) :
  utf8.RuneSelf <= byte_val b0 ->
  utf8.RuneSelf <= (utf8.DecodeRune (b0 :: p1)).1.
Proof.
  intros H0. unfold utf8.DecodeRune, utf8.RuneSelf, utf8.RuneError in *.
  destruct (Z.ltb_spec (byte_val b0) 128); [lia|].
  destruct (between 194 223 (byte_val b0)) eqn:E1.
  { destruct p1 as [|b1 p2]; [simpl; lia|].
    destruct (utf8.cont b1) eqn:E2; [|simpl; lia].
    split_between. simpl. lia. }
  destruct (between 224 239 (byte_val b0)) eqn:E2.
  { destruct p1 as [|b1 [|b2 p3]]; try (simpl; lia).
    destruct (between (utf8.second_lo (byte_val b0)) (utf8.second_hi (byte_val b0))
                (byte_val b1) && utf8.cont b2) eqn:E3; [|simpl; lia].
    split_between. simpl.
    unfold utf8.second_lo in *.
    destruct (Z.eqb_spec (byte_val b0) 224); destruct (Z.eqb_spec (byte_val b0) 240);
      lia. }
  destruct (between 240 244 (byte_val b0)) eqn:E3.
  { destruct p1 as [|b1 [|b2 [|b3 p4]]]; try (simpl; lia).
    destruct (between (utf8.second_lo (byte_val b0)) (utf8.second_hi (byte_val b0))
                (byte_val b1) && utf8.cont b2 && utf8.cont b3) eqn:E4;
      [|simpl; lia].
    split_between. simpl.
    unfold utf8.second_lo in *.
    destruct (Z.eqb_spec (byte_val b0) 224); destruct (Z.eqb_spec (byte_val b0) 240);
      lia. }
  simpl. lia.
Qed.

Lemma DecodeRune_size (p : list ascii) :
  p <> [] -> (1 <= (utf8.DecodeRune p).2)%nat.
Proof.
  destruct p as [|b0 p1]; [contradiction|]. intros _. unfold utf8.DecodeRune.
  repeat match goal with
         | |- context [if ?c then _ else _] => destruct c
         | |- context [match ?l with [] => _ | _ :: _ => _ end] => destruct l
         end; simpl; lia.
Qed.

Lemma runes_go_cons (n : nat) (b0 : ascii) (p1 : list ascii) :
  utf8.runes_go (S n) (b0 :: p1)
  = (utf8.DecodeRune (b0 :: p1)).1
      :: utf8.runes_go n (drop (utf8.DecodeRune (b0 :: p1)).2 (b0 :: p1)).
Proof.
  change (utf8.runes_go (S n) (b0 :: p1))
    with (let '(r, size) := utf8.DecodeRune (b0 :: p1) in
          r :: utf8.runes_go n (drop size (b0 :: p1))).
  destruct (utf8.DecodeRune (b0 :: p1)). reflexivity.
Qed.

(** The runes of ASCII text are its bytes. *)
Lemma runes_go_ascii (p : list ascii) :
  forall n, (length p <= n)%nat -> ascii_bytes p ->
  utf8.runes_go n p = map byte_val p.
Proof.
  induction p as [|c p IH]; intros n Hn Hp.
  - destruct n; reflexivity.
  - destruct n as [|n]; [simpl in Hn; lia|].
    apply Forall_cons in Hp as [Hc Hp].
    rewrite runes_go_cons, DecodeRune_ascii by (apply Z.ltb_lt; exact Hc).
    simpl. f_equal. rewrite drop_0. apply IH; [simpl in Hn; lia | exact Hp].
Qed.

(** Runes below [RuneSelf] come from single bytes. *)
Lemma runes_go_small (n : nat) :
  forall p, (length p <= n)%nat ->
  Forall (fun r => r < utf8.RuneSelf) (utf8.runes_go n p) ->
  ascii_bytes p.
Proof.
  induction n as [|n IH]; intros p Hn Hr.
  - destruct p; [constructor | simpl in Hn; lia].
  - destruct p as [|c p]; [constructor|].
    rewrite runes_go_cons in Hr. apply Forall_cons in Hr as [Hc Hr].
    destruct (Z.ltb_spec (byte_val c) utf8.RuneSelf) as [Hlt|Hge].
    + rewrite DecodeRune_ascii in Hr by (apply Z.ltb_lt; exact Hlt).
      simpl in Hr. rewrite drop_0 in Hr.
      constructor; [exact Hlt|]. apply IH; [simpl in Hn; lia | exact Hr].
    + pose proof (DecodeRune_rune_of_lead c p Hge). lia.
Qed.

Lemma name_char_small (r : Z) : regexp.name_char r = true -> r < utf8.RuneSelf.
Proof.
  unfold regexp.name_char, regexp.alpha, between, utf8.RuneSelf.
  rewrite !orb_true_iff, !andb_true_iff, !Z.leb_le, !Z.eqb_eq. lia.
Qed.

Lemma name_start_char (r : Z) : regexp.name_start r = true -> regexp.name_char r = true.
Proof.
  unfold regexp.name_start, regexp.name_char.
  rewrite !orb_true_iff. tauto.
Qed.

Lemma runes_of_ascii (s : string) :
  ascii_bytes (bytes_of_string s) ->
  utf8.runes s = map byte_val (bytes_of_string s).
Proof. intros H. unfold utf8.runes. apply runes_go_ascii; [lia | exact H]. Qed.

Lemma runes_small_ascii (s : string) :
  Forall (fun r => r < utf8.RuneSelf) (utf8.runes s) ->
  ascii_bytes (bytes_of_string s).
Proof. intros H. apply (runes_go_small _ _ (le_n _) H). Qed.

Lemma name_chars_ascii (p : list ascii) :
  Forall (fun b => regexp.name_char (byte_val b) = true) p -> ascii_bytes p.
Proof.
  intros H. eapply Forall_impl; [exact H|]. intros b Hb.
  apply name_char_small, Hb.
Qed.

Lemma MatchString_name_bytes (s : string) :
  regexp.MatchString_name s = true
  <-> exists c rest,
        bytes_of_string s = c :: rest
        /\ regexp.name_start (byte_val c) = true
        /\ Forall (fun b => regexp.name_char (byte_val b) = true) rest
        /\ (1 <= length rest <= 47)%nat.
Proof.
  unfold regexp.MatchString_name. split.
  - intros H.
    assert (Hsmall : Forall (fun r => r < utf8.RuneSelf) (utf8.runes s)).
    { destruct (utf8.runes s) as [|r rs]; [discriminate|].
      apply andb_true_iff in H as [H _]. apply andb_true_iff in H as [H _].
      apply andb_true_iff in H as [Hr Hrs].
      constructor; [apply name_char_small, name_start_char, Hr|].
      apply Forall_forall. intros x Hx. apply name_char_small.
      rewrite forallb_forall in Hrs. apply Hrs. apply list_elem_of_In, Hx. }
    apply runes_small_ascii in Hsmall. rewrite (runes_of_ascii _ Hsmall) in H.
    destruct (bytes_of_string s) as [|c rest]; [discriminate|].
    cbn [map] in H. rewrite !andb_true_iff in H.
    destruct H as [[[Hc Hrest] H1] H47].
    exists c, rest. split; [reflexivity|]. split; [exact Hc|]. split.
    + apply Forall_forall. intros b Hb. rewrite forallb_forall in Hrest.
      apply Hrest, in_map, list_elem_of_In, Hb.
    + rewrite length_map in H1, H47.
      apply Nat.leb_le in H1, H47. lia.
  - intros (c & rest & Hs & Hc & Hrest & Hlen).
    assert (Ha : ascii_bytes (bytes_of_string s)).
    { rewrite Hs. apply name_chars_ascii. constructor; [|exact Hrest].
      apply name_start_char, Hc. }
    rewrite (runes_of_ascii _ Ha), Hs. cbn [map]. rewrite length_map.
    rewrite !andb_true_iff. repeat split; try (apply Nat.leb_le; lia).
    + exact Hc.
    + apply forallb_forall. intros r Hr. apply in_map_iff in Hr as (b & <- & Hb).
      rewrite Forall_forall in Hrest. apply Hrest, list_elem_of_In, Hb.
Qed.

Lemma MatchString_alpha_bytes (s : string) :
  ascii_bytes (bytes_of_string s) ->
  regexp.MatchString_alpha s = true
  <-> Exists (fun b => regexp.alpha (byte_val b) = true) (bytes_of_string s).
Proof.
  intros Ha. unfold regexp.MatchString_alpha. rewrite (runes_of_ascii _ Ha).
  rewrite existsb_exists, Exists_exists. split.
  - intros (r & Hr & Halpha). apply in_map_iff in Hr as (b & <- & Hb).
    exists b. split; [apply list_elem_of_In, Hb | exact Halpha].
  - intros (b & Hb & Halpha). exists (byte_val b).
    split; [apply in_map, list_elem_of_In, Hb | exact Halpha].
Qed.

Lemma validResourceName_legal (s : string) :
  validResourceName s = None <-> legal_name s.
Proof.
  unfold validResourceName, legal_name. split.
  - destruct (String.eqb_spec s "all") as [|Hall]; [discriminate|].
    destruct (regexp.MatchString_alpha s) eqn:Halpha; [|discriminate].
    destruct (regexp.MatchString_name s) eqn:Hname; [|discriminate].
    intros _. split; [exact Hall|].
    apply MatchString_name_bytes in Hname as (c & rest & Hs & Hc & Hrest & Hlen).
    exists c, rest. repeat split; try assumption; try lia.
    rewrite <- Hs. apply MatchString_alpha_bytes; [|exact Halpha].
    rewrite Hs. apply name_chars_ascii. constructor; [|exact Hrest].
    apply name_start_char, Hc.
  - intros (Hall & c & rest & Hs & Hc & Hrest & Hlen & Halpha).
    destruct (String.eqb_spec s "all") as [|_]; [contradiction|].
    assert (Ha : ascii_bytes (bytes_of_string s)).
    { rewrite Hs. apply name_chars_ascii. constructor; [|exact Hrest].
      apply name_start_char, Hc. }
    rewrite <- Hs in Halpha. apply (MatchString_alpha_bytes _ Ha) in Halpha.
    rewrite Halpha. simpl.
    assert (regexp.MatchString_name s = true) as ->; [|reflexivity].
    apply MatchString_name_bytes. exists c, rest. repeat split; try assumption; lia.
Qed.

(** X3: a name is valid exactly when, byte for byte, it is legal: it is not
    ["all"], has 2 to 48 bytes, starts with a letter or an underscore, goes
    on with letters, digits, hyphens and underscores, and holds a letter. *)
Theorem validResourceName_bytes (s : string) :
  validResourceName s = None <-> legal_name s.
Proof. exact (validResourceName_legal s). Qed.

Lemma bytes_of_string_of_bytes (p : list ascii) :
  bytes_of_string (string_of_bytes p) = p.
Proof. apply list_ascii_of_string_of_list_ascii. Qed.

Lemma Replace_bytes (s : string) :
  bytes_of_string (regexp.ReplaceAllLiteralString_nonname s)
  = map (fun r => if regexp.name_char r then byte_of r else "_"%char) (utf8.runes s).
Proof. apply bytes_of_string_of_bytes. Qed.

Lemma Replace_name_chars (s : string) :
  Forall (fun b => regexp.name_char (byte_val b) = true)
    (bytes_of_string (regexp.ReplaceAllLiteralString_nonname s)).
Proof.
  rewrite Replace_bytes. apply Forall_forall. intros b Hb.
  apply list_elem_of_In, in_map_iff in Hb as (r & <- & _).
  destruct (regexp.name_char r) eqn:E; [|reflexivity].
  rewrite byte_val_byte_of; [exact E|].
  pose proof (name_char_small _ E) as Hr. revert E.
  unfold regexp.name_char, regexp.alpha, between, utf8.RuneSelf in *.
  rewrite !orb_true_iff, !andb_true_iff, !Z.leb_le, !Z.eqb_eq. lia.
Qed.

Lemma Replace_length (s : string) :
  length (bytes_of_string (regexp.ReplaceAllLiteralString_nonname s))
  = length (utf8.runes s).
Proof. rewrite Replace_bytes. apply length_map. Qed.

Lemma runes_length_ascii (s : string) :
  ascii_bytes (bytes_of_string s) ->
  length (utf8.runes s) = length (bytes_of_string s).
Proof. intros H. rewrite (runes_of_ascii _ H). apply length_map. Qed.

Lemma validResourceName_rune_count (s : string) :
  validResourceName s = None -> (2 <= length (utf8.runes s) <= 48)%nat.
Proof.
  unfold validResourceName.
  destruct (String.eqb s "all"); [discriminate|].
  destruct (regexp.MatchString_alpha s); [|discriminate].
  destruct (regexp.MatchString_name s) eqn:E; [|discriminate]. intros _.
  unfold regexp.MatchString_name in E.
  destruct (utf8.runes s) as [|r rs]; [discriminate|].
  rewrite !andb_true_iff, !Nat.leb_le in E. simpl. lia.
Qed.

Lemma LS_bytes (t : string) :
  bytes_of_string ("LS_" +:+ t)
  = "L"%char :: "S"%char :: "_"%char :: bytes_of_string t.
Proof. reflexivity. Qed.

Lemma LS_Replace_legal (s : string) :
  (length (utf8.runes s) <= 45)%nat ->
  legal_name ("LS_" +:+ regexp.ReplaceAllLiteralString_nonname s).
Proof.
  intros Hlen. split; [intros H; discriminate H|].
  eexists _, _. split; [apply LS_bytes|]. split; [reflexivity|]. split.
  - constructor; [reflexivity|]. constructor; [reflexivity|].
    apply Replace_name_chars.
  - split.
    + simpl. rewrite Replace_length. lia.
    + constructor. reflexivity.
Qed.

(** X5: canonicalisation succeeds on every name of at most 45 runes. *)
Theorem linstorifyResourceName_short (name : string) :
  (length (utf8.runes name) <= 45)%nat ->
  (linstorifyResourceName name).2 = None.
Proof.
  intros Hlen. unfold linstorifyResourceName.
  destruct (validResourceName name); [|reflexivity].
  destruct (validResourceName (regexp.ReplaceAllLiteralString_nonname name));
    [|reflexivity].
  rewrite (proj2 (validResourceName_legal _) (LS_Replace_legal _ Hlen)).
  reflexivity.
Qed.

Lemma linstorifyResourceName_short_witness :
  (linstorifyResourceName "9").2 = None.
Proof. apply linstorifyResourceName_short. vm_compute. lia. Defined.

(** X6: canonicalisation fails on every name of more than 48 runes. *)
Theorem linstorifyResourceName_long (name : string) :
  (48 < length (utf8.runes name))%nat ->
  linstorifyResourceName name = ("", Some (ErrLinstorify name)).
Proof.
  intros Hlen. unfold linstorifyResourceName.
  assert (Hrep : length (utf8.runes (regexp.ReplaceAllLiteralString_nonname name))
                 = length (utf8.runes name)).
  { rewrite runes_length_ascii, Replace_length; [reflexivity|].
    apply name_chars_ascii, Replace_name_chars. }
  assert (HLS : length (utf8.runes
                  ("LS_" +:+ regexp.ReplaceAllLiteralString_nonname name))
                = (3 + length (utf8.runes name))%nat).
  { rewrite runes_length_ascii, LS_bytes; [simpl; rewrite Replace_length; lia|].
    rewrite LS_bytes. apply name_chars_ascii.
    repeat (constructor; [reflexivity|]). apply Replace_name_chars. }
  destruct (validResourceName name) eqn:E1;
    [|apply validResourceName_rune_count in E1; lia].
  destruct (validResourceName (regexp.ReplaceAllLiteralString_nonname name)) eqn:E2;
    [|apply validResourceName_rune_count in E2; lia].
  destruct (validResourceName
              ("LS_" +:+ regexp.ReplaceAllLiteralString_nonname name)) eqn:E3;
    [reflexivity | apply validResourceName_rune_count in E3; lia].
Qed.

Lemma linstorifyResourceName_long_witness :
  linstorifyResourceName name_49 = ("", Some (ErrLinstorify name_49)).
Proof. apply linstorifyResourceName_long. vm_compute. lia. Defined.

(** X4: what canonicalisation returns is a legal name. *)
Theorem linstorifyResourceName_legal (x y : string) :
  linstorifyResourceName x = (y, None) -> legal_name y.
Proof.
  intros H. apply validResourceName_legal, (linstorifyResourceName_valid x), H.
Qed.

Lemma linstorifyResourceName_legal_witness : legal_name "my_volume_name".
Proof.
  apply (linstorifyResourceName_legal "my.volume!name" "my_volume_name").
  vm_compute. reflexivity.
Defined.

(** What canonicalisation returns is the name, its substitution, or the
    substitution behind [LS_]. *)
Lemma linstorifyResourceName_shape (x y : string) :
  linstorifyResourceName x = (y, None) ->
  y = x
  \/ y = regexp.ReplaceAllLiteralString_nonname x
  \/ y = "LS_" +:+ regexp.ReplaceAllLiteralString_nonname x.
Proof.
  unfold linstorifyResourceName.
  repeat match goal with
         | |- context [match validResourceName ?n with _ => _ end] =>
           destruct (validResourceName n)
         end; intros H; inversion H; auto.
Qed.

(** ** More on capacity rounding *)

(** X1: a successful allocation holds the request, is at least the minimum, is
    the least such number of KiB, and fits the limit. *)
Theorem AllocationSizeKiB_fits (requiredBytes limitBytes : Z) (size : Z) :
  AllocationSizeKiB requiredBytes limitBytes = (size, None) ->
  requiredBytes <= size * 1024
  /\ 4096 <= size * 1024
  /\ (size - 1) * 1024 < Z.max requiredBytes 4096
  /\ (limitBytes <> 0 -> size * 1024 <= limitBytes).
Proof.
  rewrite AllocationSizeKiB_unfold. cbv zeta.
  destruct ((4096 >? limitBytes) && negb (limitBytes =? 0)); [discriminate|].
  destruct (Z.gtb_spec (rounded_allocation_KiB requiredBytes * 1024) limitBytes)
    as [Hgt|Hle];
    destruct (Z.eqb_spec limitBytes 0) as [Hz|Hz]; simpl;
    try discriminate; intros H; injection H as <-;
    (assert (Hround :
       Z.max requiredBytes 4096 <= rounded_allocation_KiB requiredBytes * 1024
       /\ (rounded_allocation_KiB requiredBytes - 1) * 1024
          < Z.max requiredBytes 4096)
       by (unfold rounded_allocation_KiB; cbv zeta;
           Z.div_mod_to_equations; lia));
    repeat split; lia.
Qed.

Lemma AllocationSizeKiB_fits_witness :
  4097 <= 5 * 1024 /\ 4096 <= 5 * 1024 /\ (5 - 1) * 1024 < Z.max 4097 4096
  /\ (8192 <> 0 -> 5 * 1024 <= 8192).
Proof.
  apply (AllocationSizeKiB_fits 4097 8192 5). vm_compute. reflexivity.
Defined.

(** The size returned grows with the request. *)
Lemma AllocationSizeKiB_monotone (r1 r2 limitBytes : Z) :
  r1 <= r2 ->
  (AllocationSizeKiB r1 limitBytes).1 <= (AllocationSizeKiB r2 limitBytes).1.
Proof.
  intros Hle. rewrite !AllocationSizeKiB_unfold. cbv zeta.
  assert (Hr : rounded_allocation_KiB r1 <= rounded_allocation_KiB r2).
  { unfold rounded_allocation_KiB. cbv zeta. Z.div_mod_to_equations. lia. }
  destruct ((4096 >? limitBytes) && negb (limitBytes =? 0)); [simpl; lia|].
  repeat match goal with
         | |- context [if ?c then _ else _] => destruct c
         end; simpl; exact Hr.
Qed.

Lemma AllocationSizeKiB_monotone_witness :
  (AllocationSizeKiB 100 0).1 <= (AllocationSizeKiB 5000 0).1.
Proof. apply AllocationSizeKiB_monotone. lia. Defined.

(** X2: every request of at most 4096 bytes (zero and negative ones too) is
    answered like a request of 4096 bytes. *)
Theorem AllocationSizeKiB_below_minimum (requiredBytes limitBytes : Z) :
  requiredBytes <= 4096 ->
  AllocationSizeKiB requiredBytes limitBytes = AllocationSizeKiB 4096 limitBytes.
Proof.
  intros Hle. rewrite !AllocationSizeKiB_unfold. cbv zeta.
  assert (Hr : rounded_allocation_KiB requiredBytes = 4).
  { unfold rounded_allocation_KiB. cbv zeta. rewrite Z.max_r by lia. reflexivity. }
  assert (H4 : rounded_allocation_KiB 4096 = 4) by reflexivity.
  rewrite Hr, H4. change (4 * 1024) with 4096.
  destruct ((4096 >? limitBytes) && negb (limitBytes =? 0)); reflexivity.
Qed.

Lemma AllocationSizeKiB_below_minimum_witness :
  AllocationSizeKiB (-5) 8192 = AllocationSizeKiB 4096 8192.
Proof. apply AllocationSizeKiB_below_minimum. lia. Defined.

(** ** More on decoding *)

(** A member name is matched up to the folding of the decoder: letter case
    in ASCII, and the long s for [s]; a dotted capital I is no [i].  A
    member whose name folds to [SizeBytes] and whose value is a string is a
    decoding error. *)
Lemma find_field_examples :
  json.find_field "sizebytes" = Some json.FSizeBytes
  /\ json.find_field member_long_s = Some json.FSizeBytes
  /\ json.find_field (string_of_bytes (EncodeRune 0x130 ++ json.lit "D")) = None
  /\ json.Unmarshal
       (json.lit "{" ++ [json.dquote] ++ bytes_of_string member_long_s
        ++ [json.dquote] ++ json.lit ":" ++ [json.dquote] ++ json.lit "x"
        ++ [json.dquote] ++ json.lit "}")
       (volume.mkInfo "" "" 0 (Some ∅))
     = None
  /\ json.Unmarshal
       (json.lit "{" ++ [json.dquote] ++ bytes_of_string member_long_s
        ++ [json.dquote] ++ json.lit ":7}")
       (volume.mkInfo "" "" 0 (Some ∅))
     = Some (volume.mkInfo "" "" 7 (Some ∅)).
Proof. repeat split; vm_compute; reflexivity. Qed.

Lemma resDefToVolume_props_result (s : Linstor) (props : list lc.RscDfnProp)
    (vol : option volume.Info) (err : option error) :
  resDefToVolume_props s props = (vol, err) ->
  (vol = None \/ err = None)
  /\ (forall v, vol = Some v -> volume.Name v <> "").
Proof.
  induction props as [|p props IH]; simpl.
  - intros H. injection H as <- <-. split; [auto | discriminate].
  - destruct (String.eqb (lc.Key p) ("Aux/" +:+ annotationsKey s)); [|exact IH].
    destruct (json.Unmarshal _ _) as [v|].
    + destruct (String.eqb_spec (volume.Name v) "") as [E|E];
        intros H; injection H as <- <-; (split; [auto|]).
      * discriminate.
      * intros v' Hv'. injection Hv' as <-. exact E.
    + intros H. injection H as <- <-. split; [auto | discriminate].
Qed.

(** X7: a decoded volume always has a name, and a result never carries both a
    volume and an error. *)
Theorem resDefToVolume_named (s : Linstor) (resDef : lc.ResDef)
    (vol : option volume.Info) (err : option error) :
  resDefToVolume s resDef = (vol, err) ->
  (vol = None \/ err = None)
  /\ (forall v, vol = Some v -> volume.Name v <> "").
Proof. apply resDefToVolume_props_result. Qed.

Lemma resDefToVolume_named_witness :
  (Some vol_csi_myname = None \/ @None error = None)
  /\ (forall v, Some vol_csi_myname = Some v -> volume.Name v <> "").
Proof.
  apply (resDefToVolume_named client rd_csi_myname). vm_compute. reflexivity.
Defined.

(** Decoding looks at the first annotation property only: neither the
    resource name nor any other property changes the result. *)
Lemma resDefToVolume_first_annotation (s : Linstor) (resDef : lc.ResDef)
    (value : string) :
  annotated s resDef value ->
  resDefToVolume s resDef
  = resDefToVolume s (lc.mkResDef "" [lc.mkProp (auxKey s) value]).
Proof.
  intros H. rewrite (resDefToVolume_annotated _ _ _ H).
  symmetry. apply resDefToVolume_annotated.
  exists [], []. split; [reflexivity | constructor].
Qed.

(** An annotation that does not parse as a volume is an error. *)
Lemma resDefToVolume_corrupt (s : Linstor) (resDef : lc.ResDef) (value : string) :
  annotated s resDef value ->
  json.Unmarshal (bytes_of_string value) (volume.mkInfo "" "" 0 (Some ∅)) = None ->
  resDefToVolume s resDef = (None, Some ErrUnmarshalAnnotations).
Proof.
  intros H Hbad. rewrite (resDefToVolume_annotated _ _ _ H), Hbad. reflexivity.
Qed.

(** ** More on lookups *)

Lemma GetByName_scan_sound (s : Linstor) (name : string) (list : list lc.ResDef)
    (vol : volume.Info) (err : option error) :
  GetByName_scan s name list = (Some vol, err) ->
  err = None
  /\ exists rd, In rd list
       /\ resDefToVolume s rd = (Some vol, None)
       /\ name_matches s name vol = true.
Proof.
  induction list as [|rd list IH]; simpl; [discriminate|].
  destruct (resDefToVolume s rd) as [[v|] [e|]] eqn:Hrd; try discriminate.
  - unfold name_matches.
    destruct (String.eqb (volume.Name v) name) eqn:E1.
    + intros H. injection H as <- <-. split; [reflexivity|].
      exists rd. rewrite E1. auto.
    + destruct (String.eqb (volume.Name v) (fallbackPrefix s +:+ name)) eqn:E2.
      * intros H. injection H as <- <-. split; [reflexivity|].
        exists rd. rewrite E1, E2. auto.
      * intros H. destruct (IH H) as (He & rd' & Hin & Hdec & Hm).
        split; [exact He|]. exists rd'. auto.
  - intros H. destruct (IH H) as (He & rd' & Hin & Hdec & Hm).
    split; [exact He|]. exists rd'. auto.
Qed.

(** X8: what [GetByName] returns was decoded from a listed resource definition
    and matches the query; it comes without an error. *)
Theorem GetByName_sound (s : Linstor) (name : string) (ctl : Controller)
    (vol : volume.Info) (err : option error) :
  (run (GetByName s name) ctl).1 = Returned (Some vol, err) ->
  err = None
  /\ exists rd, In rd (resourceDefinitions ctl).1
       /\ resDefToVolume s rd = (Some vol, None)
       /\ name_matches s name vol = true.
Proof.
  unfold run, GetByName, bind, ListResourceDefinitions.
  destruct (resourceDefinitions ctl) as [list [e|]]; simpl.
  - intros H. discriminate H.
  - intros H. injection H as H. apply (GetByName_scan_sound _ _ _ _ _ H).
Qed.

Lemma GetByName_sound_witness :
  @None error = None
  /\ exists rd, In rd (resourceDefinitions listing_foreign_first).1
       /\ resDefToVolume client rd = (Some vol_csi_myname, None)
       /\ name_matches client "myname" vol_csi_myname = true.
Proof.
  apply (GetByName_sound client "myname" listing_foreign_first).
  vm_compute. reflexivity.
Defined.

Lemma GetByID_scan_sound (s : Linstor) (ID : string) (list : list lc.ResDef)
    (vol : volume.Info) (err : option error) :
  GetByID_scan s ID list = Returned (Some vol, err) ->
  err = None
  /\ exists rd, In rd list
       /\ resDefToVolume s rd = (Some vol, None)
       /\ (lc.RscName rd = ID \/ volume.ID vol = ID).
Proof.
  induction list as [|rd list IH]; simpl; [discriminate|].
  destruct (resDefToVolume s rd) as [[v|] [e|]] eqn:Hrd; try discriminate.
  - destruct (String.eqb_spec (lc.RscName rd) ID) as [E1|E1].
    + intros H. injection H as <- <-. split; [reflexivity|]. exists rd. auto.
    + destruct (String.eqb_spec (volume.ID v) ID) as [E2|E2].
      * intros H. injection H as <- <-. split; [reflexivity|]. exists rd. auto.
      * intros H. destruct (IH H) as (He & rd' & Hin & Hdec & Hm).
        split; [exact He|]. exists rd'. auto.
  - destruct (String.eqb (lc.RscName rd) ID); discriminate.
Qed.

(** X9: what [GetByID] returns was decoded from a listed resource definition
    whose resource name, or whose volume's ID, is the query. *)
Theorem GetByID_sound (s : Linstor) (ID : string) (ctl : Controller)
    (vol : volume.Info) (err : option error) :
  (run (GetByID s ID) ctl).1 = Returned (Some vol, err) ->
  err = None
  /\ exists rd, In rd (resourceDefinitions ctl).1
       /\ resDefToVolume s rd = (Some vol, None)
       /\ (lc.RscName rd = ID \/ volume.ID vol = ID).
Proof.
  unfold run, GetByID, bind, ListResourceDefinitions, of_outcome.
  destruct (resourceDefinitions ctl) as [list [e|]]; simpl.
  - intros H. discriminate H.
  - intros H. apply (GetByID_scan_sound _ _ _ _ _ H).
Qed.

Lemma GetByID_sound_witness :
  @None error = None
  /\ exists rd, In rd (resourceDefinitions listing_volume).1
       /\ resDefToVolume client rd = (Some vol_csi_myname, None)
       /\ (lc.RscName rd = "csi-myname" \/ volume.ID vol_csi_myname = "csi-myname").
Proof.
  apply (GetByID_sound client "csi-myname" listing_volume).
  vm_compute. reflexivity.
Defined.

(** X10: [GetByID] returns the first listed volume whose resource name or decoded
    ID is the query. *)
Theorem GetByID_first_match (s : Linstor) (ID : string) (ctl : Controller)
    (pre post : list lc.ResDef) (rd : lc.ResDef) (vol : volume.Info) :
  resourceDefinitions ctl = (pre ++ rd :: post, None) ->
  Forall (passed_by_ID s ID) pre ->
  resDefToVolume s rd = (Some vol, None) ->
  lc.RscName rd = ID \/ volume.ID vol = ID ->
  (run (GetByID s ID) ctl).1 = Returned (Some vol, None).
Proof.
  intros Hlist Hpre Hrd Hmatch. unfold run.
  rewrite (GetByID_listed _ _ _ _ _ Hlist). simpl.
  rewrite (GetByID_scan_passed _ _ _ _ Hpre). simpl. rewrite Hrd.
  destruct (String.eqb_spec (lc.RscName rd) ID) as [|E1]; [reflexivity|].
  destruct (String.eqb_spec (volume.ID vol) ID) as [|E2]; [reflexivity|].
  destruct Hmatch; contradiction.
Qed.

Lemma GetByID_first_match_witness :
  (run (GetByID client "csi-myname") listing_volume).1
  = Returned (Some vol_csi_myname, None).
Proof.
  apply (GetByID_first_match client "csi-myname" listing_volume
           [] [] rd_csi_myname vol_csi_myname).
  - reflexivity.
  - constructor.
  - vm_compute. reflexivity.
  - left. reflexivity.
Defined.

(** X11: a resource definition without annotation whose resource name is the
    query ends the lookup with nil and no error, also when a volume with
    that ID is listed after it. *)
Theorem GetByID_foreign_name (s : Linstor) (ID : string) (ctl : Controller)
    (pre post : list lc.ResDef) (rd : lc.ResDef) :
  resourceDefinitions ctl = (pre ++ rd :: post, None) ->
  Forall (passed_by_ID s ID) pre ->
  foreign s rd ->
  lc.RscName rd = ID ->
  (run (GetByID s ID) ctl).1 = Returned (None, None).
Proof.
  intros Hlist Hpre Hforeign Hname. unfold run.
  rewrite (GetByID_listed _ _ _ _ _ Hlist). simpl.
  rewrite (GetByID_scan_passed _ _ _ _ Hpre). simpl.
  unfold resDefToVolume. rewrite (resDefToVolume_props_foreign _ _ Hforeign).
  rewrite Hname, String.eqb_refl. reflexivity.
Qed.

Lemma GetByID_foreign_name_witness :
  (run (GetByID client "backups") listing_foreign_first).1 = Returned (None, None).
Proof.
  apply (GetByID_foreign_name client "backups" listing_foreign_first
           [] [rd_csi_myname] rd_foreign).
  - reflexivity.
  - constructor.
  - repeat constructor; discriminate.
  - reflexivity.
Defined.

(** X12: a resource definition that fails to decode ends either lookup with that
    error, whatever is listed after it. *)
Theorem lookups_abort_on_decode_error (s : Linstor) (key : string)
    (ctl : Controller) (pre post : list lc.ResDef) (rd : lc.ResDef)
    (vol : option volume.Info) (err : error) :
  resourceDefinitions ctl = (pre ++ rd :: post, None) ->
  resDefToVolume s rd = (vol, Some err) ->
  (Forall (passed_by_name s key) pre ->
   (run (GetByName s key) ctl).1 = Returned (None, Some err))
  /\ (Forall (passed_by_ID s key) pre ->
      (run (GetByID s key) ctl).1 = Returned (None, Some err)).
Proof.
  intros Hlist Hrd. unfold run. split; intros Hpre.
  - rewrite (GetByName_listed _ _ _ _ _ Hlist). simpl.
    rewrite (GetByName_scan_passed _ _ _ _ Hpre). simpl. rewrite Hrd.
    destruct vol; reflexivity.
  - rewrite (GetByID_listed _ _ _ _ _ Hlist). simpl.
    rewrite (GetByID_scan_passed _ _ _ _ Hpre). simpl. rewrite Hrd.
    reflexivity.
Qed.

Lemma lookups_abort_on_decode_error_witness :
  (Forall (passed_by_name client "csi-myname") [] ->
   (run (GetByName client "csi-myname") listing_nameless_first).1
   = Returned (None, Some ErrNoResourceName))
  /\ (Forall (passed_by_ID client "csi-myname") [] ->
      (run (GetByID client "csi-myname") listing_nameless_first).1
      = Returned (None, Some ErrNoResourceName)).
Proof.
  apply (lookups_abort_on_decode_error client "csi-myname" listing_nameless_first
           [] [rd_csi_myname] rd_nameless None ErrNoResourceName).
  - reflexivity.
  - vm_compute. reflexivity.
Defined.

(** When the controller fails to list, either lookup returns nil with the
    controller's error, after that one call. *)
Lemma lookups_propagate_listing_error (s : Linstor) (key : string)
    (ctl : Controller) (list : list lc.ResDef) (err : error) :
  resourceDefinitions ctl = (list, Some err) ->
  run (GetByName s key) ctl
  = (Returned (None, Some err), [CallListResourceDefinitions "CSIGetByName"])
  /\ run (GetByID s key) ctl
     = (Returned (None, Some err), [CallListResourceDefinitions "CSIGetByID"]).
Proof.
  intros H. unfold run, GetByName, GetByID, bind, ListResourceDefinitions.
  rewrite H. split; reflexivity.
Qed.

(** ** More on the translation *)

Lemma applyParameter_parameter (k v : string) (cfg : lc.ResourceDeploymentConfig) :
  applyParameter k v cfg
  = match parameter_of (strings.ToLower k) with
    | PNodeList => (lc.set_NodeList (strings.Split_space v) cfg, None)
    | PLayerList => (lc.set_LayerList (strings.Split_space v) cfg, None)
    | PReplicasOnSame => (lc.set_ReplicasOnSame (strings.Split_space v) cfg, None)
    | PReplicasOnDifferent =>
      (lc.set_ReplicasOnDifferent (strings.Split_space v) cfg, None)
    | PStoragePool => (lc.set_StoragePool v cfg, None)
    | PDisklessStoragePool => (lc.set_DisklessStoragePool v cfg, None)
    | PAutoPlace =>
      match strconv.ParseUint (if String.eqb v "" then "0" else v) with
      | None => (cfg, Some (ErrParseInteger (if String.eqb v "" then "0" else v)))
      | Some autoplace => (lc.set_AutoPlace autoplace cfg, None)
      end
    | PDoNotPlaceWithRegex => (lc.set_DoNotPlaceWithRegex v cfg, None)
    | PEncryption =>
      if String.eqb (strings.ToLower v) "true"
      then (lc.set_Encryption true cfg, None) else (cfg, None)
    | PIgnored => (cfg, None)
    end.
Proof.
  unfold applyParameter, parameter_of. cbv zeta.
  generalize (strings.ToLower k) as key. intros key.
  destruct (String.eqb key NodeListKey); [reflexivity|].
  destruct (String.eqb key LayerListKey); [reflexivity|].
  destruct (String.eqb key ReplicasOnSameKey); [reflexivity|].
  destruct (String.eqb key ReplicasOnDifferentKey); [reflexivity|].
  destruct (String.eqb key StoragePoolKey); [reflexivity|].
  destruct (String.eqb key DisklessStoragePoolKey); [reflexivity|].
  destruct (String.eqb key AutoPlaceKey); [reflexivity|].
  destruct (String.eqb key DoNotPlaceWithRegexKey); [reflexivity|].
  destruct (String.eqb key EncryptionKey); reflexivity.
Qed.

Ltac case_key key c :=
  destruct (String.eqb_spec key c); [subst key|].

Lemma parameter_of_recognised (key : string) :
  parameter_of key <> PIgnored <-> In key recognised.
Proof.
  unfold parameter_of, recognised.
  case_key key NodeListKey; [simpl; intuition congruence|].
  case_key key LayerListKey; [simpl; intuition congruence|].
  case_key key ReplicasOnSameKey; [simpl; intuition congruence|].
  case_key key ReplicasOnDifferentKey; [simpl; intuition congruence|].
  case_key key StoragePoolKey; [simpl; intuition congruence|].
  case_key key DisklessStoragePoolKey; [simpl; intuition congruence|].
  case_key key AutoPlaceKey; [simpl; intuition congruence|].
  case_key key DoNotPlaceWithRegexKey; [simpl; intuition congruence|].
  case_key key EncryptionKey; [simpl; intuition congruence|].
  simpl. intuition congruence.
Qed.

Lemma parameter_of_key (key : string) :
  parameter_of key <> PIgnored ->
  key = match parameter_of key with
        | PNodeList => NodeListKey
        | PLayerList => LayerListKey
        | PReplicasOnSame => ReplicasOnSameKey
        | PReplicasOnDifferent => ReplicasOnDifferentKey
        | PStoragePool => StoragePoolKey
        | PDisklessStoragePool => DisklessStoragePoolKey
        | PAutoPlace => AutoPlaceKey
        | PDoNotPlaceWithRegex => DoNotPlaceWithRegexKey
        | PEncryption => EncryptionKey
        | PIgnored => key
        end.
Proof.
  unfold parameter_of.
  case_key key NodeListKey; [reflexivity|].
  case_key key LayerListKey; [reflexivity|].
  case_key key ReplicasOnSameKey; [reflexivity|].
  case_key key ReplicasOnDifferentKey; [reflexivity|].
  case_key key StoragePoolKey; [reflexivity|].
  case_key key DisklessStoragePoolKey; [reflexivity|].
  case_key key AutoPlaceKey; [reflexivity|].
  case_key key DoNotPlaceWithRegexKey; [reflexivity|].
  case_key key EncryptionKey; reflexivity.
Qed.

Lemma parameter_of_inj (a b : string) :
  parameter_of a = parameter_of b -> parameter_of a <> PIgnored -> a = b.
Proof.
  intros Hab Ha.
  assert (Hb : parameter_of b <> PIgnored) by congruence.
  pose proof (parameter_of_key a Ha) as Ea.
  pose proof (parameter_of_key b Hb) as Eb.
  revert Ea Eb Hb. rewrite Hab. destruct (parameter_of b); congruence.
Qed.

(** *** Lower case *)

Lemma is_scalar_spec (r : Z) : is_scalar r = true <-> scalar r.
Proof.
  unfold is_scalar, scalar.
  rewrite orb_true_iff, !andb_true_iff, !Z.leb_le, !Z.ltb_lt. reflexivity.
Qed.

Lemma to_lower_cased (ranges : list (Z * Z * Z * Z)) (r : Z) :
  Forall (fun e => 0 < e.1.2) ranges ->
  unicode.to_lower ranges r = r \/ In r (cased ranges).
Proof.
  induction 1 as [|[[[lo hi] stride] delta] ranges Hs _ IH]; [left; reflexivity|].
  simpl in Hs. cbn [unicode.to_lower].
  destruct ((lo <=? r) && (r <=? hi) && ((r - lo) mod stride =? 0)) eqn:E.
  - right. apply andb_true_iff in E as [E Hm]. apply andb_true_iff in E as [Hlo Hhi].
    apply Z.leb_le in Hlo, Hhi. apply Z.eqb_eq in Hm.
    unfold cased. cbn [flat_map]. apply in_or_app. left.
    unfold expand_range. apply in_map_iff.
    exists (Z.to_nat ((r - lo) / stride)). split.
    + rewrite Z2Nat.id by (apply Z.div_pos; lia).
      pose proof (Z.div_mod (r - lo) stride ltac:(lia)). lia.
    + apply in_seq. split; [lia|].
      assert ((r - lo) / stride <= (hi - lo) / stride)
        by (apply Z.div_le_mono; lia).
      assert (0 <= (r - lo) / stride) by (apply Z.div_pos; lia).
      lia.
  - destruct IH as [IH|IH]; [left; exact IH|].
    right. unfold cased. cbn [flat_map]. apply in_or_app. right. exact IH.
Qed.

Lemma lowerRanges_checked :
  forallb (fun e => 0 <? e.1.2) unicode.lowerRanges = true
  /\ forallb (fun r => is_scalar (unicode.ToLower r)
                       && (unicode.ToLower (unicode.ToLower r) =? unicode.ToLower r))
       (cased unicode.lowerRanges) = true.
Proof. split; vm_compute; reflexivity. Qed.

Lemma ToLower_rune_cases (r : Z) :
  scalar r ->
  scalar (unicode.ToLower r)
  /\ unicode.ToLower (unicode.ToLower r) = unicode.ToLower r.
Proof.
  intros Hr. destruct lowerRanges_checked as [Hs Hc].
  unfold unicode.ToLower at 1 3 4. unfold unicode.MaxASCII.
  destruct (Z.leb_spec r 127) as [Hsmall|Hbig].
  - unfold between. destruct (Z.leb_spec 65 r); destruct (Z.leb_spec r 90); simpl;
      unfold scalar in *.
    + split; [lia|]. unfold unicode.ToLower, unicode.MaxASCII, between.
      destruct (Z.leb_spec (r + 32) 127); [|lia].
      destruct (Z.leb_spec (r + 32) 90); [lia|].
      rewrite andb_false_r. reflexivity.
    + split; [lia|]. unfold unicode.ToLower, unicode.MaxASCII, between.
      destruct (Z.leb_spec r 127); [|lia].
      destruct (Z.leb_spec r 90); [lia|]. rewrite andb_false_r. reflexivity.
    + split; [lia|]. unfold unicode.ToLower, unicode.MaxASCII, between.
      destruct (Z.leb_spec r 127); [|lia].
      destruct (Z.leb_spec 65 r); [lia|]. reflexivity.
    + lia.
  - assert (Hpos : Forall (fun e : Z * Z * Z * Z => 0 < e.1.2) unicode.lowerRanges).
    { apply List.Forall_forall. intros e He. apply Z.ltb_lt.
      rewrite forallb_forall in Hs. apply Hs, He. }
    destruct (to_lower_cased unicode.lowerRanges r Hpos) as [E|Hin].
    + rewrite E. split; [exact Hr|]. unfold unicode.ToLower, unicode.MaxASCII.
      destruct (Z.leb_spec r 127); [lia|]. exact E.
    + rewrite forallb_forall in Hc. specialize (Hc r Hin).
      apply andb_true_iff in Hc as [H1 H2].
      apply is_scalar_spec in H1. apply Z.eqb_eq in H2.
      assert (E : unicode.ToLower r = unicode.to_lower unicode.lowerRanges r).
      { unfold unicode.ToLower, unicode.MaxASCII.
        destruct (Z.leb_spec r 127); [lia|]. reflexivity. }
      rewrite <- E. split; [exact H1 | exact H2].
Qed.

(** *** Runes and their encoding *)

Lemma DecodeRune_scalar (p : list ascii) : scalar (utf8.DecodeRune p).1.
Proof.
  unfold scalar. destruct p as [|b0 p1]; [simpl; unfold utf8.RuneError; lia|].
  pose proof (byte_val_bounds b0).
  unfold utf8.DecodeRune, utf8.RuneSelf, utf8.RuneError.
  destruct (Z.ltb_spec (byte_val b0) 128); [simpl; lia|].
  destruct (between 194 223 (byte_val b0)) eqn:E1.
  { destruct p1 as [|b1 p2]; [simpl; lia|].
    destruct (utf8.cont b1) eqn:E2; [|simpl; lia].
    split_between. simpl. lia. }
  destruct (between 224 239 (byte_val b0)) eqn:E2.
  { destruct p1 as [|b1 [|b2 p3]]; try (simpl; lia).
    destruct (between (utf8.second_lo (byte_val b0)) (utf8.second_hi (byte_val b0))
                (byte_val b1) && utf8.cont b2) eqn:E3; [|simpl; lia].
    split_between. simpl.
    unfold utf8.second_lo, utf8.second_hi in *.
    destruct (Z.eqb_spec (byte_val b0) 224); destruct (Z.eqb_spec (byte_val b0) 240);
      destruct (Z.eqb_spec (byte_val b0) 237); destruct (Z.eqb_spec (byte_val b0) 244);
      lia. }
  destruct (between 240 244 (byte_val b0)) eqn:E3.
  { destruct p1 as [|b1 [|b2 [|b3 p4]]]; try (simpl; lia).
    destruct (between (utf8.second_lo (byte_val b0)) (utf8.second_hi (byte_val b0))
                (byte_val b1) && utf8.cont b2 && utf8.cont b3) eqn:E4;
      [|simpl; lia].
    split_between. simpl.
    unfold utf8.second_lo, utf8.second_hi in *.
    destruct (Z.eqb_spec (byte_val b0) 224); destruct (Z.eqb_spec (byte_val b0) 240);
      destruct (Z.eqb_spec (byte_val b0) 237); destruct (Z.eqb_spec (byte_val b0) 244);
      lia. }
  simpl. lia.
Qed.

Ltac decide_between :=
  unfold between, utf8.cont, between;
  repeat match goal with
         | |- context [byte_val (byte_of ?z)] =>
           rewrite (byte_val_byte_of z) by (Z.div_mod_to_equations; lia)
         end;
  repeat match goal with
         | |- context [?a =? ?b] =>
           destruct (Z.eqb_spec a b); try (exfalso; Z.div_mod_to_equations; lia)
         end;
  repeat match goal with
         | |- context [?a <=? ?b] =>
           destruct (Z.leb_spec a b); try (exfalso; Z.div_mod_to_equations; lia)
         | |- context [?a <? ?b] =>
           destruct (Z.ltb_spec a b); try (exfalso; Z.div_mod_to_equations; lia)
         end.

Lemma DecodeRune_EncodeRune (r : Z) (tail : list ascii) :
  scalar r ->
  utf8.DecodeRune (EncodeRune r ++ tail) = (r, length (EncodeRune r)).
Proof.
  intros Hr. unfold scalar in Hr. unfold EncodeRune, between.
  destruct (Z.leb_spec 0 r); [|lia].
  destruct (Z.ltb_spec r 128).
  { simpl. unfold utf8.DecodeRune, utf8.RuneSelf.
    rewrite byte_val_byte_of by lia.
    destruct (Z.ltb_spec r 128); [reflexivity | lia]. }
  destruct (Z.ltb_spec r 2048).
  { simpl. unfold utf8.DecodeRune, utf8.RuneSelf. decide_between; simpl.
    all: f_equal; Z.div_mod_to_equations; lia. }
  destruct (Z.ltb_spec r 0); [lia|].
  destruct (Z.ltb_spec 1114111 r); [lia|].
  destruct (Z.leb_spec 55296 r); destruct (Z.leb_spec r 57343); try lia; simpl.
  all: destruct (Z.ltb_spec r 65536); simpl; try lia.
  all: unfold utf8.DecodeRune, utf8.RuneSelf, utf8.second_lo, utf8.second_hi.
  all: decide_between; simpl.
  all: f_equal; Z.div_mod_to_equations; lia.
Qed.

Lemma EncodeRune_nonempty (r : Z) : EncodeRune r <> [].
Proof.
  unfold EncodeRune.
  repeat match goal with
         | |- context [if ?c then _ else _] => destruct c
         end; discriminate.
Qed.

Lemma runes_go_fuel (n : nat) :
  forall m p, (length p <= n)%nat -> (length p <= m)%nat ->
  utf8.runes_go n p = utf8.runes_go m p.
Proof.
  induction n as [|n IH]; intros m p Hn Hm.
  - destruct p; [|simpl in Hn; lia]. destruct m; reflexivity.
  - destruct p as [|b0 p1]; [destruct m; reflexivity|].
    destruct m as [|m]; [simpl in Hm; lia|].
    rewrite !runes_go_cons. f_equal.
    pose proof (DecodeRune_size (b0 :: p1) ltac:(discriminate)).
    apply IH; rewrite length_drop; simpl in *; lia.
Qed.

Lemma runes_go_scalar (n : nat) :
  forall p, Forall scalar (utf8.runes_go n p).
Proof.
  induction n as [|n IH]; intros p; [destruct p; constructor|].
  destruct p as [|b0 p1]; [constructor|].
  rewrite runes_go_cons. constructor; [apply DecodeRune_scalar | apply IH].
Qed.

Lemma runes_scalar (s : string) : Forall scalar (utf8.runes s).
Proof. apply runes_go_scalar. Qed.

(** Decoding undoes encoding, rune by rune. *)
Lemma runes_go_EncodeRune (rs : list Z) :
  Forall scalar rs ->
  forall n, (length (flat_map EncodeRune rs) <= n)%nat ->
  utf8.runes_go n (flat_map EncodeRune rs) = rs.
Proof.
  induction 1 as [|r rs Hr _ IH]; intros n Hn; [destruct n; reflexivity|].
  cbn [flat_map] in *.
  pose proof (DecodeRune_EncodeRune r (flat_map EncodeRune rs) Hr) as Hd.
  pose proof (EncodeRune_nonempty r) as He.
  rewrite length_app in Hn.
  destruct (EncodeRune r) as [|b0 e] eqn:E; [contradiction|].
  destruct n as [|n]; [simpl in Hn; lia|].
  change ((b0 :: e) ++ flat_map EncodeRune rs)
    with (b0 :: (e ++ flat_map EncodeRune rs)) in *.
  rewrite runes_go_cons, Hd. cbn [fst snd]. f_equal.
  change (b0 :: e ++ flat_map EncodeRune rs)
    with ((b0 :: e) ++ flat_map EncodeRune rs).
  rewrite drop_app_length. apply IH. simpl in Hn. lia.
Qed.

Lemma runes_EncodeRune (rs : list Z) :
  Forall scalar rs ->
  utf8.runes (string_of_bytes (flat_map EncodeRune rs)) = rs.
Proof.
  intros H. unfold utf8.runes. cbv zeta.
  rewrite bytes_of_string_of_bytes. apply runes_go_EncodeRune; [exact H | lia].
Qed.

(** *** [strings.ToLower] *)

Lemma Map_ToLower (s : string) :
  strings.Map unicode.ToLower s
  = string_of_bytes (flat_map EncodeRune (map unicode.ToLower (utf8.runes s))).
Proof.
  unfold strings.Map. f_equal.
  pose proof (runes_scalar s) as H.
  induction H as [|r rs Hr _ IH]; [reflexivity|].
  cbn [flat_map map]. rewrite IH. f_equal.
  destruct (ToLower_rune_cases r Hr) as [[Hl|Hl] _];
    destruct (Z.leb_spec 0 (unicode.ToLower r)); (reflexivity || lia).
Qed.

Lemma ToLower_Map (s : string) :
  strings.ToLower s = strings.Map unicode.ToLower s.
Proof.
  unfold strings.ToLower. destruct (strings.isASCII s) eqn:E; [|reflexivity].
  rewrite Map_ToLower. f_equal.
  assert (Ha : ascii_bytes (bytes_of_string s)).
  { unfold strings.isASCII in E. rewrite forallb_forall in E.
    apply List.Forall_forall. intros c Hc. apply Z.ltb_lt, E, Hc. }
  rewrite (runes_of_ascii s Ha).
  induction Ha as [|c p Hc _ IH]; [reflexivity|].
  cbn [map flat_map]. rewrite IH.
  change (strings.lower_byte c :: ?l) with ([strings.lower_byte c] ++ l).
  f_equal. pose proof (byte_val_bounds c).
  unfold strings.lower_byte, unicode.ToLower, unicode.MaxASCII, utf8.RuneSelf in *.
  destruct (Z.leb_spec (byte_val c) 127); [|lia].
  unfold EncodeRune, between.
  destruct (Z.leb_spec 65 (byte_val c)); destruct (Z.leb_spec (byte_val c) 90);
    simpl.
  - destruct (Z.leb_spec 0 (byte_val c + 32)); [|lia].
    destruct (Z.ltb_spec (byte_val c + 32) 128); [reflexivity | lia].
  - destruct (Z.leb_spec 0 (byte_val c)); [|lia].
    destruct (Z.ltb_spec (byte_val c) 128); [|lia].
    simpl. rewrite byte_of_val. reflexivity.
  - destruct (Z.leb_spec 0 (byte_val c)); [|lia].
    destruct (Z.ltb_spec (byte_val c) 128); [|lia].
    simpl. rewrite byte_of_val. reflexivity.
  - lia.
Qed.

(** The runes of a lowered string are the lowered runes of the string. *)
Lemma runes_ToLower (s : string) :
  utf8.runes (strings.ToLower s) = map unicode.ToLower (utf8.runes s).
Proof.
  rewrite ToLower_Map, Map_ToLower. apply runes_EncodeRune.
  pose proof (runes_scalar s) as H.
  induction H as [|r rs Hr _ IH]; constructor; [|exact IH].
  apply ToLower_rune_cases, Hr.
Qed.

Lemma ToLower_idempotent (s : string) :
  strings.ToLower (strings.ToLower s) = strings.ToLower s.
Proof.
  rewrite (ToLower_Map (strings.ToLower s)), Map_ToLower, runes_ToLower.
  rewrite ToLower_Map, Map_ToLower. do 2 f_equal.
  pose proof (runes_scalar s) as H.
  induction H as [|r rs Hr _ IH]; [reflexivity|].
  cbn [map]. rewrite IH. f_equal. apply ToLower_rune_cases, Hr.
Qed.

(** Go lowers U+0130 to [i] and U+212A to [k]; the long s is lower case
    already.  So [NODELIST] written with a dotted capital I sets the node
    list. *)
Lemma ToLower_examples :
  unicode.ToLower 0x130 = 105 /\ unicode.ToLower 0x212A = 107
  /\ unicode.ToLower 0x17F = 0x17F
  /\ strings.ToLower key_dotted_I = NodeListKey
  /\ applyParameter key_dotted_I "node-a node-b" lc.zeroConfig
     = (lc.set_NodeList ["node-a"; "node-b"] lc.zeroConfig, None).
Proof. repeat split; vm_compute; reflexivity. Qed.

(** X13: parameter keys are matched without regard to letter case, as
    [strings.ToLower] folds it: a key and its lower-cased form have the
    same effect. *)
Theorem applyParameter_case_insensitive (k v : string)
    (cfg : lc.ResourceDeploymentConfig) :
  applyParameter k v cfg = applyParameter (strings.ToLower k) v cfg.
Proof.
  rewrite !applyParameter_parameter, ToLower_idempotent. reflexivity.
Qed.

(** X14: a key outside the recognised ones changes nothing and is no error;
    among them are the declared keys [clientlist], [sizekib], [blocksize],
    [force], [filesystem], [mountOpts] and [fsOpts]. *)
Theorem applyParameter_ignored (k v : string) (cfg : lc.ResourceDeploymentConfig) :
  (~ In (strings.ToLower k) recognised -> applyParameter k v cfg = (cfg, None))
  /\ (In k [ClientListKey; SizeKiBKey; BlockSizeKey; ForceKey; FSKey;
            MountOptsKey; FSOptsKey] ->
      applyParameter k v cfg = (cfg, None)).
Proof.
  split.
  - intros H. rewrite applyParameter_parameter.
    destruct (parameter_of (strings.ToLower k)) eqn:E; try reflexivity;
      exfalso; apply H, parameter_of_recognised; congruence.
  - intros H. simpl in H.
    repeat (destruct H as [<- | H]; [reflexivity|]). contradiction.
Qed.

Lemma applyParameter_kept (k v : string) (cfg : lc.ResourceDeploymentConfig) :
  let cfg' := (applyParameter k v cfg).1 in
  lc.Name cfg' = lc.Name cfg
  /\ lc.Controllers cfg' = lc.Controllers cfg
  /\ lc.ClientList cfg' = lc.ClientList cfg
  /\ lc.Annotations cfg' = lc.Annotations cfg.
Proof.
  cbv zeta. rewrite applyParameter_parameter.
  destruct (parameter_of (strings.ToLower k)); try (repeat split; reflexivity).
  - destruct (strconv.ParseUint _); repeat split; reflexivity.
  - destruct (String.eqb _ _); repeat split; reflexivity.
Qed.

Lemma applyParameters_kept (kvs : list (string * string)) :
  forall cfg,
    let cfg' := (applyParameters kvs cfg).1 in
    lc.Name cfg' = lc.Name cfg
    /\ lc.Controllers cfg' = lc.Controllers cfg
    /\ lc.ClientList cfg' = lc.ClientList cfg
    /\ lc.Annotations cfg' = lc.Annotations cfg.
Proof.
  induction kvs as [|[k v] kvs IH]; intros cfg; cbv zeta; [auto|]. simpl.
  pose proof (applyParameter_kept k v cfg) as H. cbv zeta in H.
  destruct (applyParameter k v cfg) as [cfg' [err|]]; simpl in *; [exact H|].
  specialize (IH cfg'). cbv zeta in IH.
  destruct H as (H1 & H2 & H3 & H4). destruct IH as (I1 & I2 & I3 & I4).
  repeat split; congruence.
Qed.

(** X15: a translated configuration is named by the volume's ID, talks to the
    client's controllers, has no client list, and carries one annotation:
    the serialised volume under the client's key. *)
Theorem resDeploymentConfig_identity (s : Linstor) (vol : volume.Info)
    (kvs : list (string * string)) (cfg : lc.ResourceDeploymentConfig) :
  resDeploymentConfigFromVolumeInfo s vol kvs = (Some cfg, None) ->
  lc.Name cfg = volume.ID vol
  /\ lc.Controllers cfg = Controllers (config s)
  /\ lc.ClientList cfg = []
  /\ lc.Annotations cfg
     = Some {[ annotationsKey s := string_of_bytes (json.Marshal vol).1 ]}.
Proof.
  unfold resDeploymentConfigFromVolumeInfo. cbv zeta.
  match goal with
  | |- context [applyParameters kvs ?c] =>
    pose proof (applyParameters_kept kvs c) as H;
    destruct (applyParameters kvs c) as [cfg' [err|]]
  end; [discriminate|].
  cbv zeta in H. simpl in H. destruct H as (H1 & H2 & H3 & _).
  unfold json.Marshal. intros Hcfg. injection Hcfg as <-.
  split; [exact H1|]. split; [exact H2|]. split; [exact H3|].
  cbn [lc.Annotations lc.set_Annotations]. rewrite insert_empty. reflexivity.
Qed.

Lemma resDeploymentConfig_identity_witness :
  lc.Name (translated vol_two_parameters [("NodeList", "node-a node-b"); ("storagepool", "ssd")])
  = volume.ID vol_two_parameters
  /\ lc.Controllers (translated vol_two_parameters [("NodeList", "node-a node-b"); ("storagepool", "ssd")])
     = Controllers (config client)
  /\ lc.ClientList (translated vol_two_parameters [("NodeList", "node-a node-b"); ("storagepool", "ssd")]) = []
  /\ lc.Annotations (translated vol_two_parameters [("NodeList", "node-a node-b"); ("storagepool", "ssd")])
     = Some {[ annotationsKey client
               := string_of_bytes (json.Marshal vol_two_parameters).1 ]}.
Proof.
  apply (resDeploymentConfig_identity client vol_two_parameters
           [("NodeList", "node-a node-b"); ("storagepool", "ssd")]).
  vm_compute. reflexivity.
Defined.

Lemma parameter_of_autoplace (key : string) :
  parameter_of key = PAutoPlace <-> key = AutoPlaceKey.
Proof.
  split.
  - intros H. assert (Hn : parameter_of key <> PIgnored) by congruence.
    rewrite (parameter_of_key key Hn) at 1. rewrite H. reflexivity.
  - intros ->. reflexivity.
Qed.

Lemma applyParameter_error (k v : string) (cfg : lc.ResourceDeploymentConfig) :
  (applyParameter k v cfg).2 <> None <-> bad_autoplace (k, v).
Proof.
  rewrite applyParameter_parameter. unfold bad_autoplace. simpl.
  rewrite <- parameter_of_autoplace.
  destruct (parameter_of (strings.ToLower k)); simpl;
    try (split; [congruence | intros [? _]; congruence]).
  - destruct (String.eqb_spec v "") as [->|Hv].
    + simpl. split; [congruence | intros (_ & H & _); congruence].
    + destruct (strconv.ParseUint v); simpl.
      * split; [congruence | intros (_ & _ & H); congruence].
      * split; [auto | congruence].
  - destruct (String.eqb _ _); simpl;
      (split; [congruence | intros [? _]; congruence]).
Qed.

Lemma applyParameter_error_any (k v : string)
    (cfg cfg' : lc.ResourceDeploymentConfig) :
  (applyParameter k v cfg).2 = (applyParameter k v cfg').2.
Proof.
  rewrite !applyParameter_parameter.
  destruct (parameter_of (strings.ToLower k)); try reflexivity.
  - destruct (strconv.ParseUint _); reflexivity.
  - destruct (String.eqb _ _); reflexivity.
Qed.

Lemma applyParameters_error (kvs : list (string * string)) :
  forall cfg, (applyParameters kvs cfg).2 <> None <-> Exists bad_autoplace kvs.
Proof.
  induction kvs as [|[k v] kvs IH]; intros cfg; simpl.
  - rewrite Exists_nil. tauto.
  - rewrite Exists_cons, <- (applyParameter_error k v cfg).
    destruct (applyParameter k v cfg) as [cfg' [err|]]; simpl.
    + split; [left; congruence | congruence].
    + rewrite IH. split; [auto | intros [H|H]; [congruence | exact H]].
Qed.

Lemma resDeploymentConfig_loop (s : Linstor) (vol : volume.Info)
    (kvs : list (string * string)) :
  resDeploymentConfigFromVolumeInfo s vol kvs
  = match loop_result
            (applyParameters kvs
               (lc.set_SizeKiB
                  (uint64_of_int64 (volume.SizeBytes vol ÷ 1024 + 1))
                  (lc.set_Name (volume.ID vol)
                     (lc.set_Controllers (Controllers (config s)) lc.zeroConfig))))
    with
    | (Some cfg, None) =>
      (Some (lc.set_Annotations
               (Some (<[annotationsKey s := string_of_bytes (json.Marshal vol).1]> ∅))
               cfg), None)
    | (_, Some err) => (None, Some err)
    | (None, None) => (None, None)
    end.
Proof.
  unfold resDeploymentConfigFromVolumeInfo. cbv zeta.
  match goal with
  | |- context [applyParameters kvs ?c] =>
    destruct (applyParameters kvs c) as [cfg' [err|]]
  end; reflexivity.
Qed.

(** X16: whether the translation fails does not depend on the order in which the
    parameters are visited: it fails exactly when some parameter whose key
    is [autoplace] (in any letter case) has a value that is neither empty
    nor an unsigned integer. *)
Theorem resDeploymentConfig_fails_iff (s : Linstor) (vol : volume.Info)
    (kvs : list (string * string)) :
  ranges (volume.Parameters vol) kvs ->
  (resDeploymentConfigFromVolumeInfo s vol kvs).2 <> None
  <-> exists k v,
        default ∅ (volume.Parameters vol) !! k = Some v /\ bad_autoplace (k, v).
Proof.
  intros Hr. rewrite resDeploymentConfig_loop.
  match goal with
  | |- context [applyParameters kvs ?c] =>
    pose proof (applyParameters_error kvs c) as H;
    destruct (applyParameters kvs c) as [cfg' [err|]]
  end; simpl in *; rewrite H; unfold ranges in Hr; rewrite Hr;
    rewrite Exists_exists; split.
  - intros ([k v] & Hin & Hbad). exists k, v. split; [|exact Hbad].
    apply elem_of_map_to_list. exact Hin.
  - intros (k & v & Hin & Hbad). exists (k, v). split; [|exact Hbad].
    apply elem_of_map_to_list. exact Hin.
  - intros ([k v] & Hin & Hbad). exists k, v. split; [|exact Hbad].
    apply elem_of_map_to_list. exact Hin.
  - intros (k & v & Hin & Hbad). exists (k, v). split; [|exact Hbad].
    apply elem_of_map_to_list. exact Hin.
Qed.

Lemma resDeploymentConfig_fails_iff_witness :
  (resDeploymentConfigFromVolumeInfo client vol_autoplace_many
     [("AutoPlace", "many")]).2 <> None
  <-> exists k v,
        default ∅ (volume.Parameters vol_autoplace_many) !! k = Some v
        /\ bad_autoplace (k, v).
Proof.
  apply (resDeploymentConfig_fails_iff client vol_autoplace_many
           [("AutoPlace", "many")]).
  unfold ranges. vm_compute. reflexivity.
Defined.

Lemma applyParameter_commute (k1 v1 k2 v2 : string)
    (cfg : lc.ResourceDeploymentConfig) :
  strings.ToLower k1 <> strings.ToLower k2 ->
  (applyParameter k2 v2 (applyParameter k1 v1 cfg).1).1
  = (applyParameter k1 v1 (applyParameter k2 v2 cfg).1).1.
Proof.
  intros Hne. rewrite !applyParameter_parameter.
  destruct (parameter_of (strings.ToLower k1)) eqn:E1;
    destruct (parameter_of (strings.ToLower k2)) eqn:E2;
    try (exfalso; apply Hne, parameter_of_inj; congruence);
    repeat match goal with
           | |- context [strconv.ParseUint ?x] => destruct (strconv.ParseUint x)
           | |- context [String.eqb (strings.ToLower ?x) "true"] =>
             destruct (String.eqb (strings.ToLower x) "true")
           end; reflexivity.
Qed.

Lemma applyParameters_step (k v : string) (kvs : list (string * string))
    (cfg : lc.ResourceDeploymentConfig) :
  applyParameters ((k, v) :: kvs) cfg
  = match (applyParameter k v cfg).2 with
    | None => applyParameters kvs (applyParameter k v cfg).1
    | Some err => ((applyParameter k v cfg).1, Some err)
    end.
Proof. simpl. destruct (applyParameter k v cfg) as [c [e|]]; reflexivity. Qed.

Lemma applyParameters_permutation (l l' : list (string * string)) :
  l ≡ₚ l' ->
  case_distinct l ->
  forall cfg, loop_result (applyParameters l cfg) = loop_result (applyParameters l' cfg).
Proof.
  induction 1 as [|[k v] l l' Hperm IH|[k1 v1] [k2 v2] l|l l' l'' H1 IH1 H2 IH2];
    intros Hd cfg.
  - reflexivity.
  - rewrite !applyParameters_step.
    destruct ((applyParameter k v cfg).2); [reflexivity|].
    apply IH. unfold case_distinct in *. simpl in Hd.
    apply NoDup_cons in Hd as [_ Hd]. exact Hd.
  - unfold case_distinct in Hd. simpl in Hd.
    apply NoDup_cons in Hd as [Hne _].
    assert (Hk : strings.ToLower k1 <> strings.ToLower k2).
    { intros E. apply Hne. rewrite E. left. }
    rewrite !applyParameters_step.
    rewrite (applyParameter_error_any k1 v1 (applyParameter k2 v2 cfg).1 cfg).
    rewrite (applyParameter_error_any k2 v2 (applyParameter k1 v1 cfg).1 cfg).
    rewrite (applyParameter_commute k1 v1 k2 v2 cfg Hk).
    destruct ((applyParameter k1 v1 cfg).2) as [e1|] eqn:E1;
      destruct ((applyParameter k2 v2 cfg).2) as [e2|] eqn:E2; try reflexivity.
    exfalso. apply Hk.
    assert (B1 : bad_autoplace (k1, v1))
      by (apply (applyParameter_error k1 v1 cfg); congruence).
    assert (B2 : bad_autoplace (k2, v2))
      by (apply (applyParameter_error k2 v2 cfg); congruence).
    destruct B1 as [B1 _]. destruct B2 as [B2 _]. simpl in *. congruence.
  - rewrite IH1 by exact Hd. apply IH2.
    unfold case_distinct in *. rewrite <- H1. exact Hd.
Qed.

(** X17: when no two parameter keys differ in letter case only, the translation
    does not depend on the order in which the parameters are visited. *)
Theorem resDeploymentConfig_order_independent (s : Linstor) (vol : volume.Info)
    (kvs kvs' : list (string * string)) :
  ranges (volume.Parameters vol) kvs ->
  ranges (volume.Parameters vol) kvs' ->
  case_distinct kvs ->
  resDeploymentConfigFromVolumeInfo s vol kvs
  = resDeploymentConfigFromVolumeInfo s vol kvs'.
Proof.
  intros H1 H2 Hd. rewrite !resDeploymentConfig_loop.
  rewrite (applyParameters_permutation kvs kvs'); [reflexivity| |exact Hd].
  unfold ranges in *. rewrite H1, H2. reflexivity.
Qed.

Lemma resDeploymentConfig_order_independent_witness :
  resDeploymentConfigFromVolumeInfo client vol_two_parameters
    [("NodeList", "node-a node-b"); ("storagepool", "ssd")]
  = resDeploymentConfigFromVolumeInfo client vol_two_parameters
      [("storagepool", "ssd"); ("NodeList", "node-a node-b")].
Proof.
  apply resDeploymentConfig_order_independent.
  - unfold ranges. vm_compute. first [reflexivity | apply perm_swap].
  - unfold ranges. vm_compute. first [reflexivity | apply perm_swap].
  - unfold case_distinct. vm_compute.
    constructor; [|constructor; [|constructor]].
    + intros H. inversion H as [|? ? ? H']. inversion H'.
    + intros H. inversion H.
Defined.

Lemma resDeploymentConfig_SizeKiB_value (s : Linstor) (vol : volume.Info)
    (kvs : list (string * string)) (cfg : lc.ResourceDeploymentConfig) :
  resDeploymentConfigFromVolumeInfo s vol kvs = (Some cfg, None) ->
  lc.SizeKiB cfg = uint64_of_int64 (volume.SizeBytes vol ÷ 1024 + 1).
Proof.
  rewrite resDeploymentConfig_loop.
  match goal with
  | |- context [applyParameters kvs ?c] =>
    pose proof (applyParameters_SizeKiB kvs c) as H;
    destruct (applyParameters kvs c) as [cfg' [err|]]
  end; [discriminate|].
  simpl in *. intros Hcfg. injection Hcfg as <-. exact H.
Qed.

(** X18: for a size that is not negative, the allocation exceeds the size, by at
    most 1024 bytes. *)
Theorem resDeploymentConfig_SizeKiB_bounds (s : Linstor) (vol : volume.Info)
    (kvs : list (string * string)) (cfg : lc.ResourceDeploymentConfig) :
  0 <= volume.SizeBytes vol < 2 ^ 63 ->
  resDeploymentConfigFromVolumeInfo s vol kvs = (Some cfg, None) ->
  volume.SizeBytes vol < lc.SizeKiB cfg * 1024 <= volume.SizeBytes vol + 1024.
Proof.
  intros Hsize Hcfg.
  destruct (resDeploymentConfig_SizeKiB s vol kvs cfg Hsize Hcfg) as [H _].
  rewrite H. Z.div_mod_to_equations. lia.
Qed.

Lemma resDeploymentConfig_SizeKiB_bounds_witness :
  volume.SizeBytes vol_2KiB < lc.SizeKiB (translated vol_2KiB []) * 1024
  <= volume.SizeBytes vol_2KiB + 1024.
Proof.
  apply (resDeploymentConfig_SizeKiB_bounds client vol_2KiB []).
  - simpl. lia.
  - vm_compute. reflexivity.
Defined.

(** X19: for a negative size the conversion to [uint64] shows: sizes above -1024
    give 1 KiB, sizes from -2047 to -1024 give 0 KiB, and sizes of -2048 and
    below wrap around to at least 2^64 - 2^53 KiB. *)
Theorem resDeploymentConfig_SizeKiB_negative (s : Linstor) (vol : volume.Info)
    (kvs : list (string * string)) (cfg : lc.ResourceDeploymentConfig) :
  int64 (volume.SizeBytes vol) ->
  volume.SizeBytes vol < 0 ->
  resDeploymentConfigFromVolumeInfo s vol kvs = (Some cfg, None) ->
  (- 1024 < volume.SizeBytes vol -> lc.SizeKiB cfg = 1)
  /\ (- 2048 < volume.SizeBytes vol <= - 1024 -> lc.SizeKiB cfg = 0)
  /\ (volume.SizeBytes vol <= - 2048 ->
      lc.SizeKiB cfg = 2 ^ 64 + (volume.SizeBytes vol ÷ 1024 + 1)
      /\ 2 ^ 64 - 2 ^ 53 <= lc.SizeKiB cfg).
Proof.
  intros Hint Hneg Hcfg.
  rewrite (resDeploymentConfig_SizeKiB_value _ _ _ _ Hcfg).
  unfold uint64_of_int64, int64 in *.
  assert (Hq : - 2 ^ 53 <= volume.SizeBytes vol ÷ 1024 <= 0
               /\ (- 1024 < volume.SizeBytes vol -> volume.SizeBytes vol ÷ 1024 = 0)
               /\ (- 2048 < volume.SizeBytes vol <= - 1024 ->
                   volume.SizeBytes vol ÷ 1024 = - 1)
               /\ (volume.SizeBytes vol <= - 2048 ->
                   volume.SizeBytes vol ÷ 1024 <= - 2)).
  { change (2 ^ 53) with 9007199254740992.
    change (2 ^ 63) with 9223372036854775808 in Hint.
    Z.to_euclidean_division_equations. lia. }
  destruct Hq as (Hb & H0 & H1 & H2).
  split; [|split].
  - intros H. rewrite (H0 H). reflexivity.
  - intros H. rewrite (H1 H). reflexivity.
  - intros H. specialize (H2 H).
    assert (Hm : (volume.SizeBytes vol ÷ 1024 + 1) mod 2 ^ 64
                 = 2 ^ 64 + (volume.SizeBytes vol ÷ 1024 + 1)).
    { symmetry. apply Z.mod_unique with (q := - 1); lia. }
    rewrite Hm. split; [reflexivity | lia].
Qed.

Lemma resDeploymentConfig_SizeKiB_negative_witness :
  (- 1024 < volume.SizeBytes vol_negative ->
   lc.SizeKiB (translated vol_negative []) = 1)
  /\ (- 2048 < volume.SizeBytes vol_negative <= - 1024 ->
      lc.SizeKiB (translated vol_negative []) = 0)
  /\ (volume.SizeBytes vol_negative <= - 2048 ->
      lc.SizeKiB (translated vol_negative [])
      = 2 ^ 64 + (volume.SizeBytes vol_negative ÷ 1024 + 1)
      /\ 2 ^ 64 - 2 ^ 53 <= lc.SizeKiB (translated vol_negative [])).
Proof.
  apply (resDeploymentConfig_SizeKiB_negative client vol_negative []).
  - unfold int64. simpl. lia.
  - simpl. lia.
  - vm_compute. reflexivity.
Defined.

(** ** Choosing a volume name *)

Lemma fits_template_name_chars (template p : list ascii) :
  fits_template template p = true ->
  length p = length template
  /\ Forall (fun b => regexp.name_char (byte_val b) = true) p.
Proof.
  revert p. induction template as [|t template IH]; intros [|c p]; simpl;
    try discriminate.
  - intros _. split; [reflexivity | constructor].
  - intros H. apply andb_true_iff in H as [Hc Hp].
    destruct (IH _ Hp) as [Hlen Hall]. split; [lia|].
    constructor; [|exact Hall].
    destruct (Ascii.eqb t "-").
    + apply Ascii.eqb_eq in Hc. subst c. reflexivity.
    + revert Hc. unfold is_hex_lower, regexp.name_char, regexp.alpha, between.
      rewrite !orb_true_iff, !andb_true_iff, !Z.leb_le, !Z.eqb_eq. lia.
Qed.

Lemma fallback_name_valid (u : string) :
  is_uuid u = true -> validResourceName ("csi-" +:+ u) = None.
Proof.
  intros Hu. apply fits_template_name_chars in Hu as [Hlen Hall].
  apply validResourceName_legal. split; [intros H; discriminate H|].
  exists "c"%char, ("s"%char :: "i"%char :: "-"%char :: bytes_of_string u).
  split; [reflexivity|]. split; [reflexivity|]. split.
  - repeat (constructor; [reflexivity|]). exact Hall.
  - split.
    + simpl length in *. rewrite Hlen. lia.
    + constructor. reflexivity.
Qed.

Lemma CanonicalizeVolumeName_cases (s : Linstor) (suggestedName newUUID : string)
    (ctl : Controller) (log : list call) :
  CanonicalizeVolumeName s suggestedName newUUID ctl log
  = match linstorifyResourceName suggestedName with
    | (_, Some _) => (Returned (fallbackPrefix s +:+ newUUID), log)
    | (name, None) =>
      match GetByID s name ctl log with
      | (Returned (None, None), log') => (Returned name, log')
      | (Returned _, log') => (Returned (fallbackPrefix s +:+ newUUID), log')
      | (Panicked, log') => (Panicked, log')
      end
    end.
Proof.
  unfold CanonicalizeVolumeName.
  destruct (linstorifyResourceName suggestedName) as [name [e|]]; [reflexivity|].
  unfold bind. destruct (GetByID s name ctl log) as [[[[v|] [e|]]|] log'];
    reflexivity.
Qed.

(** X20: when the suggestion cannot be canonicalised, the fallback name is chosen
    without asking the controller. *)
Theorem CanonicalizeVolumeName_unusable (s : Linstor)
    (suggestedName newUUID : string) (ctl : Controller) (err : error) (n : string) :
  linstorifyResourceName suggestedName = (n, Some err) ->
  run (CanonicalizeVolumeName s suggestedName newUUID) ctl
  = (Returned (fallbackPrefix s +:+ newUUID), []).
Proof.
  intros H. unfold run. rewrite CanonicalizeVolumeName_cases, H. reflexivity.
Qed.

Lemma CanonicalizeVolumeName_unusable_witness :
  run (CanonicalizeVolumeName client name_49 uuid_example) listing_volume
  = (Returned (fallbackPrefix client +:+ uuid_example), []).
Proof.
  apply (CanonicalizeVolumeName_unusable client name_49 uuid_example
           listing_volume (ErrLinstorify name_49) "").
  vm_compute. reflexivity.
Defined.

(** X21: the name chosen is always a valid LINSTOR name. *)
Theorem CanonicalizeVolumeName_valid (cfg : LinstorConfig)
    (suggestedName newUUID : string) (ctl : Controller) (name : string) :
  is_uuid newUUID = true ->
  (run (CanonicalizeVolumeName (NewLinstor cfg) suggestedName newUUID) ctl).1
  = Returned name ->
  validResourceName name = None.
Proof.
  intros Hu. unfold run. rewrite CanonicalizeVolumeName_cases.
  destruct (linstorifyResourceName suggestedName) as [n [e|]] eqn:Hn.
  - simpl. intros H. injection H as <-. apply fallback_name_valid, Hu.
  - destruct (GetByID (NewLinstor cfg) n ctl []) as [[[[v|] [e|]]|] log'];
      simpl; intros H; try discriminate H; injection H as <-;
      try (apply fallback_name_valid, Hu).
    apply (linstorifyResourceName_valid suggestedName), Hn.
Qed.

Lemma CanonicalizeVolumeName_valid_witness :
  validResourceName ("csi-" +:+ uuid_example) = None.
Proof.
  apply (CanonicalizeVolumeName_valid (mkLinstorConfig false "")
           "csi-myname" uuid_example listing_volume).
  - vm_compute. reflexivity.
  - vm_compute. reflexivity.
Defined.

(** X22: the name chosen is the fallback name or the canonical form of the
    suggestion, and the latter only when [GetByID] found nothing under it. *)
Theorem CanonicalizeVolumeName_choice (s : Linstor)
    (suggestedName newUUID : string) (ctl : Controller) (name : string) :
  (run (CanonicalizeVolumeName s suggestedName newUUID) ctl).1 = Returned name ->
  name = fallbackPrefix s +:+ newUUID
  \/ (linstorifyResourceName suggestedName = (name, None)
      /\ (run (GetByID s name) ctl).1 = Returned (None, None)).
Proof.
  unfold run. rewrite CanonicalizeVolumeName_cases.
  destruct (linstorifyResourceName suggestedName) as [n [e|]] eqn:Hn.
  - simpl. intros H. injection H as <-. left. reflexivity.
  - destruct (GetByID s n ctl []) as [[[[v|] [e|]]|] log'] eqn:Hg;
      simpl; intros H; try discriminate H; injection H as <-; auto.
    right. split; [reflexivity|]. rewrite Hg. reflexivity.
Qed.

Lemma CanonicalizeVolumeName_choice_witness :
  "my_volume_name" = fallbackPrefix client +:+ uuid_example
  \/ (linstorifyResourceName "my.volume!name" = ("my_volume_name", None)
      /\ (run (GetByID client "my_volume_name") listing_volume).1
         = Returned (None, None)).
Proof.
  apply (CanonicalizeVolumeName_choice client "my.volume!name" uuid_example
           listing_volume "my_volume_name").
  vm_compute. reflexivity.
Defined.

(** X23: a suggestion whose canonical form names a listed volume (by resource
    name or by ID) gets the fallback name. *)
Theorem CanonicalizeVolumeName_taken (s : Linstor)
    (suggestedName newUUID name : string) (ctl : Controller)
    (pre post : list lc.ResDef) (rd : lc.ResDef) (vol : volume.Info) :
  linstorifyResourceName suggestedName = (name, None) ->
  resourceDefinitions ctl = (pre ++ rd :: post, None) ->
  Forall (passed_by_ID s name) pre ->
  resDefToVolume s rd = (Some vol, None) ->
  lc.RscName rd = name \/ volume.ID vol = name ->
  (run (CanonicalizeVolumeName s suggestedName newUUID) ctl).1
  = Returned (fallbackPrefix s +:+ newUUID).
Proof.
  intros Hn Hlist Hpre Hrd Hmatch. unfold run.
  rewrite CanonicalizeVolumeName_cases, Hn.
  rewrite (GetByID_listed _ _ _ _ _ Hlist).
  rewrite (GetByID_scan_passed _ _ _ _ Hpre). simpl. rewrite Hrd.
  destruct (String.eqb_spec (lc.RscName rd) name) as [|E1]; [reflexivity|].
  destruct (String.eqb_spec (volume.ID vol) name) as [|E2]; [reflexivity|].
  destruct Hmatch; contradiction.
Qed.

Lemma CanonicalizeVolumeName_taken_witness :
  (run (CanonicalizeVolumeName client "csi-myname" uuid_example) listing_volume).1
  = Returned (fallbackPrefix client +:+ uuid_example).
Proof.
  apply (CanonicalizeVolumeName_taken client "csi-myname" uuid_example
           "csi-myname" listing_volume [] [] rd_csi_myname vol_csi_myname).
  - vm_compute. reflexivity.
  - reflexivity.
  - constructor.
  - vm_compute. reflexivity.
  - left. reflexivity.
Defined.

(** X24: a resource that carries no annotation does not protect its name: when
    the lookup reaches it under the canonical name, that name is chosen. *)
Theorem CanonicalizeVolumeName_foreign_collision (s : Linstor)
    (suggestedName newUUID name : string) (ctl : Controller)
    (pre post : list lc.ResDef) (rd : lc.ResDef) :
  linstorifyResourceName suggestedName = (name, None) ->
  resourceDefinitions ctl = (pre ++ rd :: post, None) ->
  Forall (passed_by_ID s name) pre ->
  foreign s rd ->
  lc.RscName rd = name ->
  (run (CanonicalizeVolumeName s suggestedName newUUID) ctl).1 = Returned name.
Proof.
  intros Hn Hlist Hpre Hforeign Hname. unfold run.
  rewrite CanonicalizeVolumeName_cases, Hn.
  rewrite (GetByID_listed _ _ _ _ _ Hlist).
  rewrite (GetByID_scan_passed _ _ _ _ Hpre). simpl.
  unfold resDefToVolume. rewrite (resDefToVolume_props_foreign _ _ Hforeign).
  rewrite Hname, String.eqb_refl. reflexivity.
Qed.

Lemma CanonicalizeVolumeName_foreign_collision_witness :
  (run (CanonicalizeVolumeName client "backups" uuid_example)
       listing_foreign_first).1
  = Returned "backups".
Proof.
  apply (CanonicalizeVolumeName_foreign_collision client "backups" uuid_example
           "backups" listing_foreign_first [] [rd_csi_myname] rd_foreign).
  - vm_compute. reflexivity.
  - reflexivity.
  - constructor.
  - repeat constructor; discriminate.
  - reflexivity.
Defined.

(** X25: a resource that carries no annotation and has another name makes the
    choice panic, as it makes [GetByID] panic. *)
Theorem CanonicalizeVolumeName_panics (s : Linstor)
    (suggestedName newUUID name : string) (ctl : Controller)
    (pre post : list lc.ResDef) (rd : lc.ResDef) :
  linstorifyResourceName suggestedName = (name, None) ->
  resourceDefinitions ctl = (pre ++ rd :: post, None) ->
  Forall (passed_by_ID s name) pre ->
  foreign s rd ->
  lc.RscName rd <> name ->
  (run (CanonicalizeVolumeName s suggestedName newUUID) ctl).1 = Panicked.
Proof.
  intros Hn Hlist Hpre Hforeign Hname. unfold run.
  rewrite CanonicalizeVolumeName_cases, Hn.
  rewrite (GetByID_listed _ _ _ _ _ Hlist).
  rewrite (GetByID_scan_passed _ _ _ _ Hpre). simpl.
  unfold resDefToVolume. rewrite (resDefToVolume_props_foreign _ _ Hforeign).
  destruct (String.eqb_spec (lc.RscName rd) name) as [|_]; [contradiction|].
  reflexivity.
Qed.

Lemma CanonicalizeVolumeName_panics_witness :
  (run (CanonicalizeVolumeName client "my.volume!name" uuid_example)
       listing_foreign_first).1
  = Panicked.
Proof.
  apply (CanonicalizeVolumeName_panics client "my.volume!name" uuid_example
           "my_volume_name" listing_foreign_first [] [rd_csi_myname] rd_foreign).
  - vm_compute. reflexivity.
  - reflexivity.
  - constructor.
  - repeat constructor; discriminate.
  - discriminate.
Defined.

(** An error of the lookup (the listing fails, or an annotation does not
    decode) gives the fallback name as well. *)
Lemma CanonicalizeVolumeName_lookup_error (s : Linstor)
    (suggestedName newUUID name : string) (ctl : Controller)
    (vol : option volume.Info) (err : error) :
  linstorifyResourceName suggestedName = (name, None) ->
  (run (GetByID s name) ctl).1 = Returned (vol, Some err) ->
  (run (CanonicalizeVolumeName s suggestedName newUUID) ctl).1
  = Returned (fallbackPrefix s +:+ newUUID).
Proof.
  intros Hn. unfold run. rewrite CanonicalizeVolumeName_cases, Hn.
  destruct (GetByID s name ctl []) as [[[[v|] [e|]]|] log'];
    simpl; intros H; try discriminate H; reflexivity.
Qed.

(** ** The methods that issue requests *)

Lemma resDeploymentConfig_cases (s : Linstor) (vol : volume.Info)
    (kvs : list (string * string)) :
  (exists cfg, resDeploymentConfigFromVolumeInfo s vol kvs = (Some cfg, None))
  \/ (exists err, resDeploymentConfigFromVolumeInfo s vol kvs = (None, Some err)).
Proof.
  rewrite resDeploymentConfig_loop.
  destruct (applyParameters kvs _) as [cfg' [err|]]; simpl; eauto.
Qed.

Lemma resDeploymentFromVolumeInfo_eq (s : Linstor) (vol : volume.Info)
    (kvs : list (string * string)) :
  resDeploymentFromVolumeInfo s vol kvs = resDeploymentConfigFromVolumeInfo s vol kvs.
Proof.
  unfold resDeploymentFromVolumeInfo.
  destruct (resDeploymentConfig_cases s vol kvs) as [[cfg H]|[err H]];
    rewrite H; reflexivity.
Qed.

(** X26: a volume that does not translate stops every method before any request:
    each returns the translation's error and asks nothing of the backend. *)
Theorem methods_stop_on_translation_error (s : Linstor) (vol : volume.Info)
    (kvs : list (string * string)) (b : Backend) (err : error)
    (node source target fsType : string) (options : list string) :
  resDeploymentConfigFromVolumeInfo s vol kvs = (None, Some err) ->
  run_op (Create s vol kvs) b = (Returned (Some err), [])
  /\ run_op (Delete s vol kvs) b = (Returned (Some err), [])
  /\ run_op (Attach s vol kvs node) b = (Returned (Some err), [])
  /\ run_op (Detach s vol kvs node) b = (Returned (Some err), [])
  /\ run_op (GetAssignmentOnNode s vol kvs node) b = (Returned (None, Some err), [])
  /\ run_op (Mount s vol kvs source target fsType options) b
     = (Returned (Some err), []).
Proof.
  intros H. unfold run_op, Create, Delete, Attach, Detach, GetAssignmentOnNode, Mount.
  rewrite !resDeploymentFromVolumeInfo_eq, H. repeat split; reflexivity.
Qed.

Lemma methods_stop_on_translation_error_witness :
  run_op (Create client vol_autoplace_many [("AutoPlace", "many")]) backend_ok
  = (Returned (Some (ErrParseInteger "many")), [])
  /\ run_op (Delete client vol_autoplace_many [("AutoPlace", "many")]) backend_ok
     = (Returned (Some (ErrParseInteger "many")), [])
  /\ run_op (Attach client vol_autoplace_many [("AutoPlace", "many")] "node-a")
       backend_ok
     = (Returned (Some (ErrParseInteger "many")), [])
  /\ run_op (Detach client vol_autoplace_many [("AutoPlace", "many")] "node-a")
       backend_ok
     = (Returned (Some (ErrParseInteger "many")), [])
  /\ run_op (GetAssignmentOnNode client vol_autoplace_many
               [("AutoPlace", "many")] "node-a") backend_ok
     = (Returned (None, Some (ErrParseInteger "many")), [])
  /\ run_op (Mount client vol_autoplace_many [("AutoPlace", "many")]
               "/dev/drbd1000" "/mnt/data" "ext4" ["noatime"]) backend_ok
     = (Returned (Some (ErrParseInteger "many")), []).
Proof.
  apply (methods_stop_on_translation_error client vol_autoplace_many
           [("AutoPlace", "many")] backend_ok (ErrParseInteger "many")).
  vm_compute. reflexivity.
Defined.

(** No method dereferences a nil deployment: none of them panics. *)
Lemma methods_do_not_panic (s : Linstor) (vol : volume.Info)
    (kvs : list (string * string)) (b : Backend)
    (node source target fsType : string) (options : list string) :
  (run_op (Create s vol kvs) b).1 <> Panicked
  /\ (run_op (Delete s vol kvs) b).1 <> Panicked
  /\ (run_op (Attach s vol kvs node) b).1 <> Panicked
  /\ (run_op (Detach s vol kvs node) b).1 <> Panicked
  /\ (run_op (GetAssignmentOnNode s vol kvs node) b).1 <> Panicked
  /\ (run_op (Mount s vol kvs source target fsType options) b).1 <> Panicked.
Proof.
  unfold run_op, Create, Delete, Attach, Detach, GetAssignmentOnNode, Mount.
  rewrite !resDeploymentFromVolumeInfo_eq.
  destruct (resDeploymentConfig_cases s vol kvs) as [[cfg H]|[err H]]; rewrite H.
  - unfold on_deployment, perform, op_bind, performGetDevPath, op_ret.
    repeat split; try discriminate.
    + destruct (devicePath b [] _) as [p [e|]]; discriminate.
    + destruct (index_ok (volume.Parameters vol) FSKey) as [fs ok].
      destruct (respond b [] _); discriminate.
  - repeat split; discriminate.
Qed.

(** [Create], [Delete] and [Detach] issue one request, on the deployment of
    the translated configuration, and return the backend's answer as it
    is. *)
Lemma Create_Delete_Detach_request (s : Linstor) (vol : volume.Info)
    (kvs : list (string * string)) (b : Backend)
    (cfg : lc.ResourceDeploymentConfig) (node : string) :
  resDeploymentConfigFromVolumeInfo s vol kvs = (Some cfg, None) ->
  run_op (Create s vol kvs) b
  = (Returned (respond b [] (CreateAndAssign cfg)), [CreateAndAssign cfg])
  /\ run_op (Delete s vol kvs) b
     = (Returned (respond b [] (DeleteDeployment cfg)), [DeleteDeployment cfg])
  /\ run_op (Detach s vol kvs node) b
     = (Returned (respond b [] (Unassign cfg node)), [Unassign cfg node]).
Proof.
  intros H. unfold run_op, Create, Delete, Detach.
  rewrite !resDeploymentFromVolumeInfo_eq, H. repeat split; reflexivity.
Qed.

(** X27: [Attach] asks for one assignment whose only client is the target node,
    with no node list and no automatic placement, whatever the volume's
    parameters say; everything else is as translated. *)
Theorem Attach_diskless (s : Linstor) (vol : volume.Info)
    (kvs : list (string * string)) (b : Backend)
    (cfg : lc.ResourceDeploymentConfig) (node : string) :
  resDeploymentConfigFromVolumeInfo s vol kvs = (Some cfg, None) ->
  exists cfg',
    run_op (Attach s vol kvs node) b
    = (Returned (respond b [] (Assign cfg')), [Assign cfg'])
    /\ lc.ClientList cfg' = [node]
    /\ lc.NodeList cfg' = []
    /\ lc.AutoPlace cfg' = 0
    /\ lc.Name cfg' = volume.ID vol
    /\ lc.SizeKiB cfg' = lc.SizeKiB cfg
    /\ lc.StoragePool cfg' = lc.StoragePool cfg
    /\ lc.DisklessStoragePool cfg' = lc.DisklessStoragePool cfg
    /\ lc.LayerList cfg' = lc.LayerList cfg
    /\ lc.ReplicasOnSame cfg' = lc.ReplicasOnSame cfg
    /\ lc.ReplicasOnDifferent cfg' = lc.ReplicasOnDifferent cfg
    /\ lc.DoNotPlaceWithRegex cfg' = lc.DoNotPlaceWithRegex cfg
    /\ lc.Encryption cfg' = lc.Encryption cfg
    /\ lc.Controllers cfg' = lc.Controllers cfg
    /\ lc.Annotations cfg' = lc.Annotations cfg.
Proof.
  intros H. unfold run_op, Attach. rewrite H.
  eexists. split; [reflexivity|]. repeat split.
  rewrite resDeploymentConfig_loop in H.
  match type of H with
  | context [applyParameters kvs ?c] =>
    pose proof (applyParameters_kept kvs c) as Hk;
    destruct (applyParameters kvs c) as [cfg0 [err|]]
  end; [discriminate|].
  simpl in *. injection H as <-. apply Hk.
Qed.

Lemma Attach_diskless_witness :
  exists cfg',
    run_op (Attach client vol_two_parameters
              [("NodeList", "node-a node-b"); ("storagepool", "ssd")] "node-c")
      backend_ok
    = (Returned (respond backend_ok [] (Assign cfg')), [Assign cfg'])
    /\ lc.ClientList cfg' = ["node-c"]
    /\ lc.NodeList cfg' = []
    /\ lc.AutoPlace cfg' = 0
    /\ lc.Name cfg' = volume.ID vol_two_parameters
    /\ lc.SizeKiB cfg'
       = lc.SizeKiB (translated vol_two_parameters [("NodeList", "node-a node-b"); ("storagepool", "ssd")])
    /\ lc.StoragePool cfg'
       = lc.StoragePool (translated vol_two_parameters [("NodeList", "node-a node-b"); ("storagepool", "ssd")])
    /\ lc.DisklessStoragePool cfg'
       = lc.DisklessStoragePool (translated vol_two_parameters [("NodeList", "node-a node-b"); ("storagepool", "ssd")])
    /\ lc.LayerList cfg'
       = lc.LayerList (translated vol_two_parameters [("NodeList", "node-a node-b"); ("storagepool", "ssd")])
    /\ lc.ReplicasOnSame cfg'
       = lc.ReplicasOnSame (translated vol_two_parameters [("NodeList", "node-a node-b"); ("storagepool", "ssd")])
    /\ lc.ReplicasOnDifferent cfg'
       = lc.ReplicasOnDifferent (translated vol_two_parameters [("NodeList", "node-a node-b"); ("storagepool", "ssd")])
    /\ lc.DoNotPlaceWithRegex cfg'
       = lc.DoNotPlaceWithRegex (translated vol_two_parameters [("NodeList", "node-a node-b"); ("storagepool", "ssd")])
    /\ lc.Encryption cfg'
       = lc.Encryption (translated vol_two_parameters [("NodeList", "node-a node-b"); ("storagepool", "ssd")])
    /\ lc.Controllers cfg'
       = lc.Controllers (translated vol_two_parameters [("NodeList", "node-a node-b"); ("storagepool", "ssd")])
    /\ lc.Annotations cfg'
       = lc.Annotations (translated vol_two_parameters [("NodeList", "node-a node-b"); ("storagepool", "ssd")]).
Proof.
  apply (Attach_diskless client vol_two_parameters
           [("NodeList", "node-a node-b"); ("storagepool", "ssd")] backend_ok
           (translated vol_two_parameters [("NodeList", "node-a node-b"); ("storagepool", "ssd")])
           "node-c").
  vm_compute. reflexivity.
Defined.

(** X28: [GetAssignmentOnNode] asks once for the device path of an assignment
    that is not diskful, and wraps the path with the volume and the node;
    an error of the backend is returned without an assignment. *)
Theorem GetAssignmentOnNode_request (s : Linstor) (vol : volume.Info)
    (kvs : list (string * string)) (b : Backend)
    (cfg : lc.ResourceDeploymentConfig) (node : string) :
  resDeploymentConfigFromVolumeInfo s vol kvs = (Some cfg, None) ->
  (run_op (GetAssignmentOnNode s vol kvs node) b).2 = [GetDevPath cfg node false]
  /\ (forall path,
      devicePath b [] (GetDevPath cfg node false) = (path, None) ->
      (run_op (GetAssignmentOnNode s vol kvs node) b).1
      = Returned (Some (mkAssignment vol node path), None))
  /\ (forall path err,
      devicePath b [] (GetDevPath cfg node false) = (path, Some err) ->
      (run_op (GetAssignmentOnNode s vol kvs node) b).1
      = Returned (None, Some err)).
Proof.
  intros H. unfold run_op, GetAssignmentOnNode.
  rewrite resDeploymentFromVolumeInfo_eq, H.
  unfold on_deployment, op_bind, performGetDevPath.
  destruct (devicePath b [] (GetDevPath cfg node false)) as [p [e|]];
    (split; [reflexivity|]); split; intros; simplify_eq; reflexivity.
Qed.

Lemma GetAssignmentOnNode_request_witness :
  (run_op (GetAssignmentOnNode client vol_2KiB [] "node-a") backend_ok).2
  = [GetDevPath (translated vol_2KiB []) "node-a" false]
  /\ (forall path,
      devicePath backend_ok [] (GetDevPath (translated vol_2KiB []) "node-a" false)
      = (path, None) ->
      (run_op (GetAssignmentOnNode client vol_2KiB [] "node-a") backend_ok).1
      = Returned (Some (mkAssignment vol_2KiB "node-a" path), None))
  /\ (forall path err,
      devicePath backend_ok [] (GetDevPath (translated vol_2KiB []) "node-a" false)
      = (path, Some err) ->
      (run_op (GetAssignmentOnNode client vol_2KiB [] "node-a") backend_ok).1
      = Returned (None, Some err)).
Proof.
  apply (GetAssignmentOnNode_request client vol_2KiB [] backend_ok
           (translated vol_2KiB []) "node-a").
  vm_compute. reflexivity.
Defined.

Lemma append_assoc (a b c : string) : (a +:+ b) +:+ c = a +:+ (b +:+ c).
Proof.
  induction a as [|x a IH]; [reflexivity|].
  change (String x (a +:+ b +:+ c)) with (String x (a +:+ (b +:+ c))).
  change ((String x a +:+ b) +:+ c) with (String x ((a +:+ b) +:+ c)).
  rewrite IH. reflexivity.
Qed.

Lemma Join_snoc (elems : list string) (x sep : string) :
  elems <> [] ->
  Join (elems ++ [x]) sep = Join elems sep +:+ sep +:+ x.
Proof.
  induction elems as [|a [|a' elems] IH]; intros Hne; [contradiction| |].
  - reflexivity.
  - change (Join ((a :: a' :: elems) ++ [x]) sep)
      with (a +:+ sep +:+ Join ((a' :: elems) ++ [x]) sep).
    rewrite IH by discriminate.
    change (Join (a :: a' :: elems) sep) with (a +:+ sep +:+ Join (a' :: elems) sep).
    rewrite !append_assoc. reflexivity.
Qed.

Lemma Mount_translated (s : Linstor) (vol : volume.Info)
    (kvs : list (string * string)) (b : Backend)
    (cfg : lc.ResourceDeploymentConfig)
    (source target fsType : string) (options : list string) :
  resDeploymentConfigFromVolumeInfo s vol kvs = (Some cfg, None) ->
  let mounter :=
    mkFSUtil cfg
      (match default ∅ (volume.Parameters vol) !! FSKey with
       | Some fs => fs
       | None => fsType
       end)
      (Join (options ++ [index (volume.Parameters vol) MountOptsKey]) ",")
      (index (volume.Parameters vol) FSOptsKey) in
  run_op (Mount s vol kvs source target fsType options) b
  = match respond b [] (SafeFormat mounter source) with
    | Some err => (Returned (Some err), [SafeFormat mounter source])
    | None =>
      (Returned (respond b [SafeFormat mounter source]
                   (MountFS mounter source target)),
       [SafeFormat mounter source; MountFS mounter source target])
    end.
Proof.
  intros H. cbv zeta. unfold run_op, Mount.
  rewrite resDeploymentFromVolumeInfo_eq, H. unfold index_ok.
  destruct (default ∅ (volume.Parameters vol) !! FSKey) as [fs|];
    unfold on_deployment, op_bind, perform;
    destruct (respond b [] _) as [e|]; reflexivity.
Qed.

(** X29: [Mount] formats before it mounts, with one and the same mounter on the
    translated deployment; when formatting fails, that error is returned and
    nothing is mounted. *)
Theorem Mount_formats_first (s : Linstor) (vol : volume.Info)
    (kvs : list (string * string)) (b : Backend)
    (cfg : lc.ResourceDeploymentConfig)
    (source target fsType : string) (options : list string) :
  resDeploymentConfigFromVolumeInfo s vol kvs = (Some cfg, None) ->
  exists mounter,
    ResourceDeployment mounter = cfg
    /\ (forall err, respond b [] (SafeFormat mounter source) = Some err ->
        run_op (Mount s vol kvs source target fsType options) b
        = (Returned (Some err), [SafeFormat mounter source]))
    /\ (respond b [] (SafeFormat mounter source) = None ->
        run_op (Mount s vol kvs source target fsType options) b
        = (Returned (respond b [SafeFormat mounter source]
                       (MountFS mounter source target)),
           [SafeFormat mounter source; MountFS mounter source target])).
Proof.
  intros H. eexists. split; [|split].
  2: { intros err He. rewrite (Mount_translated _ _ _ _ _ _ _ _ _ H).
       cbv zeta. rewrite He. reflexivity. }
  2: { intros He. rewrite (Mount_translated _ _ _ _ _ _ _ _ _ H).
       cbv zeta. rewrite He. reflexivity. }
  reflexivity.
Qed.

Lemma Mount_formats_first_witness :
  exists mounter,
    ResourceDeployment mounter = translated vol_xfs [("filesystem", "xfs")]
    /\ (forall err,
        respond backend_unformatted [] (SafeFormat mounter "/dev/drbd1000")
        = Some err ->
        run_op (Mount client vol_xfs [("filesystem", "xfs")]
                  "/dev/drbd1000" "/mnt/data" "ext4" ["noatime"])
          backend_unformatted
        = (Returned (Some err), [SafeFormat mounter "/dev/drbd1000"]))
    /\ (respond backend_unformatted [] (SafeFormat mounter "/dev/drbd1000")
        = None ->
        run_op (Mount client vol_xfs [("filesystem", "xfs")]
                  "/dev/drbd1000" "/mnt/data" "ext4" ["noatime"])
          backend_unformatted
        = (Returned (respond backend_unformatted
                       [SafeFormat mounter "/dev/drbd1000"]
                       (MountFS mounter "/dev/drbd1000" "/mnt/data")),
           [SafeFormat mounter "/dev/drbd1000";
            MountFS mounter "/dev/drbd1000" "/mnt/data"])).
Proof.
  apply (Mount_formats_first client vol_xfs [("filesystem", "xfs")]
           backend_unformatted (translated vol_xfs [("filesystem", "xfs")])
           "/dev/drbd1000" "/mnt/data" "ext4" ["noatime"]).
  vm_compute. reflexivity.
Defined.

(** X30: the mounter [Mount] uses: a [filesystem] parameter overrides the file
    system type of the call, also when it is empty; the mount options are
    the caller's followed by the [mountOpts] parameter, so a volume without
    that parameter gets the caller's options with a trailing comma. *)
Theorem Mount_settings (s : Linstor) (vol : volume.Info)
    (kvs : list (string * string)) (b : Backend)
    (cfg : lc.ResourceDeploymentConfig)
    (source target fsType : string) (options : list string) :
  resDeploymentConfigFromVolumeInfo s vol kvs = (Some cfg, None) ->
  exists mounter rest,
    (run_op (Mount s vol kvs source target fsType options) b).2
    = SafeFormat mounter source :: rest
    /\ (forall fs, default ∅ (volume.Parameters vol) !! FSKey = Some fs ->
        FSType mounter = fs)
    /\ (default ∅ (volume.Parameters vol) !! FSKey = None ->
        FSType mounter = fsType)
    /\ (options = [] ->
        MountOpts mounter = index (volume.Parameters vol) MountOptsKey)
    /\ (options <> [] ->
        MountOpts mounter
        = Join options "," +:+ "," +:+ index (volume.Parameters vol) MountOptsKey)
    /\ (options <> [] ->
        default ∅ (volume.Parameters vol) !! MountOptsKey = None ->
        MountOpts mounter = Join options "," +:+ ",")
    /\ FSOpts mounter = index (volume.Parameters vol) FSOptsKey.
Proof.
  intros H. rewrite (Mount_translated _ _ _ _ _ _ _ _ _ H). cbv zeta.
  match goal with
  | |- context [SafeFormat ?m source] =>
    exists m, (match respond b [] (SafeFormat m source) with
               | Some _ => []
               | None => [MountFS m source target]
               end)
  end.
  split; [destruct (respond b [] _); reflexivity|].
  cbn [FSType MountOpts FSOpts]. repeat split.
  - intros fs ->. reflexivity.
  - intros ->. reflexivity.
  - intros ->. reflexivity.
  - intros Hne. apply Join_snoc, Hne.
  - intros Hne Hnone. rewrite (Join_snoc _ _ _ Hne).
    unfold index. rewrite Hnone. reflexivity.
Qed.

Lemma Mount_settings_witness :
  exists mounter rest,
    (run_op (Mount client vol_xfs [("filesystem", "xfs")]
               "/dev/drbd1000" "/mnt/data" "ext4" ["noatime"]) backend_ok).2
    = SafeFormat mounter "/dev/drbd1000" :: rest
    /\ (forall fs, default ∅ (volume.Parameters vol_xfs) !! FSKey = Some fs ->
        FSType mounter = fs)
    /\ (default ∅ (volume.Parameters vol_xfs) !! FSKey = None ->
        FSType mounter = "ext4")
    /\ (["noatime"] = [] ->
        MountOpts mounter = index (volume.Parameters vol_xfs) MountOptsKey)
    /\ (["noatime"] <> [] ->
        MountOpts mounter
        = Join ["noatime"] "," +:+ ","
          +:+ index (volume.Parameters vol_xfs) MountOptsKey)
    /\ (["noatime"] <> [] ->
        default ∅ (volume.Parameters vol_xfs) !! MountOptsKey = None ->
        MountOpts mounter = Join ["noatime"] "," +:+ ",")
    /\ FSOpts mounter = index (volume.Parameters vol_xfs) FSOptsKey.
Proof.
  apply (Mount_settings client vol_xfs [("filesystem", "xfs")] backend_ok
           (translated vol_xfs [("filesystem", "xfs")])
           "/dev/drbd1000" "/mnt/data" "ext4" ["noatime"]).
  vm_compute. reflexivity.
Defined.

(** [Unmount] issues one request, on a mounter without file system settings
    whose deployment is named ["CSI Unmount"], and returns the backend's
    answer as it is. *)
Lemma Unmount_request (s : Linstor) (target : string) (b : Backend) :
  exists mounter,
    run_op (Unmount s target) b
    = (Returned (respond b [] (UnMountFS mounter target)),
       [UnMountFS mounter target])
    /\ lc.Name (ResourceDeployment mounter) = "CSI Unmount"
    /\ FSType mounter = "" /\ MountOpts mounter = "" /\ FSOpts mounter = "".
Proof. eexists. repeat split. Qed.

(** [NodeAvailable] never fails, and holds every node available but the one
    the test suite names. *)
Lemma NodeAvailable_all_but_one (s : Linstor) (node : string) :
  (NodeAvailable s node).2 = None
  /\ ((NodeAvailable s node).1 = false <-> node = "some-fake-node-id").
Proof.
  unfold NodeAvailable.
  destruct (String.eqb_spec node "some-fake-node-id") as [E|E]; simpl;
    (split; [reflexivity|]); split; intros H;
    try discriminate; try contradiction; auto.
Qed.
